(** * pysoxy: a small SOCKS5 proxy server

    Shallow embedding of [pysoxy.py] and verification of its handshake,
    request, relay and accept-loop behaviour.

    Python [bytes] values are lists of [Byte.byte]; sockets are handles whose
    behaviour is supplied by an explicit environment (what the peer sends,
    which system calls fail); every function that touches a socket lives in a
    small monad with state, exceptions and an event log. *)

From Stdlib Require Import List Bool Arith NArith Lia String.
From Stdlib Require Import Init.Byte.
Import ListNotations.

Set Implicit Arguments.

(* ================================================================== *)
(** ** Bytes *)

Definition bytes := list byte.

Definition bytes_eqb (a b : bytes) : bool :=
  if list_eq_dec Byte.byte_eq_dec a b then true else false.

(** Python slicing [s[lo:hi]] for [0 <= lo <= hi]; it never raises and
    clips at the end of [s]. *)
Definition slice (lo hi : nat) (s : bytes) : bytes :=
  firstn (hi - lo) (skipn lo s).

(** Python slicing [s[lo:]]. *)
Definition slice_from (lo : nat) (s : bytes) : bytes := skipn lo s.

(* ================================================================== *)
(** ** Configuration and constants *)

Definition MAX_THREADS : nat := 200.
Definition BUFSIZE : nat := 2048.

(** [OUTGOING_INTERFACE] is the only setting that the functions below
    branch on; it is kept as a field so that the device-binding path of
    [connect_to_dst] can be exercised.  The shipped value is the empty
    string. *)
Record config := { OUTGOING_INTERFACE : string }.

Definition shipped_config : config := {| OUTGOING_INTERFACE := EmptyString |}.

Definition VER : bytes := [x05].
Definition M_NOAUTH : bytes := [x00].
Definition M_NOTAVAILABLE : bytes := [xff].
Definition CMD_CONNECT : bytes := [x01].
Definition CMD_BIND : bytes := [x02].
Definition CMD_UDP_ASSOCIATE : bytes := [x03].
Definition ATYP_IPV4 : bytes := [x01].
Definition ATYP_DOMAINNAME : bytes := [x03].
Definition ATYP_IPV6 : bytes := [x04].

(* ================================================================== *)
(** ** Exceptions *)

(** The subclasses of [OSError] that the handlers of the program tell
    apart.  [socket.error] and [select.error] are aliases of [OSError]. *)
Inductive os_error :=
| ConnectionResetError
| PermissionError
| TimeoutError
| OtherOSError.

(** The exceptions that the program can meet.  [TypeError] and
    [ValueError] come from library calls that refuse an argument before
    they reach the system; [RuntimeError] is what [Thread.start] raises
    when no thread can be started.  None of the three is an [OSError]. *)
Inductive exn :=
| OSError (e : os_error)
| IndexError
| StructError
| SystemExit
| TypeError
| ValueError
| RuntimeError.

(** [except socket.error] / [except select.error] *)
Definition is_socket_error (e : exn) : bool :=
  match e with OSError _ => true | _ => false end.

(** [except ConnectionResetError] *)
Definition is_ConnectionResetError (e : exn) : bool :=
  match e with OSError ConnectionResetError => true | _ => false end.

(** [except PermissionError] *)
Definition is_PermissionError (e : exn) : bool :=
  match e with OSError PermissionError => true | _ => false end.

(* ================================================================== *)
(** ** Sockets, environment and events *)

(** The two sockets of one connection: the accepted client socket
    ([wrapper]) and the outbound socket made by [connect_to_dst]. *)
Inductive sock := Client | Dst.

Definition sock_eqb (a b : sock) : bool :=
  match a, b with
  | Client, Client | Dst, Dst => true
  | _, _ => false
  end.

Definition other (s : sock) : sock :=
  match s with Client => Dst | Dst => Client end.

(** What the environment answers to a [recv]: a chunk of bytes (the empty
    chunk is the orderly shutdown of the peer) or an error. *)
Inductive recv_result :=
| RecvData (d : bytes)
| RecvRaise (e : os_error).

(** What the environment answers to a [send] or [sendall]: the number of
    bytes the kernel took (meaningful for [send] only) or an error. *)
Inductive send_result :=
| SendOk (n : nat)
| SendRaise (e : os_error).

Inductive select_result :=
| SelReady (ready : list sock)
| SelRaise (e : os_error).

Record sock_env := {
  inbox : list recv_result;     (* answers to the successive recv calls  *)
  outbox : list send_result;    (* answers to the successive send calls  *)
  closed : bool                 (* close() was called on the handle      *)
}.

(** An IPv4 address as its four octets. *)
Definition ipv4 := (byte * byte * byte * byte)%type.

(** Answers to the calls made once per outbound socket. *)
Record dst_env := {
  on_socket : option os_error;        (* socket() / settimeout           *)
  on_bindtodevice : option os_error;  (* setsockopt(SO_BINDTODEVICE)     *)
  on_connect : option os_error;       (* connect()                       *)
  on_nodelay : option os_error;       (* setsockopt(TCP_NODELAY)         *)
  sockname : ipv4 * N                 (* getsockname()                   *)
}.

Record world := {
  exit : bool;                        (* EXIT.exit                        *)
  signals : list bool;                (* did SIGINT/SIGTERM arrive before
                                         the next look at the flag?      *)
  client : sock_env;
  dst : sock_env;
  selects : list select_result;       (* answers to the select calls      *)
  outbound : dst_env
}.

Inductive dst_addr :=
| AddrIPv4 (a : ipv4)                 (* dotted string of inet_ntoa       *)
| AddrDomain (name : bytes).

(** The log of a run: every call that reached the outside, with the
    answer it got ([None] for a call that succeeded without a value). *)
Inductive event :=
| EvRecv (s : sock) (bufsize : nat) (r : recv_result)
| EvSendall (s : sock) (data : bytes) (r : send_result)
| EvSend (s : sock) (data : bytes) (r : send_result)
| EvClose (s : sock)
| EvSocket (r : option os_error)
| EvBindToDevice (ifname : string) (r : option os_error)
| EvConnect (addr : dst_addr) (port : N) (r : option os_error)
| EvNoDelay (r : option os_error)
| EvSelect (r : select_result)
| EvSleep (seconds : nat)
| EvSetExit (status : bool).

Definition get_sock (w : world) (s : sock) : sock_env :=
  match s with Client => client w | Dst => dst w end.

Definition set_sock (w : world) (s : sock) (e : sock_env) : world :=
  match s with
  | Client => {| exit := exit w; signals := signals w; client := e;
                 dst := dst w; selects := selects w; outbound := outbound w |}
  | Dst => {| exit := exit w; signals := signals w; client := client w;
              dst := e; selects := selects w; outbound := outbound w |}
  end.

Definition set_exit (w : world) (b : bool) (sg : list bool) : world :=
  {| exit := b; signals := sg; client := client w; dst := dst w;
     selects := selects w; outbound := outbound w |}.

Definition set_selects (w : world) (q : list select_result) : world :=
  {| exit := exit w; signals := signals w; client := client w; dst := dst w;
     selects := q; outbound := outbound w |}.

(** Which of the two handles are closed. *)
Definition handles (w : world) : bool * bool :=
  (closed (client w), closed (dst w)).

(* ================================================================== *)
(** ** The monad: state, exceptions, event log *)

(** [Hang]: the call never returns in the observed run (a blocking call
    the environment does not answer, or a loop that is still running when
    the fuel ends). *)
Inductive outcome (A : Type) :=
| Ret (a : A)
| Raise (e : exn)
| Hang.
Arguments Raise {A} e.
Arguments Hang {A}.

Definition M (A : Type) : Type := world -> outcome A * world * list event.

Definition ret {A} (a : A) : M A := fun w => (Ret a, w, []).

Definition raise {A} (e : exn) : M A := fun w => (Raise e, w, []).

Definition bind {A B} (m : M A) (f : A -> M B) : M B := fun w =>
  match m w with
  | (Ret a, w1, t1) => let '(o, w2, t2) := f a w1 in (o, w2, t1 ++ t2)
  | (Raise e, w1, t1) => (Raise e, w1, t1)
  | (Hang, w1, t1) => (Hang, w1, t1)
  end.

(** [try: m  except <h matches e>: handler]; an exception for which [h]
    gives [None] propagates. *)
Definition try_except {A} (m : M A) (h : exn -> option (M A)) : M A := fun w =>
  match m w with
  | (Raise e, w1, t1) =>
      match h e with
      | Some k => let '(o, w2, t2) := k w1 in (o, w2, t1 ++ t2)
      | None => (Raise e, w1, t1)
      end
  | r => r
  end.

Definition emit (e : event) : M unit := fun w => (Ret tt, w, [e]).

Declare Scope py_scope.
Delimit Scope py_scope with py.
Notation "x <- m ;; k" := (bind m (fun x => k))
  (at level 61, m at next level, right associativity) : py_scope.
Notation "m ;; k" := (bind m (fun _ => k))
  (at level 61, right associativity) : py_scope.
Local Open Scope py_scope.

(** The log, the result and the final state of a run. *)
Definition result_of {A} (r : outcome A * world * list event) : outcome A :=
  fst (fst r).
Definition world_of {A} (r : outcome A * world * list event) : world :=
  snd (fst r).
Definition trace_of {A} (r : outcome A * world * list event) : list event :=
  snd r.

(* ================================================================== *)
(** ** Socket primitives *)

(** [sock.recv(bufsize)]: at most [bufsize] bytes of the next chunk; what
    does not fit stays queued for the next call.  On a closed handle the
    call raises [OSError] (bad file descriptor).  When the environment has
    nothing more to say the blocking call does not return. *)
Definition recv (s : sock) (bufsize : nat) : M bytes := fun w =>
  let e := get_sock w s in
  if closed e
  then (Raise (OSError OtherOSError), w,
        [EvRecv s bufsize (RecvRaise OtherOSError)])
  else
    match inbox e with
    | [] => (Hang, w, [])
    | RecvRaise err :: q =>
        (Raise (OSError err),
         set_sock w s {| inbox := q; outbox := outbox e; closed := false |},
         [EvRecv s bufsize (RecvRaise err)])
    | RecvData d :: q =>
        let got := firstn bufsize d in
        let q' := match skipn bufsize d with
                  | [] => q
                  | rest => RecvData rest :: q
                  end in
        (Ret got,
         set_sock w s {| inbox := q'; outbox := outbox e; closed := false |},
         [EvRecv s bufsize (RecvData got)])
    end.

(** The part shared by [send] and [sendall]: the next answer of the
    environment to a write of [data] on [s].  On a closed handle the call
    raises [OSError]; when the environment has nothing more to say the
    write is taken whole. *)
Definition write (s : sock) (data : bytes) (ev : send_result -> event)
  : M nat := fun w =>
  let e := get_sock w s in
  if closed e
  then (Raise (OSError OtherOSError), w, [ev (SendRaise OtherOSError)])
  else
    match outbox e with
    | [] => (Ret (List.length data), w, [ev (SendOk (List.length data))])
    | SendRaise err :: q =>
        (Raise (OSError err),
         set_sock w s {| inbox := inbox e; outbox := q; closed := false |},
         [ev (SendRaise err)])
    | SendOk n :: q =>
        (Ret n,
         set_sock w s {| inbox := inbox e; outbox := q; closed := false |},
         [ev (SendOk n)])
    end.

(** [sock.sendall(data)] returns [None]. *)
Definition sendall (s : sock) (data : bytes) : M unit :=
  _ <- write s data (EvSendall s data) ;; ret tt.

(** [sock.send(data)] returns the number of bytes sent. *)
Definition send (s : sock) (data : bytes) : M nat :=
  write s data (EvSend s data).

(** [sock.close()] never raises and may be repeated. *)
Definition close (s : sock) : M unit := fun w =>
  let e := get_sock w s in
  (Ret tt,
   set_sock w s {| inbox := inbox e; outbox := outbox e; closed := true |},
   [EvClose s]).

(** [select.select([socket_src, socket_dst], [], [], 1)].  A closed
    socket has the file descriptor -1, which [select.select] refuses with
    [ValueError] while it builds its descriptor sets, before it waits for
    anything: nothing reaches the outside and nothing is logged.  With
    both sockets open the environment answers; when it has nothing more to
    say the one-second timeout expires with nothing readable. *)
Definition select (socket_src socket_dst : sock) : M (list sock) := fun w =>
  if closed (get_sock w socket_src) || closed (get_sock w socket_dst)
  then (Raise ValueError, w, [])
  else
    match selects w with
    | [] => (Ret [], w, [EvSelect (SelReady [])])
    | SelReady r :: q => (Ret r, set_selects w q, [EvSelect (SelReady r)])
    | SelRaise err :: q =>
        (Raise (OSError err), set_selects w q, [EvSelect (SelRaise err)])
    end.

Definition sleep (seconds : nat) : M unit := emit (EvSleep seconds).

(* ================================================================== *)
(** ** class ExitStatus *)

(** [EXIT.set_status(status)] *)
Definition set_status (status : bool) : M unit := fun w =>
  (Ret tt, set_exit w status (signals w), [EvSetExit status]).

(** [EXIT.get_status()].  The flag is also written by [exit_handler],
    which runs between two instructions of the program when a signal
    arrives: the environment says, before each look at the flag, whether
    that happened. *)
Definition get_status : M bool := fun w =>
  match signals w with
  | [] => (Ret (exit w), w, [])
  | sg :: q => let b := orb (exit w) sg in (Ret b, set_exit w b q, [])
  end.

(** [error(msg, err)] only prints to stderr. *)
Definition error : M unit := ret tt.

(* ================================================================== *)
(** ** Library functions on bytes *)

(** [s[i]]: the integer value of the byte at [i], or [IndexError]. *)
Definition index (s : bytes) (i : nat) : M N :=
  match nth_error s i with
  | Some b => ret (Byte.to_N b)
  | None => raise IndexError
  end.

(** [ord(b)] for a one-byte [bytes] constant. *)
Definition ord (b : bytes) : N :=
  match b with
  | [c] => Byte.to_N c
  | _ => 0%N
  end.

(** [unpack('>H', b)[0]]: [struct.error] unless [b] has two bytes. *)
Definition unpack_H (b : bytes) : M N :=
  match b with
  | [hi; lo] => ret (Byte.to_N hi * 256 + Byte.to_N lo)%N
  | _ => raise StructError
  end.

(** [pack('>H', n)]: [struct.error] unless [0 <= n < 65536]. *)
Definition pack_H (n : N) : M bytes :=
  match Byte.of_N (n / 256), Byte.of_N (n mod 256) with
  | Some hi, Some lo => ret [hi; lo]
  | _, _ => raise StructError
  end.

(** [socket.inet_ntoa(b)]: [OSError] unless [b] has four bytes. *)
Definition inet_ntoa (b : bytes) : M ipv4 :=
  match b with
  | [a1; a2; a3; a4] => ret (a1, a2, a3, a4)
  | _ => raise (OSError OtherOSError)
  end.

(** [socket.inet_aton(ip)] on the dotted form of an IPv4 address. *)
Definition inet_aton (ip : ipv4) : bytes :=
  let '(a1, a2, a3, a4) := ip in [a1; a2; a3; a4].

(* ================================================================== *)
(** ** proxy_loop *)

Inductive flow := Continue | Return.

(** The body of [for sock in reader]: [Return] when the function returns
    from inside the loop. *)
Fixpoint relay_ready (socket_src socket_dst : sock) (reader : list sock)
  : M flow :=
  match reader with
  | [] => ret Continue
  | sock :: rest =>
      data <- recv sock BUFSIZE ;;
      match data with
      | [] => ret Return
      | _ =>
          _ <- (if sock_eqb sock socket_dst
                then send socket_src data
                else send socket_dst data) ;;
          relay_ready socket_src socket_dst rest
      end
  end.

(** [while not EXIT.get_status(): ...]; one unit of fuel per iteration. *)
Fixpoint proxy_loop (fuel : nat) (socket_src socket_dst : sock) : M unit :=
  match fuel with
  | O => fun w => (Hang, w, [])
  | S fuel' =>
      stop <- get_status ;;
      if stop then ret tt
      else
        sel <- try_except
                 (reader <- select socket_src socket_dst ;;
                  ret (Some reader))
                 (fun e => if is_socket_error e
                           then Some (error ;; ret None) else None) ;;
        match sel with
        | None => ret tt
        | Some [] => proxy_loop fuel' socket_src socket_dst
        | Some reader =>
            fl <- try_except
                    (relay_ready socket_src socket_dst reader)
                    (fun e => if is_socket_error e
                              then Some (error ;; ret Return) else None) ;;
            match fl with
            | Return => ret tt
            | Continue => proxy_loop fuel' socket_src socket_dst
            end
        end
  end.

(* ================================================================== *)
(** ** connect_to_dst *)

(** The state in which the outbound handle stands for a socket that was
    just made: it is open, and the environment's answers for it are still
    to come. *)
Definition fresh_dst (w : world) : world :=
  set_sock w Dst {| inbox := inbox (dst w); outbox := outbox (dst w);
                    closed := false |}.

(** [create_socket()]: a failure of [socket.socket] or [settimeout] ends
    in [sys.exit(0)], that is, in [SystemExit].  The socket that is
    returned is a new one, hence open. *)
Definition create_socket : M sock := fun w =>
  match on_socket (outbound w) with
  | None => (Ret Dst, fresh_dst w, [EvSocket None])
  | Some err => (Raise SystemExit, w, [EvSocket (Some err)])
  end.

(** [sock.setsockopt(SOL_SOCKET, SO_BINDTODEVICE, ifname)] *)
Definition setsockopt_bindtodevice (ifname : string) : M unit := fun w =>
  match on_bindtodevice (outbound w) with
  | None => (Ret tt, w, [EvBindToDevice ifname None])
  | Some err => (Raise (OSError err), w, [EvBindToDevice ifname (Some err)])
  end.

(** The host of [dst_addr] holds a NUL byte.  The dotted string that
    [inet_ntoa] makes never does; a domain name is the bytes that the
    client sent, whatever they are. *)
Definition has_nul (addr : dst_addr) : bool :=
  match addr with
  | AddrIPv4 _ => false
  | AddrDomain name => existsb (Byte.eqb x00) name
  end.

(** [sock.connect((dst_addr, dst_port))].  The socket module converts the
    address first and refuses a host with a NUL byte with [TypeError],
    before any system call: nothing reaches the outside and nothing is
    logged.  The port comes from [unpack('>H', ...)] and is always in
    range.  Every other failure (resolution, refusal, timeout) is an
    [OSError] that the environment supplies. *)
Definition connect (addr : dst_addr) (port : N) : M unit := fun w =>
  if has_nul addr then (Raise TypeError, w, [])
  else
    match on_connect (outbound w) with
    | None => (Ret tt, w, [EvConnect addr port None])
    | Some err => (Raise (OSError err), w, [EvConnect addr port (Some err)])
    end.

(** [sock.setsockopt(IPPROTO_TCP, TCP_NODELAY, 1)] *)
Definition setsockopt_nodelay : M unit := fun w =>
  match on_nodelay (outbound w) with
  | None => (Ret tt, w, [EvNoDelay None])
  | Some err => (Raise (OSError err), w, [EvNoDelay (Some err)])
  end.

(** [sock.getsockname()] *)
Definition getsockname : M (ipv4 * N) := fun w =>
  (Ret (sockname (outbound w)), w, []).

(** The result is [Some sock], or [None] for the integer [0] that the
    source returns when the connect failed. *)
Definition connect_to_dst (cfg : config) (addr : dst_addr) (dst_port : N)
  : M (option sock) :=
  sock <- create_socket ;;
  (if String.eqb (OUTGOING_INTERFACE cfg) EmptyString
   then ret tt
   else try_except
          (setsockopt_bindtodevice (OUTGOING_INTERFACE cfg))
          (fun e => if is_PermissionError e
                    then Some (set_status true) else None)) ;;
  try_except
    (connect addr dst_port ;;
     setsockopt_nodelay ;;
     ret (Some sock))
    (fun e => if is_socket_error e then Some (error ;; ret None) else None).

(* ================================================================== *)
(** ** request_client and request *)

(** The part of [request_client] that follows the read of [s5_request].
    The result is [Some (dst_addr, dst_port)], or [None] for [False]. *)
Definition parse_request (s5_request : bytes) : M (option (dst_addr * N)) :=
  (* Check VER, CMD and RSV *)
  if negb (bytes_eqb (slice 0 1 s5_request) VER)
     || negb (bytes_eqb (slice 1 2 s5_request) CMD_CONNECT)
     || negb (bytes_eqb (slice 2 3 s5_request) [x00])
  then ret None
  (* IPV4 *)
  else if bytes_eqb (slice 3 4 s5_request) ATYP_IPV4 then
    dst_addr <- inet_ntoa (slice 4 8 s5_request) ;;
    dst_port <- unpack_H (slice 8 10 s5_request) ;;
    ret (Some (AddrIPv4 dst_addr, dst_port))
  (* DOMAIN NAME *)
  else if bytes_eqb (slice 3 4 s5_request) ATYP_DOMAINNAME then
    sz <- index s5_request 4 ;;
    let sz_domain_name := N.to_nat sz in
    let dst_addr := slice 5 (5 + sz_domain_name) s5_request in
    let port_to_unpack :=
      slice (5 + sz_domain_name) (5 + sz_domain_name + 2) s5_request in
    dst_port <- unpack_H port_to_unpack ;;
    ret (Some (AddrDomain dst_addr, dst_port))
  else ret None.

(** [wrapper] is a socket object, so the test [wrapper != 0] that guards
    each [wrapper.close()] of the source always holds. *)
Definition request_client (wrapper : sock) : M (option (dst_addr * N)) :=
  got <- try_except
           (s5_request <- recv wrapper BUFSIZE ;; ret (Some s5_request))
           (fun e => if is_ConnectionResetError e
                     then Some (close wrapper ;; error ;; ret None)
                     else None) ;;
  match got with
  | None => ret None
  | Some s5_request => parse_request s5_request
  end.

Definition is_zero (socket_dst : option sock) : bool :=
  match socket_dst with None => true | Some _ => false end.

Definition is_false {A} (dst : option A) : bool :=
  match dst with None => true | Some _ => false end.

(** The second half of [request], from [rep = b'\x07'] on, as a function
    of [dst] and [socket_dst]. *)
Definition reply_and_relay (fuel : nat) (wrapper : sock)
  (dst : option (dst_addr * N)) (socket_dst : option sock) : M unit :=
  let rep := [x07] in
  let bnd := [x00] ++ [x00] ++ [x00] ++ [x00] ++ [x00] ++ [x00] in
  rb <- (if is_false dst || is_zero socket_dst
         then ret ([x01], bnd)
         else
           name <- getsockname ;;
           port <- pack_H (snd name) ;;
           ret ([x00], inet_aton (fst name) ++ port)) ;;
  let rep := fst rb in
  let bnd := snd rb in
  let reply := VER ++ rep ++ [x00] ++ ATYP_IPV4 ++ bnd in
  sent <- try_except
            (sendall wrapper reply ;; ret true)
            (fun e => if is_socket_error e
                      then Some (close wrapper ;; ret false) else None) ;;
  if sent then
    (* start proxy *)
    (if bytes_eqb rep [x00]
     then match socket_dst with
          | Some sd => proxy_loop fuel wrapper sd
          | None => ret tt
          end
     else ret tt) ;;
    sleep 1 ;;
    close wrapper ;;
    match socket_dst with
    | Some sd => close sd
    | None => ret tt
    end
  else ret tt.

(** [dst] is [None] for [False]; [socket_dst] is [None] for [0].  The
    source sets [rep] and [bnd] before the connect and reads them after
    it. *)
Definition request (fuel : nat) (cfg : config) (wrapper : sock) : M unit :=
  dst <- request_client wrapper ;;
  let socket_dst : option sock := None in
  socket_dst <- match dst with
                | Some (a, p) => connect_to_dst cfg a p
                | None => ret socket_dst
                end ;;
  reply_and_relay fuel wrapper dst socket_dst.

(* ================================================================== *)
(** ** subnegotiation_client, subnegotiation and connection *)

(** [for method in methods: if method == ord(M_NOAUTH): return M_NOAUTH]
    followed by [return M_NOTAVAILABLE]. *)
Fixpoint scan_methods (methods : bytes) : bytes :=
  match methods with
  | [] => M_NOTAVAILABLE
  | method :: rest =>
      if N.eqb (Byte.to_N method) (ord M_NOAUTH) then M_NOAUTH
      else scan_methods rest
  end.

(** The part of [subnegotiation_client] that follows the read of
    [identification_packet]. *)
Definition select_method (identification_packet : bytes) : M bytes :=
  (* VER field *)
  if negb (bytes_eqb VER (slice 0 1 identification_packet))
  then ret M_NOTAVAILABLE
  else
    (* METHODS fields *)
    nmethods <- index identification_packet 1 ;;
    let methods := slice_from 2 identification_packet in
    if negb (N.eqb (N.of_nat (List.length methods)) nmethods)
    then ret M_NOTAVAILABLE
    else ret (scan_methods methods).

Definition subnegotiation_client (wrapper : sock) : M bytes :=
  got <- try_except
           (p <- recv wrapper BUFSIZE ;; ret (Some p))
           (fun e => if is_socket_error e
                     then Some (error ;; ret None) else None) ;;
  match got with
  | None => ret M_NOTAVAILABLE
  | Some identification_packet => select_method identification_packet
  end.

Definition subnegotiation (wrapper : sock) : M bool :=
  method <- subnegotiation_client wrapper ;;
  if negb (bytes_eqb method M_NOAUTH) then ret false
  else
    let reply := VER ++ method in
    try_except
      (sendall wrapper reply ;; ret true)
      (fun e => if is_socket_error e then Some (error ;; ret false) else None).

(** The function run by the thread of one accepted connection. *)
Definition connection (fuel : nat) (cfg : config) (wrapper : sock) : M unit :=
  ok <- subnegotiation wrapper ;;
  if ok then request fuel cfg wrapper else ret tt.

(* ================================================================== *)
(** ** main: the accept loop *)

(** The threads that [threading.activeCount()] counts: the threads
    running [connection] ([units]) and the threads that are not
    connections ([others]: the main thread, which runs the accept loop
    itself, and the thread of the PAC server while it is alive). *)
Record threads := { units : nat; others : nat }.

Definition activeCount (t : threads) : nat := others t + units t.

(** How [new_socket.accept()] / [wrapper.setblocking(1)] ended. *)
Inductive accept_result :=
| Accepted
| AcceptTimeout
| AcceptSocketError
| AcceptTypeError.

Inductive main_action :=
| LeaveLoop        (* the flag is set: new_socket.close()          *)
| Pause            (* sleep(3); continue                           *)
| Retry            (* continue after a failed accept               *)
| Dispatch         (* Thread(target=connection, ...).start()       *)
| SysExit.         (* sys.exit(0)                                  *)

(** One iteration of [while not EXIT.get_status()] in [main]. *)
Definition main_iteration (exit_status : bool) (t : threads)
  (a : accept_result) : main_action * threads :=
  if exit_status then (LeaveLoop, t)
  else if MAX_THREADS <? activeCount t then (Pause, t)
  else match a with
       | AcceptTimeout => (Retry, t)
       | AcceptSocketError => (Retry, t)
       | AcceptTypeError => (SysExit, t)
       | Accepted =>
           (Dispatch, {| units := S (units t); others := others t |})
       end.

(** What can happen to the thread table while the server runs: the accept
    loop makes an iteration, a connection thread ends, or the PAC server
    thread ends.  Only the accept loop starts threads. *)
Inductive threads_step : threads -> threads -> Prop :=
| step_main (exit_status : bool) (t : threads) (a : accept_result) :
    threads_step t (snd (main_iteration exit_status t a))
| step_unit_ends (n o : nat) :
    threads_step {| units := S n; others := o |} {| units := n; others := o |}
| step_other_ends (n o : nat) :
    threads_step {| units := n; others := S (S o) |}
                 {| units := n; others := S o |}.

Inductive reachable : threads -> Prop :=
| reach_start (o : nat) :
    (* no connection yet; the main thread is alive *)
    reachable {| units := 0; others := S o |}
| reach_step (t t' : threads) :
    reachable t -> threads_step t t' -> reachable t'.


(* ================================================================== *)
(** ** main: the listening socket and the accept loop as a whole *)

(** What the server process sees from outside: whether the PAC server
    and its thread can be set up, answers to the calls that set up the
    listening socket, the outcomes of the successive [accept] calls (a
    call that the environment does not answer times out, as the listening
    socket has a timeout), whether each connection thread can be started
    (a call that the environment does not answer starts its thread), the
    arrival of signals, and how many connection threads ended before each
    look at [activeCount()]. *)
Record server := {
  srv_exit : bool;                       (* EXIT.exit                   *)
  srv_signals : list bool;
  srv_threads : threads;
  srv_finished : list nat;
  srv_accepts : list accept_result;
  srv_starts : list bool;                (* does Thread.start() succeed? *)
  on_wpad_server : option os_error;      (* HTTPServer((hhost, hport), ...) *)
  wpad_thread_starts : bool;             (* thread.start() of the PAC server *)
  on_listen_socket : option os_error;    (* socket() / settimeout       *)
  on_reuseaddr : option os_error;        (* setsockopt(SO_REUSEADDR)    *)
  on_listen_nodelay : option os_error;   (* setsockopt(TCP_NODELAY)     *)
  on_bind : option os_error;             (* bind((LOCAL_ADDR, ...))     *)
  on_listen : option os_error            (* listen(10)                  *)
}.

Inductive server_event :=
| SvWpadServer (r : option os_error)     (* HTTPServer((hhost, hport), ...) *)
| SvWpadThreadStart (started : bool)     (* Thread(target=run_wpad_server).start() *)
| SvSocket (r : option os_error)
| SvReuseAddr (r : option os_error)
| SvNoDelay (r : option os_error)
| SvBind (r : option os_error)
| SvListen (r : option os_error)
| SvClose                                (* close() of the listening socket *)
| SvSleep (seconds : nat)
| SvAccept (a : accept_result)
| SvThreadStart (started : bool).        (* Thread(target=connection).start() *)

Definition with_threads (s : server) (fl : bool) (sg : list bool)
  (t : threads) (fin : list nat) (acc : list accept_result) : server :=
  {| srv_exit := fl; srv_signals := sg; srv_threads := t;
     srv_finished := fin; srv_accepts := acc; srv_starts := srv_starts s;
     on_wpad_server := on_wpad_server s;
     wpad_thread_starts := wpad_thread_starts s;
     on_listen_socket := on_listen_socket s; on_reuseaddr := on_reuseaddr s;
     on_listen_nodelay := on_listen_nodelay s; on_bind := on_bind s;
     on_listen := on_listen s |}.

(** The answer to a [Thread.start()] call is used up. *)
Definition with_starts (s : server) (q : list bool) : server :=
  {| srv_exit := srv_exit s; srv_signals := srv_signals s;
     srv_threads := srv_threads s; srv_finished := srv_finished s;
     srv_accepts := srv_accepts s; srv_starts := q;
     on_wpad_server := on_wpad_server s;
     wpad_thread_starts := wpad_thread_starts s;
     on_listen_socket := on_listen_socket s; on_reuseaddr := on_reuseaddr s;
     on_listen_nodelay := on_listen_nodelay s; on_bind := on_bind s;
     on_listen := on_listen s |}.

(** [bind_port(sock)]: the three calls of the first [try] stop at the
    first that fails; each handler closes the socket and calls
    [sys.exit(0)]. *)
Definition bind_port (s : server) : outcome unit * list server_event :=
  match on_reuseaddr s with
  | Some e => (Raise SystemExit, [SvReuseAddr (Some e); SvClose])
  | None =>
      match on_listen_nodelay s with
      | Some e =>
          (Raise SystemExit, [SvReuseAddr None; SvNoDelay (Some e); SvClose])
      | None =>
          match on_bind s with
          | Some e =>
              (Raise SystemExit,
               [SvReuseAddr None; SvNoDelay None; SvBind (Some e); SvClose])
          | None =>
              match on_listen s with
              | Some e =>
                  (Raise SystemExit,
                   [SvReuseAddr None; SvNoDelay None; SvBind None;
                    SvListen (Some e); SvClose])
              | None =>
                  (Ret tt,
                   [SvReuseAddr None; SvNoDelay None; SvBind None;
                    SvListen None])
              end
          end
      end
  end.

(** The connection threads that ended since the last look are no longer
    counted. *)
Definition reap (n : nat) (t : threads) : threads :=
  {| units := units t - n; others := others t |}.

(** [while not EXIT.get_status(): ...] of [main], one unit of fuel per
    iteration; what one iteration does is decided by [main_iteration], and
    [accept] is called, and its answer used up, only when the iteration is
    not paused.  [recv_thread.start()] is outside every [try]: when it
    raises [RuntimeError] no thread is added and the exception leaves the
    loop. *)
Fixpoint accept_loop (fuel : nat) (s : server)
  : outcome unit * server * list server_event :=
  match fuel with
  | O => (Hang, s, [])
  | S fuel' =>
      let fl := match srv_signals s with
                | [] => srv_exit s
                | sg :: _ => orb (srv_exit s) sg
                end in
      let sgs := tl (srv_signals s) in
      if fl then
        (Ret tt,
         with_threads s fl sgs (srv_threads s) (srv_finished s)
           (srv_accepts s), [])
      else
        let t := reap (hd 0 (srv_finished s)) (srv_threads s) in
        let fin := tl (srv_finished s) in
        let a := hd AcceptTimeout (srv_accepts s) in
        let acc := tl (srv_accepts s) in
        match main_iteration fl t a with
        | (LeaveLoop, _) =>
            (Ret tt, with_threads s fl sgs t fin (srv_accepts s), [])
        | (Pause, _) =>
            let '(o, s', ev) :=
              accept_loop fuel'
                (with_threads s fl sgs t fin (srv_accepts s)) in
            (o, s', SvSleep 3 :: ev)
        | (Retry, _) =>
            let '(o, s', ev) :=
              accept_loop fuel' (with_threads s fl sgs t fin acc) in
            (o, s', SvAccept a :: ev)
        | (Dispatch, t') =>
            if hd true (srv_starts s) then
              let '(o, s', ev) :=
                accept_loop fuel'
                  (with_starts (with_threads s fl sgs t' fin acc)
                     (tl (srv_starts s))) in
              (o, s', SvAccept a :: SvThreadStart true :: ev)
            else
              (Raise RuntimeError,
               with_starts (with_threads s fl sgs t fin acc)
                 (tl (srv_starts s)),
               [SvAccept a; SvThreadStart false])
        | (SysExit, _) =>
            (Raise SystemExit, with_threads s fl sgs t fin acc, [SvAccept a])
        end
  end.

(** [main()] from [new_socket = create_socket()] on. *)
Definition main_socks (fuel : nat) (s : server)
  : outcome unit * server * list server_event :=
  match on_listen_socket s with
  | Some e => (Raise SystemExit, s, [SvSocket (Some e)])
  | None =>
      match bind_port s with
      | (Ret _, ev1) =>
          match accept_loop fuel s with
          | (Ret _, s', ev2) =>
              (Ret tt, s', SvSocket None :: ev1 ++ ev2 ++ [SvClose])
          | (o, s', ev2) => (o, s', SvSocket None :: ev1 ++ ev2)
          end
      | (o, ev1) => (o, s, SvSocket None :: ev1)
      end
  end.

(** The thread of the PAC server is one more thread that is not a
    connection. *)
Definition start_wpad_thread (s : server) : server :=
  with_threads s (srv_exit s) (srv_signals s)
    {| units := units (srv_threads s); others := S (others (srv_threads s)) |}
    (srv_finished s) (srv_accepts s).

(** [main()].  Of [create_wpad_server] the accept loop sees only how it
    ends: the download of the rule list sits in a [try] that catches every
    [Exception], but [HTTPServer((hhost, hport), HTTPHandler)] is outside
    it and its [OSError] (the port is taken) leaves [main].  The [start()]
    of the PAC server thread is outside every [try] as well. *)
Definition main (fuel : nat) (s : server)
  : outcome unit * server * list server_event :=
  match on_wpad_server s with
  | Some e => (Raise (OSError e), s, [SvWpadServer (Some e)])
  | None =>
      if wpad_thread_starts s then
        let '(o, s', ev) := main_socks fuel (start_wpad_thread s) in
        (o, s', SvWpadServer None :: SvWpadThreadStart true :: ev)
      else
        (Raise RuntimeError, s, [SvWpadServer None; SvWpadThreadStart false])
  end.

(** How many times the listening socket was closed, how many connections
    were accepted, how many times [start()] was called on a connection
    thread. *)
Definition listener_closes (ev : list server_event) : nat :=
  List.length (filter (fun e => match e with SvClose => true | _ => false end)
                 ev).

Definition accepted (ev : list server_event) : nat :=
  List.length
    (filter (fun e => match e with SvAccept Accepted => true | _ => false end)
       ev).

Definition threads_started (ev : list server_event) : nat :=
  List.length
    (filter (fun e => match e with SvThreadStart _ => true | _ => false end)
       ev).

(** A server with nothing configured to fail, no thread yet besides the
    main thread and the PAC server, and the given script. *)
Definition server_with (sg : list bool) (fin : list nat)
  (acc : list accept_result) : server :=
  {| srv_exit := false; srv_signals := sg;
     srv_threads := {| units := 0; others := 2 |};
     srv_finished := fin; srv_accepts := acc; srv_starts := [];
     on_wpad_server := None; wpad_thread_starts := true;
     on_listen_socket := None; on_reuseaddr := None;
     on_listen_nodelay := None; on_bind := None; on_listen := None |}.


(* ================================================================== *)
(** ** Reading a log *)

Definition is_close (s : sock) (e : event) : bool :=
  match e with EvClose s' => sock_eqb s s' | _ => false end.

Definition is_sendall (s : sock) (e : event) : bool :=
  match e with EvSendall s' _ _ => sock_eqb s s' | _ => false end.

Definition is_recv (s : sock) (e : event) : bool :=
  match e with EvRecv s' _ _ => sock_eqb s s' | _ => false end.

Definition sendall_failed (e : event) : bool :=
  match e with EvSendall _ _ (SendRaise _) => true | _ => false end.

(** How many times [close] was called on [s]. *)
Definition closes (s : sock) (t : list event) : nat :=
  List.length (filter (is_close s) t).

(** How many [sendall] calls were made on [s]. *)
Definition sendalls (s : sock) (t : list event) : nat :=
  List.length (filter (is_sendall s) t).

(** How many [recv] calls on [s] were answered. *)
Definition recvs (s : sock) (t : list event) : nat :=
  List.length (filter (is_recv s) t).

(** [connect_to_dst] handed a connected socket to its caller: the last of
    its calls, setting TCP_NODELAY, succeeded. *)
Definition dst_opened (t : list event) : bool :=
  existsb (fun e => match e with EvNoDelay None => true | _ => false end) t.

(** The shape of the log of a relay loop: a chunk read from one socket is
    at once handed to [send] on the other socket, byte for byte; a
    zero-length read, a failed read or a failed send ends the log. *)
Fixpoint relay_log (t : list event) : Prop :=
  match t with
  | [] => True
  | EvSelect (SelReady _) :: t' => relay_log t'
  | EvSelect (SelRaise _) :: t' => t' = []
  | EvRecv _ _ (RecvData []) :: t' => t' = []
  | EvRecv _ _ (RecvRaise _) :: t' => t' = []
  | EvRecv s _ (RecvData d) :: EvSend s' d' r :: t' =>
      s' = other s /\ d' = d /\
      match r with
      | SendOk _ => relay_log t'
      | SendRaise _ => t' = []
      end
  | _ => False
  end.

(** The bytes that were read from [s], in order. *)
Fixpoint bytes_read (s : sock) (t : list event) : bytes :=
  match t with
  | [] => []
  | EvRecv s' _ (RecvData d) :: t' =>
      (if sock_eqb s s' then d else []) ++ bytes_read s t'
  | _ :: t' => bytes_read s t'
  end.

(** The bytes that the [send] calls on [s] got through, in order: of each
    chunk, as many bytes as the call reported. *)
Fixpoint delivered (s : sock) (t : list event) : bytes :=
  match t with
  | [] => []
  | EvSend s' d (SendOk n) :: t' =>
      (if sock_eqb s s' then firstn n d else []) ++ delivered s t'
  | _ :: t' => delivered s t'
  end.

(** A zero-length read occurs in the log. *)
Definition zero_length_read (t : list event) : Prop :=
  exists s n, In (EvRecv s n (RecvData [])) t.
(** The events that each part of the program can log. *)
Definition handshake_event (e : event) : Prop :=
  match e with
  | EvRecv Client _ _ | EvSendall Client _ _ => True
  | _ => False
  end.

Definition connect_event (e : event) : Prop :=
  match e with
  | EvSocket _ | EvBindToDevice _ _ | EvSetExit _ | EvConnect _ _ _
  | EvNoDelay _ => True
  | _ => False
  end.

Definition relay_event (e : event) : Prop :=
  match e with
  | EvSelect _ | EvRecv _ _ _ | EvSend _ _ _ => True
  | _ => False
  end.

(** A computation that does not touch the outside: the same result in
    every state, no change of state, nothing logged. *)
Definition pure {A : Type} (m : M A) : Prop :=
  exists o, forall w, m w = (o, w, []).

(* ================================================================== *)
(** ** Sample environments *)

(** A peer that says nothing and takes every write. *)
Definition quiet : sock_env :=
  {| inbox := []; outbox := []; closed := false |}.

(** Every call on the outbound socket succeeds; it is bound to
    10.0.0.1:4000. *)
Definition net_ok : dst_env :=
  {| on_socket := None; on_bindtodevice := None; on_connect := None;
     on_nodelay := None; sockname := ((x0a, x00, x00, x01), 4000%N) |}.

(** The client delivers [chunks], one per [recv]. *)
Definition client_sends (chunks : list recv_result) : world :=
  {| exit := false; signals := [];
     client := {| inbox := chunks; outbox := []; closed := false |};
     dst := quiet; selects := []; outbound := net_ok |}.

(** Version 5, one method offered: no authentication. *)
Definition hello_noauth : bytes := [x05; x01; x00].

(** Version 5, one method offered: GSSAPI (0x01). *)
Definition hello_gssapi : bytes := [x05; x01; x01].

(** The reply of a failed request: status 0x01, address type IPv4,
    address 0.0.0.0, port 0. *)
Definition general_failure_reply : bytes :=
  [x05; x01; x00; x01; x00; x00; x00; x00; x00; x00].

(** A CONNECT request with command BIND (0x02) for 127.0.0.1:80. *)
Definition bind_request : bytes :=
  [x05; x02; x00; x01; x7f; x00; x00; x01; x00; x50].

(** A CONNECT request for 127.0.0.1:80. *)
Definition connect_request : bytes :=
  [x05; x01; x00; x01; x7f; x00; x00; x01; x00; x50].

(** The outbound connect is refused. *)
Definition net_refused : dst_env :=
  {| on_socket := None; on_bindtodevice := None;
     on_connect := Some OtherOSError;
     on_nodelay := None; sockname := ((x0a, x00, x00, x01), 4000%N) |}.

(** Binding to the device is not permitted. *)
Definition net_unprivileged : dst_env :=
  {| on_socket := None; on_bindtodevice := Some PermissionError;
     on_connect := None;
     on_nodelay := None; sockname := ((x0a, x00, x00, x01), 4000%N) |}.

Definition with_outbound (w : world) (o : dst_env) : world :=
  {| exit := exit w; signals := signals w; client := client w; dst := dst w;
     selects := selects w; outbound := o |}.

Definition eth0_config : config := {| OUTGOING_INTERFACE := "eth0" |}.

(** A whole session: handshake, CONNECT to 127.0.0.1:80, one chunk in
    each direction, then the destination closes. *)
Definition relay_session : world :=
  {| exit := false; signals := [];
     client := {| inbox := [RecvData hello_noauth; RecvData connect_request;
                            RecvData [x47]];
                  outbox := []; closed := false |};
     dst := {| inbox := [RecvData [x41]; RecvData []];
               outbox := []; closed := false |};
     selects := [SelReady [Client]; SelReady [Dst]; SelReady [Dst]];
     outbound := net_ok |}.

(** Handshake and CONNECT go through, but the client is gone when the
    reply is written. *)
Definition reply_lost : world :=
  {| exit := false; signals := [];
     client := {| inbox := [RecvData hello_noauth; RecvData connect_request];
                  outbox := [SendOk 2; SendRaise ConnectionResetError];
                  closed := false |};
     dst := quiet; selects := []; outbound := net_ok |}.

(** The client resets the connection instead of sending its request. *)
Definition reset_before_request : world :=
  client_sends [RecvData hello_noauth; RecvRaise ConnectionResetError].

(** A relay in which the client sends one chunk and the destination
    then closes. *)
Definition relay_world : world :=
  {| exit := false; signals := [];
     client := {| inbox := [RecvData [x47]]; outbox := []; closed := false |};
     dst := {| inbox := [RecvData []]; outbox := []; closed := false |};
     selects := [SelReady [Client]; SelReady [Dst]];
     outbound := net_ok |}.

(** A relay in which the client sends the three bytes [GET], the
    destination takes only the first of them, and then closes. *)
Definition short_write : world :=
  {| exit := false; signals := [];
     client := {| inbox := [RecvData [x47; x45; x54]]; outbox := [];
                  closed := false |};
     dst := {| inbox := [RecvData []]; outbox := [SendOk 1];
               closed := false |};
     selects := [SelReady [Client]; SelReady [Dst]];
     outbound := net_ok |}.

(** [MAX_THREADS] connections are alive and the PAC server thread is not:
    only the main thread is counted besides them. *)
Definition full_house : threads := {| units := MAX_THREADS; others := 1 |}.

(** The reply that [request] builds in the state [w]: the
    general-failure reply when it [failed], and otherwise status 0x00 with
    the address and port that [getsockname] gives. *)
Definition reply_of (failed : bool) (w : world) (reply : bytes) : Prop :=
  if failed then reply = general_failure_reply
  else exists hi lo,
         reply = [x05; x00; x00; x01]
                 ++ inet_aton (fst (sockname (outbound w))) ++ [hi; lo]
         /\ (Byte.to_N hi * 256 + Byte.to_N lo)%N
            = snd (sockname (outbound w)).

Definition tail_event (e : event) : Prop :=
  match e with
  | EvSendall Client _ _ | EvSleep _ | EvClose _ | EvSelect _
  | EvRecv _ _ _ | EvSend _ _ _ => True
  | _ => False
  end.

(** The events that end a relay loop: a zero-length read, a failed read,
    a failed send, a failed select. *)
Definition ends_relay (e : event) : Prop :=
  match e with
  | EvRecv _ _ (RecvData []) | EvRecv _ _ (RecvRaise _)
  | EvSend _ _ (SendRaise _) | EvSelect (SelRaise _) => True
  | _ => False
  end.

(** A computation that never clears the exit flag. *)
Definition keeps_exit {A : Type} (m : M A) : Prop :=
  forall w, exit w = true -> exit (world_of (m w)) = true.

(** A call of [socket.socket] in [create_socket]. *)
Definition is_socket_call (e : event) : bool :=
  match e with EvSocket _ => true | _ => false end.

(** A call of [socket_dst.connect] in [connect_to_dst]. *)
Definition is_connect_call (e : event) : bool :=
  match e with EvConnect _ _ _ => true | _ => false end.

(** How many events of a log satisfy [p]. *)
Definition count_events (p : event -> bool) (t : list event) : nat :=
  List.length (filter p t).

(** ** create_wpad_server: the rule list of the PAC file

    Only the pure part of [create_wpad_server] is modelled: the lines that
    turn the decoded download into the [rules] text.  Strings are byte
    strings here; splitting on the newline byte agrees with splitting a
    UTF-8 text on the newline character. *)

(** [str.split(sep)] for a one-character separator: the pieces between
    the separators, empty pieces included. *)
Fixpoint split (sep : Ascii.ascii) (s : string) : list string :=
  match s with
  | EmptyString => [EmptyString]
  | String c r =>
      if Ascii.eqb c sep then EmptyString :: split sep r
      else match split sep r with
           | [] => [String c EmptyString]
           | h :: t => String c h :: t
           end
  end.

(** Truth value of a [str]: the empty string is false. *)
Definition truthy (s : string) : bool :=
  match s with EmptyString => false | String _ _ => true end.

(** The one-character strings for a newline and for a double quote. *)
Definition newline : string := String (Ascii.ascii_of_nat 10) EmptyString.

Definition dquote : string := String (Ascii.ascii_of_nat 34) EmptyString.

(** The rule appended for the proxy host: [@@||] followed by [phost]. *)
Definition host_rule (phost : string) : string :=
  String.append "@@||" phost.

(** The [rules] text: the entries joined by quote, comma, newline, quote,
    between the opening [var rules = [], newline, quote and the closing
    quote, newline, [];], newline. *)
Definition render_rules (it : list string) : string :=
  String.concat EmptyString
    ["var rules = ["%string; newline; dquote;
     String.concat
       (String.concat EmptyString [dquote; ","%string; newline; dquote]) it;
     dquote; newline; "];"%string; newline].

(** Lines 354-360 of [create_wpad_server], from the decoded list [text]:
    [None] is the value [rules] keeps when [next(it)] raises
    [StopIteration], which the enclosing [except Exception] catches. *)
Definition wpad_rules (text phost : string) : option string :=
  let arr := split (Ascii.ascii_of_nat 10) text ++ [host_rule phost] in
  let it := filter truthy arr in
  match it with
  | [] => None
  | _ :: it' => Some (render_rules it')
  end.

(* ================================================================== *)
(** * Properties *)

(** ** Bytes and slices *)

Lemma bytes_eqb_eq (a b : bytes) : bytes_eqb a b = true <-> a = b.
Proof.
  unfold bytes_eqb.
  destruct (list_eq_dec Byte.byte_eq_dec a b); split; congruence.
Qed.

Lemma bytes_eqb_refl (a : bytes) : bytes_eqb a a = true.
Proof. now apply bytes_eqb_eq. Qed.

Lemma bytes_eqb_neq (a b : bytes) : bytes_eqb a b = false <-> a <> b.
Proof.
  rewrite <- bytes_eqb_eq. destruct (bytes_eqb a b); split; congruence.
Qed.

Lemma to_N_zero (b : byte) : Byte.to_N b = 0%N <-> b = x00.
Proof.
  split; intros H; [| now subst].
  assert (E : Byte.of_N (Byte.to_N b) = Byte.of_N 0) by now rewrite H.
  rewrite Byte.of_to_N in E. now inversion E.
Qed.

(** ** The method scan *)

Lemma scan_methods_noauth (methods : bytes) :
  In x00 methods -> scan_methods methods = M_NOAUTH.
Proof.
  induction methods as [|m rest IH]; simpl; [contradiction|].
  intros [->|H]; [reflexivity|].
  destruct (N.eqb _ _); auto.
Qed.

Lemma scan_methods_notavailable (methods : bytes) :
  ~ In x00 methods -> scan_methods methods = M_NOTAVAILABLE.
Proof.
  induction methods as [|m rest IH]; simpl; [reflexivity|].
  intros H. destruct (N.eqb_spec (Byte.to_N m) 0) as [E|E].
  - apply to_N_zero in E. subst. exfalso. auto.
  - apply IH. auto.
Qed.



(** ** Running the monad *)

Section Run.
Context {A B : Type}.
Variables (m : M A) (f : A -> M B) (h : exn -> option (M A)).
Variables (w w1 : world) (t1 : list event).

Lemma bind_ret (a : A) :
  m w = (Ret a, w1, t1) ->
  bind m f w = (let '(o, w2, t2) := f a w1 in (o, w2, t1 ++ t2)).
Proof. intros H. unfold bind. now rewrite H. Qed.

Lemma bind_raise (e : exn) :
  m w = (Raise e, w1, t1) -> bind m f w = (Raise e, w1, t1).
Proof. intros H. unfold bind. now rewrite H. Qed.

Lemma bind_hang :
  m w = (Hang, w1, t1) -> bind m f w = (Hang, w1, t1).
Proof. intros H. unfold bind. now rewrite H. Qed.

Lemma try_ret (a : A) :
  m w = (Ret a, w1, t1) -> try_except m h w = (Ret a, w1, t1).
Proof. intros H. unfold try_except. now rewrite H. Qed.

Lemma try_hang :
  m w = (Hang, w1, t1) -> try_except m h w = (Hang, w1, t1).
Proof. intros H. unfold try_except. now rewrite H. Qed.

Lemma try_uncaught (e : exn) :
  m w = (Raise e, w1, t1) -> h e = None ->
  try_except m h w = (Raise e, w1, t1).
Proof. intros H E. unfold try_except. now rewrite H, E. Qed.

Lemma try_caught (e : exn) (k : M A) :
  m w = (Raise e, w1, t1) -> h e = Some k ->
  try_except m h w = (let '(o, w2, t2) := k w1 in (o, w2, t1 ++ t2)).
Proof. intros H E. unfold try_except. now rewrite H, E. Qed.
End Run.
Arguments bind_ret {A B} [m] f [w w1 t1 a] _.
Arguments bind_raise {A B} [m] f [w w1 t1 e] _.
Arguments bind_hang {A B} [m] f [w w1 t1] _.
Arguments try_ret {A} [m] h [w w1 t1 a] _.
Arguments try_hang {A} [m] h [w w1 t1] _.
Arguments try_uncaught {A} [m] h [w w1 t1 e] _ _.
Arguments try_caught {A} [m] h [w w1 t1 e k] _ _.

(** ** Running the primitives *)

Lemma recv_ret_log (s : sock) (n : nat) (w w1 : world) (d : bytes)
  (t1 : list event) :
  recv s n w = (Ret d, w1, t1) ->
  t1 = [EvRecv s n (RecvData d)] /\ List.length d <= n.
Proof.
  unfold recv. destruct (closed (get_sock w s)); [discriminate|].
  destruct (inbox (get_sock w s)) as [|[d0|err] q]; try discriminate.
  intros H. inversion H; subst. split; [reflexivity|].
  apply firstn_le_length.
Qed.

Lemma sendall_ret_log (s : sock) (data : bytes) (w w2 : world)
  (t2 : list event) :
  sendall s data w = (Ret tt, w2, t2) ->
  exists k, t2 = [EvSendall s data (SendOk k)].
Proof.
  unfold sendall, bind, write, ret.
  destruct (closed (get_sock w s)); [discriminate|].
  destruct (outbox (get_sock w s)) as [|[k|err] q]; try discriminate;
    intros H; inversion H; eauto.
Qed.

(** ** The handshake *)

Lemma select_method_noauth (n : byte) (methods : bytes) (w : world) :
  N.of_nat (List.length methods) = Byte.to_N n ->
  In x00 methods ->
  select_method (x05 :: n :: methods) w = (Ret M_NOAUTH, w, []).
Proof.
  intros Hn Hin. unfold select_method, slice, slice_from, index, bind, ret.
  cbn [skipn firstn Nat.sub nth_error]. unfold VER.
  rewrite bytes_eqb_refl, Hn, N.eqb_refl. cbn [negb app].
  now rewrite scan_methods_noauth.
Qed.

(** Without 0x00 among the bytes from offset 2 on, the outcome is never a
    success: it is the value 0xFF, or [IndexError] for the one-byte packet
    made of the version alone. *)
Lemma select_method_no_noauth (p : bytes) (w : world) :
  ~ In x00 (slice_from 2 p) ->
  select_method p w =
    (if bytes_eqb p [x05] then Raise IndexError else Ret M_NOTAVAILABLE,
     w, []).
Proof.
  intros Hin. unfold select_method, slice, index, bind, ret.
  destruct p as [|v [|n methods]]; cbn [skipn firstn Nat.sub nth_error].
  - reflexivity.
  - destruct (bytes_eqb VER [v]) eqn:E.
    + apply bytes_eqb_eq in E. inversion E; subst. reflexivity.
    + cbn [negb]. destruct (bytes_eqb [v] [x05]) eqn:E'; [|reflexivity].
      apply bytes_eqb_eq in E'. inversion E'; subst.
      unfold VER in E. now rewrite bytes_eqb_refl in E.
  - assert (E : bytes_eqb (v :: n :: methods) [x05] = false).
    { apply bytes_eqb_neq. discriminate. }
    rewrite E.
    destruct (negb (bytes_eqb VER [v])); [reflexivity|].
    cbn [app]. destruct (negb _); [reflexivity|].
    unfold slice_from in *. cbn [skipn] in *.
    now rewrite scan_methods_notavailable.
Qed.

Lemma subnegotiation_client_read (w w1 : world) (p : bytes)
  (t1 : list event) :
  recv Client BUFSIZE w = (Ret p, w1, t1) ->
  subnegotiation_client Client w =
    (let '(o, w2, t2) := select_method p w1 in (o, w2, t1 ++ t2)).
Proof.
  intros H. unfold subnegotiation_client.
  set (h := fun e : exn => _).
  assert (E : try_except (p <- recv Client BUFSIZE ;; ret (Some p)) h w
              = (Ret (Some p), w1, t1)).
  { apply try_ret. rewrite (bind_ret _ H). unfold ret.
    now rewrite app_nil_r. }
  now rewrite (bind_ret _ E).
Qed.

(** C5.  A packet with version 0x05, a method count equal to the number of
    method bytes that follow, and 0x00 among these methods: when the write
    of the reply is accepted, [subnegotiation] returns [True] and its only
    [sendall] is the two bytes 0x05 0x00. *)
Theorem handshake_noauth_succeeds (w w1 w2 : world) (t1 t2 : list event)
  (n : byte) (methods : bytes) :
  recv Client BUFSIZE w = (Ret (x05 :: n :: methods), w1, t1) ->
  N.of_nat (List.length methods) = Byte.to_N n ->
  In x00 methods ->
  sendall Client [x05; x00] w1 = (Ret tt, w2, t2) ->
  subnegotiation Client w = (Ret true, w2, t1 ++ t2)
  /\ sendalls Client (t1 ++ t2) = 1
  /\ exists k, t2 = [EvSendall Client [x05; x00] (SendOk k)].
Proof.
  intros Hr Hn Hin Hs.
  assert (Hsub : subnegotiation_client Client w = (Ret M_NOAUTH, w1, t1)).
  { rewrite (subnegotiation_client_read _ Hr), select_method_noauth by auto.
    now rewrite app_nil_r. }
  destruct (recv_ret_log _ _ _ Hr) as [-> _].
  destruct (sendall_ret_log _ _ _ Hs) as [k ->].
  split; [| split; [reflexivity | eauto]].
  unfold subnegotiation. rewrite (bind_ret _ Hsub).
  rewrite bytes_eqb_refl. cbn [negb].
  erewrite try_ret; [reflexivity|].
  unfold VER, M_NOAUTH. cbn [app]. now rewrite (bind_ret _ Hs).
Qed.

Lemma handshake_noauth_succeeds_witness :
  In x00 [x00] /\
  subnegotiation Client (client_sends [RecvData hello_noauth])
  = (Ret true, client_sends [],
     [EvRecv Client BUFSIZE (RecvData hello_noauth);
      EvSendall Client [x05; x00] (SendOk 2)]).
Proof.
  split; [now left|].
  apply (@handshake_noauth_succeeds
           (client_sends [RecvData hello_noauth]) (client_sends [])
           (client_sends [])
           [EvRecv Client BUFSIZE (RecvData hello_noauth)]
           [EvSendall Client [x05; x00] (SendOk 2)] x01 [x00]
           eq_refl eq_refl (or_introl eq_refl) eq_refl).
Defined.

(** A packet that offers no method 0x00 never gets a reply: the unit ends
    right after the read, with [False] from the handshake or with the
    [IndexError] of the one-byte packet. *)
Lemma connection_no_noauth (fuel : nat) (cfg : config) (w w1 : world)
  (t1 : list event) (p : bytes) :
  recv Client BUFSIZE w = (Ret p, w1, t1) ->
  ~ In x00 (slice_from 2 p) ->
  connection fuel cfg Client w =
    (if bytes_eqb p [x05] then Raise IndexError else Ret tt, w1, t1).
Proof.
  intros Hr Hin.
  assert (Hsub : subnegotiation_client Client w =
            (if bytes_eqb p [x05] then Raise IndexError
             else Ret M_NOTAVAILABLE, w1, t1)).
  { rewrite (subnegotiation_client_read _ Hr), select_method_no_noauth by auto.
    now rewrite app_nil_r. }
  unfold connection, subnegotiation. revert Hsub.
  destruct (bytes_eqb p [x05]); intros Hsub.
  - now rewrite (bind_raise _ (bind_raise _ Hsub)).
  - erewrite bind_ret.
    2:{ rewrite (bind_ret _ Hsub). reflexivity. }
    cbn. now rewrite !app_nil_r.
Qed.

(** C1 (as the code has it).  When the bytes from offset 2 of the packet
    do not contain 0x00, the value 0xFF is selected but never written: the
    negotiator returns 0xFF and the unit returns right after its single
    read, in the state that the read left, so no reply is sent, [close] is
    not called and the request phase is not entered.  The one exception is
    the packet made of the single byte 0x05: for it, and for no other
    packet, the negotiator and the unit end with [IndexError] instead. *)
Theorem handshake_without_noauth (fuel : nat) (cfg : config) (w w1 : world)
  (t1 : list event) (p : bytes) :
  recv Client BUFSIZE w = (Ret p, w1, t1) ->
  ~ In x00 (slice_from 2 p) ->
  t1 = [EvRecv Client BUFSIZE (RecvData p)]
  /\ subnegotiation_client Client w =
       (if bytes_eqb p [x05] then Raise IndexError else Ret M_NOTAVAILABLE,
        w1, t1)
  /\ connection fuel cfg Client w =
       (if bytes_eqb p [x05] then Raise IndexError else Ret tt, w1, t1)
  /\ (bytes_eqb p [x05] = true <-> p = [x05]).
Proof.
  intros Hr Hin.
  destruct (recv_ret_log _ _ _ Hr) as [Ht _].
  split; [exact Ht|]. split; [|split].
  - rewrite (subnegotiation_client_read _ Hr), select_method_no_noauth by auto.
    now rewrite app_nil_r.
  - exact (connection_no_noauth fuel cfg _ Hr Hin).
  - apply bytes_eqb_eq.
Qed.

Lemma handshake_without_noauth_witness :
  ~ In x00 (slice_from 2 hello_gssapi) /\
  connection 1 shipped_config Client (client_sends [RecvData hello_gssapi])
  = (Ret tt, client_sends [], [EvRecv Client BUFSIZE (RecvData hello_gssapi)]).
Proof.
  assert (H : ~ In x00 (slice_from 2 hello_gssapi)).
  { cbn. intros [E|[]]. discriminate E. }
  split; [exact H|].
  exact (proj1 (proj2 (proj2
           (@handshake_without_noauth 1 shipped_config
              (client_sends [RecvData hello_gssapi]) (client_sends [])
              _ hello_gssapi eq_refl H)))).
Defined.

(** C1 fails as stated: for a packet offering only GSSAPI the unit writes
    nothing at all, in particular not the reply 0x05 0xFF, and does not
    close the client socket. *)
Lemma no_reply_without_noauth :
  let t := trace_of (connection 1 shipped_config Client
                       (client_sends [RecvData hello_gssapi])) in
  ~ In x00 (slice_from 2 hello_gssapi)
  /\ (forall r, ~ In (EvSendall Client [x05; xff] r) t)
  /\ sendalls Client t = 0
  /\ closes Client t = 0.
Proof.
  cbn. repeat split; try reflexivity.
  - intros [E|[]]. discriminate E.
  - intros r [E|[]]. discriminate E.
Qed.

(** ** Results and logs of composed runs *)

Section Compose.
Context {A B : Type}.
Variables (m : M A) (f : A -> M B) (h : exn -> option (M A)) (w : world).

Lemma bind_trace :
  trace_of (bind m f w) =
  trace_of (m w) ++
  match result_of (m w) with
  | Ret a => trace_of (f a (world_of (m w)))
  | _ => []
  end.
Proof.
  unfold bind, trace_of, result_of, world_of.
  destruct (m w) as [[[a|e|] w1] t1]; cbn; [|now rewrite app_nil_r ..].
  now destruct (f a w1) as [[o w2] t2].
Qed.

Lemma bind_result :
  result_of (bind m f w) =
  match result_of (m w) with
  | Ret a => result_of (f a (world_of (m w)))
  | Raise e => Raise e
  | Hang => Hang
  end.
Proof.
  unfold bind, trace_of, result_of, world_of.
  destruct (m w) as [[[a|e|] w1] t1]; cbn; try reflexivity.
  now destruct (f a w1) as [[o w2] t2].
Qed.

Lemma try_trace :
  trace_of (try_except m h w) =
  trace_of (m w) ++
  match result_of (m w) with
  | Raise e => match h e with
               | Some k => trace_of (k (world_of (m w)))
               | None => []
               end
  | _ => []
  end.
Proof.
  unfold try_except, trace_of, result_of, world_of.
  destruct (m w) as [[[a|e|] w1] t1]; cbn; try now rewrite app_nil_r.
  destruct (h e) as [k|]; cbn; [|now rewrite app_nil_r].
  now destruct (k w1) as [[o w2] t2].
Qed.

Lemma try_result :
  result_of (try_except m h w) =
  match result_of (m w) with
  | Raise e => match h e with
               | Some k => result_of (k (world_of (m w)))
               | None => Raise e
               end
  | r => r
  end.
Proof.
  unfold try_except, trace_of, result_of, world_of.
  destruct (m w) as [[[a|e|] w1] t1]; cbn; try reflexivity.
  destruct (h e) as [k|]; cbn; [|reflexivity].
  now destruct (k w1) as [[o w2] t2].
Qed.
End Compose.

Lemma bind_ret_l {A B : Type} (a : A) (f : A -> M B) (w : world) :
  bind (ret a) f w = f a w.
Proof. unfold bind, ret. now destruct (f a w) as [[o w2] t2]. Qed.

Lemma bind_world {A B : Type} (m : M A) (f : A -> M B) (w : world) :
  world_of (bind m f w) =
  match result_of (m w) with
  | Ret a => world_of (f a (world_of (m w)))
  | _ => world_of (m w)
  end.
Proof.
  unfold bind, world_of, result_of.
  destruct (m w) as [[[a|e|] w1] t1]; cbn; try reflexivity.
  now destruct (f a w1) as [[o w2] t2].
Qed.

Lemma try_world {A : Type} (m : M A) (h : exn -> option (M A)) (w : world) :
  world_of (try_except m h w) =
  match result_of (m w) with
  | Raise e => match h e with
               | Some k => world_of (k (world_of (m w)))
               | None => world_of (m w)
               end
  | _ => world_of (m w)
  end.
Proof.
  unfold try_except, world_of, result_of.
  destruct (m w) as [[[a|e|] w1] t1]; cbn; try reflexivity.
  destruct (h e) as [k|]; cbn; [|reflexivity].
  now destruct (k w1) as [[o w2] t2].
Qed.

(** ** Counting in logs *)

Lemma closes_app (s : sock) (t1 t2 : list event) :
  closes s (t1 ++ t2) = closes s t1 + closes s t2.
Proof. unfold closes. now rewrite filter_app, length_app. Qed.

Lemma dst_opened_app (t1 t2 : list event) :
  dst_opened (t1 ++ t2) = dst_opened t1 || dst_opened t2.
Proof. apply existsb_app. Qed.

(** ** Computations that do not touch the outside *)

Lemma pure_ret {A : Type} (a : A) : pure (ret a).
Proof. now exists (Ret a). Qed.

Lemma pure_raise {A : Type} (e : exn) : pure (@raise A e).
Proof. now exists (Raise e). Qed.

Lemma pure_bind {A B : Type} (m : M A) (f : A -> M B) :
  pure m -> (forall a, pure (f a)) -> pure (bind m f).
Proof.
  intros [[a|e|] Hm] Hf.
  - destruct (Hf a) as [o Ho]. exists o. intros w.
    unfold bind. now rewrite Hm, Ho.
  - exists (Raise e). intros w. unfold bind. now rewrite Hm.
  - exists Hang. intros w. unfold bind. now rewrite Hm.
Qed.

Lemma pure_index (s : bytes) (i : nat) : pure (index s i).
Proof.
  unfold index. destruct (nth_error s i); [apply pure_ret | apply pure_raise].
Qed.

Lemma pure_unpack_H (b : bytes) : pure (unpack_H b).
Proof.
  unfold unpack_H. destruct b as [|hi [|lo [|]]];
    first [apply pure_ret | apply pure_raise].
Qed.

Lemma pure_inet_ntoa (b : bytes) : pure (inet_ntoa b).
Proof.
  unfold inet_ntoa. destruct b as [|a1 [|a2 [|a3 [|a4 [|]]]]];
    first [apply pure_ret | apply pure_raise].
Qed.

Lemma pure_pack_H (n : N) : pure (pack_H n).
Proof.
  unfold pack_H.
  destruct (Byte.of_N (n / 256)), (Byte.of_N (n mod 256));
    first [apply pure_ret | apply pure_raise].
Qed.

Create HintDb pure.
#[local] Hint Resolve pure_ret pure_raise pure_index pure_unpack_H
  pure_inet_ntoa pure_pack_H : pure.

Lemma pure_parse_request (s5_request : bytes) :
  pure (parse_request s5_request).
Proof.
  unfold parse_request.
  repeat match goal with
         | |- pure (if ?c then _ else _) => destruct c
         | |- pure (bind _ _) => apply pure_bind; [| intros ?]
         | |- _ => solve [auto with pure]
         end.
Qed.

Lemma pure_select_method (p : bytes) : pure (select_method p).
Proof.
  unfold select_method.
  repeat match goal with
         | |- pure (if ?c then _ else _) => destruct c
         | |- pure (bind _ _) => apply pure_bind; [| intros ?]
         | |- _ => solve [auto with pure]
         end.
Qed.

Lemma pure_run {A : Type} (m : M A) (w : world) :
  pure m -> m w = (result_of (m w), w, []).
Proof. intros [o H]. now rewrite H. Qed.

Lemma pure_result {A : Type} (m : M A) (w w' : world) :
  pure m -> result_of (m w) = result_of (m w').
Proof. intros [o H]. now rewrite !H. Qed.

(** ** The request phase *)

(** How [request_client] can go, by the answer to its read. *)
Lemma request_client_read (w w1 : world) (frame : bytes)
  (t1 : list event) :
  recv Client BUFSIZE w = (Ret frame, w1, t1) ->
  request_client Client w = (result_of (parse_request frame w1), w1, t1).
Proof.
  intros H. unfold request_client.
  set (h := fun e : exn => _).
  assert (E : try_except (s <- recv Client BUFSIZE ;; ret (Some s)) h w
              = (Ret (Some frame), w1, t1)).
  { apply try_ret. rewrite (bind_ret _ H). unfold ret.
    now rewrite app_nil_r. }
  rewrite (bind_ret _ E).
  rewrite (pure_run w1 (pure_parse_request frame)). cbn.
  now rewrite app_nil_r.
Qed.

Lemma recv_cases (s : sock) (n : nat) (w : world) :
  (exists d w1, recv s n w = (Ret d, w1, [EvRecv s n (RecvData d)]))
  \/ (exists e w1,
        recv s n w = (Raise (OSError e), w1, [EvRecv s n (RecvRaise e)]))
  \/ recv s n w = (Hang, w, []).
Proof.
  unfold recv. destruct (closed (get_sock w s)); [right; left; eauto|].
  destruct (inbox (get_sock w s)) as [|[d|e] q]; eauto 6.
Qed.

Lemma request_client_cases (w : world) :
  request_client Client w =
  match recv Client BUFSIZE w with
  | (Ret frame, w1, t1) => (result_of (parse_request frame w1), w1, t1)
  | (Raise e, w1, t1) =>
      if is_ConnectionResetError e
      then (Ret None, world_of (close Client w1), t1 ++ [EvClose Client])
      else (Raise e, w1, t1)
  | (Hang, w1, t1) => (Hang, w1, t1)
  end.
Proof.
  destruct (recv Client BUFSIZE w) as [[[frame|e|] w1] t1] eqn:E.
  - apply (request_client_read _ E).
  - unfold request_client. set (h := fun e : exn => _).
    pose proof (bind_raise (fun s => ret (Some s)) E) as E1.
    destruct (is_ConnectionResetError e) eqn:Ec.
    + erewrite bind_ret.
      2:{ erewrite (try_caught h E1) by (subst h; cbn; now rewrite Ec).
          reflexivity. }
      cbn. now rewrite app_nil_r.
    + apply bind_raise. apply try_uncaught; [exact E1|].
      subst h. cbn. now rewrite Ec.
  - unfold request_client. apply bind_hang, try_hang.
    now apply bind_hang.
Qed.

Lemma request_client_log (w : world) :
  Forall (fun e => is_recv Client e = true \/ is_close Client e = true)
    (trace_of (request_client Client w)).
Proof.
  rewrite request_client_cases.
  destruct (recv_cases Client BUFSIZE w)
    as [(d & w1 & E)|[(e & w1 & E)|E]]; rewrite E;
    [| destruct (is_ConnectionResetError (OSError e)) |];
    cbn; repeat (apply Forall_cons || apply Forall_nil); cbn; auto.
Qed.

Lemma sendall_cases (s : sock) (data : bytes) (w : world) :
  (exists k w1, sendall s data w = (Ret tt, w1, [EvSendall s data (SendOk k)]))
  \/ (exists e w1,
        sendall s data w =
          (Raise (OSError e), w1, [EvSendall s data (SendRaise e)])).
Proof.
  unfold sendall, bind, write, ret.
  destruct (closed (get_sock w s)); [right; eauto|].
  destruct (outbox (get_sock w s)) as [|[k|e] q]; cbn; eauto.
Qed.

(** Whenever [request] found no destination or got no outbound socket,
    the only thing it writes is the general-failure reply. *)
Lemma failure_reply_log (fuel : nat) (dst : option (dst_addr * N))
  (socket_dst : option sock) (w : world) (s : sock) (data : bytes)
  (r : send_result) :
  is_false dst || is_zero socket_dst = true ->
  In (EvSendall s data r)
     (trace_of (reply_and_relay fuel Client dst socket_dst w)) ->
  s = Client /\ data = general_failure_reply.
Proof.
  intros Hf. unfold reply_and_relay. rewrite Hf, bind_ret_l.
  cbn [fst snd VER ATYP_IPV4 app].
  rewrite bind_trace, try_trace, try_result.
  destruct (sendall_cases Client general_failure_reply w)
    as [(k & w1 & E)|(e & w1 & E)].
  - fold general_failure_reply.
    rewrite (bind_ret (fun _ => ret true) E). cbn.
    destruct socket_dst; cbn; intuition congruence.
  - fold general_failure_reply.
    rewrite (bind_raise (fun _ => ret true) E). cbn.
    intuition congruence.
Qed.

(** ** The outbound connect *)

(** [connect_to_dst] talks to the outbound socket only; it hands out
    [Dst], and exactly when setting TCP_NODELAY succeeded. *)
Lemma connect_to_dst_log (cfg : config) (a : dst_addr) (p : N) (w : world) :
  let r := connect_to_dst cfg a p w in
  Forall connect_event (trace_of r)
  /\ (forall sd, result_of r = Ret (Some sd) ->
        sd = Dst /\ dst_opened (trace_of r) = true)
  /\ (result_of r = Ret None -> dst_opened (trace_of r) = false).
Proof.
  unfold connect_to_dst, create_socket, setsockopt_bindtodevice, connect,
    setsockopt_nodelay, set_status, error, bind, try_except, ret.
  destruct (on_socket (outbound w)); cbn.
  { split; [|split]; try discriminate.
    repeat (apply Forall_cons; [exact I|]). apply Forall_nil. }
  destruct (String.eqb (OUTGOING_INTERFACE cfg) EmptyString); cbn;
    [| destruct (on_bindtodevice (outbound w)) as [[]|]; cbn ];
    destruct (has_nul a); cbn;
    try destruct (on_connect (outbound w)); cbn;
    try destruct (on_nodelay (outbound w)); cbn;
    (split; [|split];
     [ repeat (apply Forall_cons; [exact I|]); apply Forall_nil
     | intros sd H; inversion H; auto
     | intros H; inversion H; auto ]).
Qed.

(** C2 (as the code has it).  In both failure cases, a request that the
    parser turned down ([request_client] gave [False]) and a parsed
    request whose outbound connect failed ([connect_to_dst] gave [0]), any
    reply that [request] writes is the general-failure reply: status 0x01,
    bound address 0.0.0.0, bound port 0.  The status 0x07 that [rep] starts
    with is overwritten before the reply is built. *)
Theorem failure_reply_is_general_failure (fuel : nat) (cfg : config)
  (w : world) (s : sock) (reply : bytes) (r : send_result) :
  let rq := request_client Client w in
  result_of rq = Ret None
  \/ (exists a p, result_of rq = Ret (Some (a, p))
        /\ result_of (connect_to_dst cfg a p (world_of rq)) = Ret None) ->
  In (EvSendall s reply r) (trace_of (request fuel cfg Client w)) ->
  s = Client /\ reply = general_failure_reply.
Proof.
  intros rq Hfail Hin. unfold request in Hin.
  rewrite bind_trace in Hin. fold rq in Hin.
  apply in_app_or in Hin. destruct Hin as [Hin|Hin].
  { pose proof (request_client_log w) as L. fold rq in L.
    rewrite Forall_forall in L. apply L in Hin. cbn in Hin.
    destruct Hin; discriminate. }
  destruct Hfail as [E|(a & p & E & Ec)]; rewrite E in Hin.
  - rewrite bind_ret_l in Hin.
    now apply failure_reply_log in Hin.
  - rewrite bind_trace in Hin. apply in_app_or in Hin.
    destruct Hin as [Hin|Hin].
    + destruct (connect_to_dst_log cfg a p (world_of rq)) as (L & _).
      rewrite Forall_forall in L. apply L in Hin. contradiction.
    + rewrite Ec in Hin. now apply failure_reply_log in Hin.
Qed.

Lemma failure_reply_is_general_failure_witness :
  let w := client_sends [RecvData bind_request] in
  result_of (request_client Client w) = Ret None
  /\ In (EvSendall Client general_failure_reply (SendOk 10))
        (trace_of (request 1 shipped_config Client w))
  /\ (Client = Client /\ general_failure_reply = general_failure_reply).
Proof.
  refine (let H1 := eq_refl in
          let H2 := or_intror (or_introl eq_refl) in
          conj H1 (conj H2 _)).
  exact (@failure_reply_is_general_failure 1 shipped_config
           (client_sends [RecvData bind_request]) Client
           general_failure_reply (SendOk 10) (or_introl H1) H2).
Defined.

(** C2 fails as stated: a request with the unsupported command BIND is
    answered with status 0x01, not 0x07. *)
Lemma unsupported_command_gets_0x01 :
  let w := client_sends [RecvData bind_request] in
  let t := trace_of (request 1 shipped_config Client w) in
  result_of (request_client Client w) = Ret None
  /\ t = [EvRecv Client BUFSIZE (RecvData bind_request);
          EvSendall Client general_failure_reply (SendOk 10);
          EvSleep 1; EvClose Client]
  /\ nth_error general_failure_reply 1 = Some x01
  /\ (forall s reply r,
        In (EvSendall s reply r) t -> nth_error reply 1 <> Some x07).
Proof.
  cbn. repeat split.
  intros s reply r [E|[E|[E|[E|[]]]]]; try discriminate.
  inversion E; subst. discriminate.
Qed.

(** ** The relay loop *)

Lemma send_cases (s : sock) (data : bytes) (w : world) :
  (exists k w1, send s data w = (Ret k, w1, [EvSend s data (SendOk k)]))
  \/ (exists e w1,
        send s data w = (Raise (OSError e), w1, [EvSend s data (SendRaise e)])).
Proof.
  unfold send, write.
  destruct (closed (get_sock w s)); [right; eauto|].
  destruct (outbox (get_sock w s)) as [|[k|e] q]; cbn; eauto.
Qed.

Lemma select_cases (src dst : sock) (w : world) :
  (closed (get_sock w src) || closed (get_sock w dst) = true
   /\ select src dst w = (Raise ValueError, w, []))
  \/ (closed (get_sock w src) || closed (get_sock w dst) = false
      /\ ((exists r w1,
             select src dst w = (Ret r, w1, [EvSelect (SelReady r)])
             /\ handles w1 = handles w)
          \/ (exists e w1,
                select src dst w
                = (Raise (OSError e), w1, [EvSelect (SelRaise e)])))).
Proof.
  unfold select.
  destruct (closed (get_sock w src) || closed (get_sock w dst));
    [left; auto | right; split; [reflexivity|]].
  destruct (selects w) as [|[r|e] q]; eauto.
Qed.

(** Nothing but [close] and [create_socket] changes whether a handle is
    closed. *)
Lemma recv_handles (s : sock) (n : nat) (w : world) :
  handles (world_of (recv s n w)) = handles w.
Proof.
  unfold recv, handles.
  destruct (closed (get_sock w s)) eqn:Ec; [reflexivity|].
  destruct (inbox (get_sock w s)) as [|[d|e] q]; [reflexivity| |];
    destruct s; cbn in *; now rewrite Ec.
Qed.

Lemma write_handles (s : sock) (d : bytes) (ev : send_result -> event)
  (w : world) :
  handles (world_of (write s d ev w)) = handles w.
Proof.
  unfold write, handles.
  destruct (closed (get_sock w s)) eqn:Ec; [reflexivity|].
  destruct (outbox (get_sock w s)) as [|[k|e] q]; [reflexivity| |];
    destruct s; cbn in *; now rewrite Ec.
Qed.

Lemma get_status_handles (w : world) :
  handles (world_of (get_status w)) = handles w.
Proof. unfold get_status. now destruct (signals w). Qed.

Lemma relay_ready_handles (src dst : sock) (reader : list sock) (w : world) :
  handles (world_of (relay_ready src dst reader w)) = handles w.
Proof.
  revert w. induction reader as [|sock rest IH]; intros w; [reflexivity|].
  cbn [relay_ready]. rewrite bind_world.
  pose proof (recv_handles sock BUFSIZE w) as Hr.
  destruct (recv sock BUFSIZE w) as [[[d|e|] w1] t1];
    cbn [result_of world_of fst snd] in *; try exact Hr.
  destruct d as [|b g]; [exact Hr|].
  rewrite bind_world.
  assert (Hs : handles
                 (world_of
                    ((if sock_eqb sock dst
                      then send src (b :: g) else send dst (b :: g)) w1))
               = handles w1)
    by (destruct (sock_eqb sock dst); apply write_handles).
  destruct ((if sock_eqb sock dst
             then send src (b :: g) else send dst (b :: g)) w1)
    as [[[k|e|] w2] t2]; cbn [result_of world_of fst snd] in *;
    try rewrite IH; congruence.
Qed.

Lemma get_status_run (w : world) :
  exists b w1, get_status w = (Ret b, w1, [])
               /\ (exit w = true -> b = true).
Proof.
  unfold get_status. destruct (signals w) as [|sg q]; eauto.
  do 2 eexists. split; [reflexivity|]. now intros ->.
Qed.

Lemma zero_length_read_nil : ~ zero_length_read [].
Proof. intros (s & n & []). Qed.

Lemma zero_length_read_cons (e : event) (t : list event) :
  zero_length_read (e :: t) <->
  (exists s n, e = EvRecv s n (RecvData [])) \/ zero_length_read t.
Proof.
  unfold zero_length_read. cbn. split.
  - intros (s & n & [H|H]); eauto.
  - intros [(s & n & ->)|(s & n & H)]; eauto.
Qed.

Lemma zero_length_read_app (t1 t2 : list event) :
  zero_length_read (t1 ++ t2) <-> zero_length_read t1 \/ zero_length_read t2.
Proof.
  unfold zero_length_read. split.
  - intros (s & n & H). apply in_app_or in H. destruct H; eauto.
  - intros [(s & n & H)|(s & n & H)]; exists s, n; apply in_or_app; auto.
Qed.

(** One pass over the sockets that [select] reported. *)
Lemma relay_ready_spec (reader : list sock) (w : world) :
  let r := relay_ready Client Dst reader w in
  Forall relay_event (trace_of r)
  /\ match result_of r with
     | Ret Continue =>
         (forall t', relay_log t' -> relay_log (trace_of r ++ t'))
         /\ ~ zero_length_read (trace_of r)
     | Ret Return => relay_log (trace_of r)
     | Raise e =>
         is_socket_error e = true /\ relay_log (trace_of r)
     | Hang => relay_log (trace_of r) /\ ~ zero_length_read (trace_of r)
     end.
Proof.
  revert w. induction reader as [|sock rest IH]; intros w; cbn zeta.
  - cbn. repeat split; auto using zero_length_read_nil.
  - cbn [relay_ready]. rewrite bind_trace, bind_result.
    destruct (recv_cases sock BUFSIZE w)
      as [(d & w1 & E)|[(e & w1 & E)|E]]; rewrite E;
      cbn [trace_of result_of world_of fst snd].
    2:{ cbn. repeat split; auto. constructor; [exact I|constructor]. }
    2:{ cbn. repeat split; auto using zero_length_read_nil. }
    destruct d as [|b g].
    { cbn. repeat split; auto. constructor; [exact I|constructor]. }
    rewrite bind_trace, bind_result.
    assert (Es : (if sock_eqb sock Dst
                  then send Client (b :: g) else send Dst (b :: g))
                 = send (other sock) (b :: g)) by now destruct sock.
    rewrite Es. clear Es.
    destruct (send_cases (other sock) (b :: g) w1)
      as [(k & w2 & E2)|(e & w2 & E2)]; rewrite E2;
      cbn [trace_of result_of world_of fst snd].
    2:{ cbn. repeat split; auto.
        repeat (constructor; [exact I|]). constructor. }
    specialize (IH w2). cbn zeta in IH. destruct IH as [IHe IHr].
    split.
    { cbn. repeat (constructor; [exact I|]). exact IHe. }
    destruct (result_of (relay_ready Client Dst rest w2)) as [[|]|e|].
    + destruct IHr as [IHl IHz]. split.
      * intros t' Ht'. cbn. repeat split; auto.
      * cbn. rewrite !zero_length_read_cons.
        intros [(s & n & H)|[(s & n & H)|H]]; try discriminate. auto.
    + cbn. repeat split; auto.
    + destruct IHr as [IHs IHl]. cbn. repeat split; auto.
    + destruct IHr as [IHl IHz]. split.
      * cbn. repeat split; auto.
      * cbn. rewrite !zero_length_read_cons.
        intros [(s & n & H)|[(s & n & H)|H]]; try discriminate. auto.
Qed.

Lemma zero_length_read_select (r : select_result) (t : list event) :
  zero_length_read (EvSelect r :: t) <-> zero_length_read t.
Proof.
  rewrite zero_length_read_cons. split; auto.
  intros [(s & n & H)|H]; [discriminate | exact H].
Qed.

(** The loop as a whole: its log has the relay shape, a zero-length read
    makes it return, and the only exception that leaves it is the
    [ValueError] of a [select] on a closed socket, which can only be the
    first thing the loop does. *)
Lemma proxy_loop_spec (fuel : nat) (w : world) :
  let r := proxy_loop fuel Client Dst w in
  Forall relay_event (trace_of r)
  /\ relay_log (trace_of r)
  /\ (zero_length_read (trace_of r) -> result_of r = Ret tt)
  /\ (forall e, result_of r = Raise e ->
        e = ValueError
        /\ closed (client w) || closed (dst w) = true
        /\ trace_of r = []).
Proof.
  revert w. induction fuel as [|fuel IH]; intros w; cbn zeta.
  { cbn. repeat split; auto; try discriminate.
    intros H. now apply zero_length_read_nil in H. }
  cbn [proxy_loop].
  destruct (get_status_run w) as (b & w1 & Eg & _).
  pose proof (get_status_handles w) as Hg. rewrite Eg in Hg.
  cbn [world_of fst snd] in Hg.
  rewrite (bind_ret _ Eg). destruct b.
  { cbn. repeat split; auto; discriminate. }
  set (h := fun e : exn => if is_socket_error e
                           then Some (error ;; ret None) else None).
  destruct (select_cases Client Dst w1)
    as [[Hc Es]|[Ho [(r & w2 & Es & Hh)|(e & w2 & Es)]]].
  { (* a closed socket *)
    pose proof (bind_raise (fun reader => ret (Some reader)) Es) as E1.
    rewrite (bind_raise _ (try_uncaught h E1 eq_refl)).
    assert (Hc' : closed (client w) || closed (dst w) = true).
    { unfold handles in Hg. injection Hg as H1 H2.
      cbn [get_sock] in Hc. congruence. }
    cbn. split; [constructor|]. split; [exact I|]. split.
    - intros H. now apply zero_length_read_nil in H.
    - intros e He. inversion He; subst. auto. }
  2:{ pose proof (bind_raise (fun reader => ret (Some reader)) Es) as E1.
      erewrite bind_ret.
      2:{ rewrite (try_caught h E1 (k := error ;; ret None)) by reflexivity.
          reflexivity. }
      cbn. repeat split; auto; try discriminate.
      constructor; [exact I|constructor]. }
  assert (Hopen : forall w', handles w' = handles w1 ->
                    closed (client w') || closed (dst w') = true -> False).
  { intros w' Hw' Hc'. unfold handles in Hw'. injection Hw' as H1 H2.
    cbn [get_sock] in Ho. congruence. }
  assert (E1 : try_except
                 (reader <- select Client Dst ;; ret (Some reader)) h w1
               = (Ret (Some r), w2, [EvSelect (SelReady r)])).
  { apply try_ret. now rewrite (bind_ret _ Es). }
  rewrite (bind_ret _ E1). cbn [app].
  destruct r as [|s0 rest].
  { specialize (IH w2). cbn zeta in IH.
    destruct (proxy_loop fuel Client Dst w2) as [[o w3] t3].
    cbn in *. destruct IH as (IHe & IHl & IHz & IHr).
    split; [|split; [|split]]; auto.
    - constructor; [exact I | exact IHe].
    - intros H. apply zero_length_read_select in H. auto.
    - intros e He. destruct (IHr e He) as (_ & Hc' & _).
      exfalso. exact (Hopen w2 Hh Hc'). }
  set (h2 := fun e : exn => if is_socket_error e
                            then Some (error ;; ret Return) else None).
  pose proof (relay_ready_spec (s0 :: rest) w2) as R. cbn zeta in R.
  pose proof (relay_ready_handles Client Dst (s0 :: rest) w2) as Hrh.
  destruct (relay_ready Client Dst (s0 :: rest) w2) as [[[fl|e|] w3] t3] eqn:Er;
    cbn [trace_of result_of world_of fst snd] in R, Hrh;
    destruct R as [Re Rr].
  - rewrite (bind_ret _ (try_ret h2 Er)). destruct fl.
    + destruct Rr as [Rl Rz].
      specialize (IH w3). cbn zeta in IH.
      destruct (proxy_loop fuel Client Dst w3) as [[o w4] t4].
      cbn in *. destruct IH as (IHe & IHl & IHz & IHr).
      split; [|split; [|split]]; auto.
      * constructor; [exact I|]. apply Forall_app. auto.
      * intros H. apply zero_length_read_select in H.
        apply zero_length_read_app in H. destruct H; [contradiction|auto].
      * intros e He. destruct (IHr e He) as (_ & Hc' & _).
        exfalso. apply (Hopen w3); [congruence | exact Hc'].
    + cbn. rewrite app_nil_r.
      split; [|split; [|split]]; auto; try discriminate.
      constructor; [exact I | exact Re].
  - destruct Rr as [Rs Rl].
    erewrite bind_ret.
    2:{ rewrite (try_caught h2 Er (k := error ;; ret Return))
          by (subst h2; cbn; now rewrite Rs).
        reflexivity. }
    cbn. rewrite !app_nil_r.
    split; [|split; [|split]]; auto; try discriminate.
    constructor; [exact I | exact Re].
  - destruct Rr as [Rl Rz].
    rewrite (bind_hang _ (try_hang h2 Er)).
    cbn. split; [|split; [|split]]; auto; try discriminate.
    + constructor; [exact I | exact Re].
    + intros H. apply zero_length_read_select in H. contradiction.
Qed.

(** An induction principle that follows the shape of a relay log. *)
Lemma relay_log_induction (P : list event -> Prop) :
  P [] ->
  (forall r t, relay_log t -> P t -> P (EvSelect (SelReady r) :: t)) ->
  (forall e, P [EvSelect (SelRaise e)]) ->
  (forall s n, P [EvRecv s n (RecvData [])]) ->
  (forall s n e, P [EvRecv s n (RecvRaise e)]) ->
  (forall s n d k t, d <> [] -> relay_log t -> P t ->
     P (EvRecv s n (RecvData d) :: EvSend (other s) d (SendOk k) :: t)) ->
  (forall s n d e, d <> [] ->
     P [EvRecv s n (RecvData d); EvSend (other s) d (SendRaise e)]) ->
  forall t, relay_log t -> P t.
Proof.
  intros Hnil Hsel Hselr Hz Hrr Hfwd Hfail t.
  assert (G : forall k t, List.length t <= k -> relay_log t -> P t).
  { clear t. induction k as [|k IH]; intros t Hlen Hl.
    - destruct t; [exact Hnil | cbn in Hlen; lia].
    - destruct t as [|e t]; [exact Hnil|].
      cbn in Hlen. destruct e; try contradiction.
      + (* a read *)
        destruct r as [d|err].
        * destruct d as [|b g].
          { cbn in Hl. subst. apply Hz. }
          destruct t as [|e2 t]; [contradiction|].
          destruct e2; try contradiction.
          cbn in Hl. destruct Hl as (-> & -> & Hl).
          destruct r as [k'|err].
          { apply Hfwd; [discriminate | exact Hl |].
            apply IH; [cbn in Hlen; lia | exact Hl]. }
          { subst. apply Hfail. discriminate. }
        * cbn in Hl. subst. apply Hrr.
      + (* a select *)
        destruct r as [r|err].
        * apply Hsel; [exact Hl|]. apply IH; [lia | exact Hl].
        * cbn in Hl. subst. apply Hselr. }
  intros Hl. apply (G (List.length t)); auto.
Qed.

(** After a zero-length read nothing more is logged. *)
Lemma relay_log_zero_last (t t1 t2 : list event) (s : sock) (n : nat) :
  relay_log t -> t = t1 ++ EvRecv s n (RecvData []) :: t2 -> t2 = [].
Proof.
  intros Hl. revert t1.
  induction Hl using relay_log_induction; intros t1 E.
  - now destruct t1.
  - destruct t1 as [|e1 t1]; [discriminate|]. inversion E; subst. eauto.
  - destruct t1 as [|e1 [|e2 t1]]; discriminate.
  - destruct t1 as [|e1 [|e2 t1]]; try discriminate. now inversion E.
  - destruct t1 as [|e1 [|e2 t1]]; discriminate.
  - destruct t1 as [|e1 [|e2 t1]].
    + inversion E; subst. contradiction.
    + discriminate.
    + inversion E; subst. eauto.
  - destruct t1 as [|e1 [|e2 [|e3 t1]]]; try discriminate.
    inversion E; subst. contradiction.
Qed.

(** A chunk that was read is handed at once to the other socket. *)
Lemma relay_log_forwarded (t t1 t2 : list event) (s : sock) (n : nat)
  (d : bytes) :
  relay_log t -> d <> [] -> t = t1 ++ EvRecv s n (RecvData d) :: t2 ->
  exists res t3, t2 = EvSend (other s) d res :: t3.
Proof.
  intros Hl Hd. revert t1.
  induction Hl using relay_log_induction; intros t1 E.
  - now destruct t1.
  - destruct t1 as [|e1 t1]; [discriminate|]. inversion E; subst. eauto.
  - destruct t1 as [|e1 [|e2 t1]]; discriminate.
  - destruct t1 as [|e1 [|e2 t1]]; try discriminate.
    inversion E; subst. contradiction.
  - destruct t1 as [|e1 [|e2 t1]]; discriminate.
  - destruct t1 as [|e1 [|e2 t1]].
    + inversion E; subst. eauto.
    + discriminate.
    + inversion E; subst. eauto.
  - destruct t1 as [|e1 [|e2 [|e3 t1]]]; try discriminate.
    inversion E; subst. eauto.
Qed.

(** Whatever is handed to [send] was just read from the other socket. *)
Lemma relay_log_sent_was_read (t t1 t2 : list event) (s : sock)
  (d : bytes) (res : send_result) :
  relay_log t -> t = t1 ++ EvSend s d res :: t2 ->
  exists t0 n, t1 = t0 ++ [EvRecv (other s) n (RecvData d)].
Proof.
  intros Hl. revert t1.
  induction Hl using relay_log_induction; intros t1 E.
  - now destruct t1.
  - destruct t1 as [|e1 t1]; [discriminate|]. inversion E; subst.
    destruct (IHHl _ eq_refl) as (t0 & n & ->).
    now exists (EvSelect (SelReady r) :: t0), n.
  - destruct t1 as [|e1 [|e2 t1]]; discriminate.
  - destruct t1 as [|e1 [|e2 t1]]; discriminate.
  - destruct t1 as [|e1 [|e2 t1]]; discriminate.
  - destruct t1 as [|e1 [|e2 t1]].
    + discriminate.
    + inversion E; subst. exists [], n.
      now destruct s0.
    + inversion E; subst.
      destruct (IHHl _ eq_refl) as (t0 & n' & ->).
      now exists (EvRecv s0 n (RecvData d0)
                  :: EvSend (other s0) d0 (SendOk k) :: t0), n'.
  - destruct t1 as [|e1 [|e2 [|e3 t1]]]; try discriminate.
    inversion E; subst. exists [], n. now destruct s0.
Qed.

(** X23.  In every run of the relay loop: a zero-length read is the last
    thing that happens, and the loop has then returned, so nothing is
    handed to [send] after it in either direction; before that, every
    chunk read from one socket is handed whole, at once, to one [send] on
    the other socket, and nothing else is ever handed to [send].  What
    [send] does with the chunk is not part of this statement. *)
Theorem relay_forwards_until_zero_length_read (fuel : nat) (w : world) :
  let r := proxy_loop fuel Client Dst w in
  (forall t1 s n t2,
     trace_of r = t1 ++ EvRecv s n (RecvData []) :: t2 ->
     t2 = [] /\ result_of r = Ret tt)
  /\ (forall t1 s n d t2,
        d <> [] ->
        trace_of r = t1 ++ EvRecv s n (RecvData d) :: t2 ->
        exists res t3, t2 = EvSend (other s) d res :: t3)
  /\ (forall t1 s d res t2,
        trace_of r = t1 ++ EvSend s d res :: t2 ->
        exists t0 n, t1 = t0 ++ [EvRecv (other s) n (RecvData d)]).
Proof.
  destruct (proxy_loop_spec fuel w) as (_ & Hl & Hz & _).
  cbn zeta. split; [|split].
  - intros t1 s n t2 E. split.
    + eapply relay_log_zero_last; [exact Hl | exact E].
    + apply Hz. exists s, n. rewrite E. apply in_elt.
  - intros t1 s n d t2 Hd E.
    eapply relay_log_forwarded; [exact Hl | exact Hd | exact E].
  - intros t1 s d res t2 E.
    eapply relay_log_sent_was_read; [exact Hl | exact E].
Qed.

(** C7 (where the code departs from it).  The loop hands a chunk to
    [send], not to [sendall], and does not look at the number of bytes that
    [send] reports.  Here the client sends three bytes and the destination
    takes one of them: the loop goes on as if all were sent, the other two
    bytes are never handed to [send] again, and the bytes forwarded to the
    destination are not the bytes read from the client. *)
Theorem short_write_loses_bytes :
  let r := proxy_loop 3 Client Dst short_write in
  result_of r = Ret tt
  /\ trace_of r =
       [EvSelect (SelReady [Client]);
        EvRecv Client BUFSIZE (RecvData [x47; x45; x54]);
        EvSend Dst [x47; x45; x54] (SendOk 1);
        EvSelect (SelReady [Dst]);
        EvRecv Dst BUFSIZE (RecvData [])]
  /\ bytes_read Client (trace_of r) = [x47; x45; x54]
  /\ delivered Dst (trace_of r) = [x47]
  /\ delivered Dst (trace_of r) <> bytes_read Client (trace_of r).
Proof.
  cbn zeta.
  split; [reflexivity|]. split; [reflexivity|]. split; [reflexivity|].
  split; [reflexivity|]. discriminate.
Qed.

(** ** Closing the sockets *)

Lemma closes_none (s : sock) (P : event -> Prop) (t : list event) :
  Forall P t -> (forall e, P e -> is_close s e = false) -> closes s t = 0.
Proof.
  intros Ht HP. unfold closes. induction Ht as [|e t He Ht IH]; [reflexivity|].
  cbn. now rewrite (HP e He).
Qed.

Lemma dst_opened_none (P : event -> Prop) (t : list event) :
  Forall P t ->
  (forall e, P e -> match e with EvNoDelay None => False | _ => True end) ->
  dst_opened t = false.
Proof.
  intros Ht HP. unfold dst_opened.
  induction Ht as [|e t He Ht IH]; [reflexivity|].
  cbn. rewrite IH. specialize (HP e He).
  destruct e; try reflexivity. destruct r; [reflexivity | contradiction].
Qed.

Lemma sendall_failed_none (P : event -> Prop) (t : list event) (e : event) :
  Forall P t -> (forall e, P e -> sendall_failed e = false) ->
  In e t -> sendall_failed e = false.
Proof. intros Ht HP Hin. rewrite Forall_forall in Ht. auto. Qed.

Lemma sendall_ret_open (s : sock) (data : bytes) (w w1 : world)
  (t : list event) :
  sendall s data w = (Ret tt, w1, t) -> closed (get_sock w s) = false.
Proof.
  unfold sendall, bind, write.
  destruct (closed (get_sock w s)); [discriminate | reflexivity].
Qed.

Lemma proxy_loop_quiet (fuel : nat) (w : world) (s : sock) :
  let t := trace_of (proxy_loop fuel Client Dst w) in
  closes s t = 0 /\ dst_opened t = false
  /\ (forall e, In e t -> sendall_failed e = false).
Proof.
  destruct (proxy_loop_spec fuel w) as (He & _). cbn zeta.
  split; [|split].
  - eapply closes_none; [exact He|]. now intros [].
  - eapply dst_opened_none; [exact He|]. now intros [].
  - intros e. eapply sendall_failed_none; [exact He|]. now intros [].
Qed.

(** The second half of [request], when it returns: one [close] on the
    client socket; on the outbound socket one [close] when there is one
    and the reply was written, and none otherwise. *)
Lemma reply_and_relay_counts (fuel : nat) (dst : option (dst_addr * N))
  (socket_dst : option sock) (w : world) :
  socket_dst = None \/ socket_dst = Some Dst ->
  let r := reply_and_relay fuel Client dst socket_dst w in
  result_of r = Ret tt ->
  closes Client (trace_of r) = 1
  /\ dst_opened (trace_of r) = false
  /\ closes Dst (trace_of r) <= (if is_zero socket_dst then 0 else 1)
  /\ ((forall e, In e (trace_of r) -> sendall_failed e = false) ->
      closes Dst (trace_of r) = (if is_zero socket_dst then 0 else 1)).
Proof.
  intros Hsd. cbn zeta. unfold reply_and_relay.
  set (bnd0 := [x00] ++ [x00] ++ [x00] ++ [x00] ++ [x00] ++ [x00]).
  destruct (is_false dst || is_zero socket_dst) eqn:Hc.
  - (* failure reply *)
    rewrite bind_ret_l. cbn [fst snd].
    set (reply := VER ++ [x01] ++ [x00] ++ ATYP_IPV4 ++ bnd0).
    set (h := fun e : exn => _).
    destruct (sendall_cases Client reply w) as [(k & w1 & E)|(e & w1 & E)].
    + assert (E1 : try_except (sendall Client reply ;; ret true) h w
                   = (Ret true, w1, [EvSendall Client reply (SendOk k)])).
      { apply try_ret. now rewrite (bind_ret _ E). }
      rewrite (bind_ret _ E1).
      destruct Hsd as [->| ->]; cbn; intros _;
        (split; [reflexivity|]); (split; [reflexivity|]);
        (split; [lia|]); intros _; reflexivity.
    + pose proof (bind_raise (fun _ => ret true) E) as E0.
      erewrite bind_ret.
      2:{ rewrite (try_caught h E0 (k := close Client ;; ret false))
            by reflexivity. reflexivity. }
      cbn. intros _. split; [reflexivity|]. split; [reflexivity|].
      split; [lia|].
      intros Hf. specialize (Hf _ (or_introl eq_refl)). discriminate.
  - (* success reply *)
    apply orb_false_iff in Hc. destruct Hc as [_ Hz].
    destruct Hsd as [->| ->]; [discriminate|].
    set (m := (name <- getsockname ;; _)).
    destruct (pure_pack_H (snd (sockname (outbound w)))) as [o Hp].
    assert (Em : m w =
              (match o with
               | Ret port =>
                   Ret ([x00], inet_aton (fst (sockname (outbound w))) ++ port)
               | Raise e => Raise e
               | Hang => Hang
               end, w, [])).
    { subst m. unfold bind at 1, getsockname at 1. unfold bind.
      rewrite Hp. now destruct o. }
    destruct o as [port|e|].
    2:{ rewrite (bind_raise _ Em). discriminate. }
    2:{ rewrite (bind_hang _ Em). discriminate. }
    rewrite (bind_ret _ Em).
    cbn [fst snd app].
    set (reply := VER ++ _).
    set (h := fun e : exn => _).
    destruct (sendall_cases Client reply w) as [(k & w1 & E)|(e & w1 & E)].
    + assert (E1 : try_except (sendall Client reply ;; ret true) h w
                   = (Ret true, w1, [EvSendall Client reply (SendOk k)])).
      { apply try_ret. now rewrite (bind_ret _ E). }
      rewrite (bind_ret _ E1). rewrite bytes_eqb_refl.
      destruct (proxy_loop_quiet fuel w1 Client) as (Pc & Po & Pf).
      destruct (proxy_loop_quiet fuel w1 Dst) as (Pd & _).
      cbn zeta in *.
      destruct (proxy_loop fuel Client Dst w1) as [[[[]|e|] w2] t2] eqn:El.
      * rewrite (bind_ret _ El). cbn [trace_of snd] in Pc, Pd, Po.
        cbn -[closes dst_opened]. intros _.
        change (?a :: t2 ++ ?l) with ([a] ++ t2 ++ l).
        rewrite !closes_app, !dst_opened_app, Pc, Pd, Po. cbn.
        split; [reflexivity|]. split; [reflexivity|].
        split; [lia|]. intros _; reflexivity.
      * rewrite (bind_raise _ El). discriminate.
      * rewrite (bind_hang _ El). discriminate.
    + pose proof (bind_raise (fun _ => ret true) E) as E0.
      erewrite bind_ret.
      2:{ rewrite (try_caught h E0 (k := close Client ;; ret false))
            by reflexivity. reflexivity. }
      cbn. intros _. split; [reflexivity|]. split; [reflexivity|].
      split; [lia|].
      intros Hf. specialize (Hf _ (or_introl eq_refl)). discriminate.
Qed.

Lemma subnegotiation_client_cases (w : world) :
  subnegotiation_client Client w =
  match recv Client BUFSIZE w with
  | (Ret p, w1, t1) => (result_of (select_method p w1), w1, t1)
  | (Raise e, w1, t1) =>
      if is_socket_error e then (Ret M_NOTAVAILABLE, w1, t1)
      else (Raise e, w1, t1)
  | (Hang, w1, t1) => (Hang, w1, t1)
  end.
Proof.
  destruct (recv Client BUFSIZE w) as [[[p|e|] w1] t1] eqn:E.
  - rewrite (subnegotiation_client_read _ E).
    rewrite (pure_run w1 (pure_select_method p)). cbn.
    now rewrite app_nil_r.
  - unfold subnegotiation_client. set (h := fun e : exn => _).
    pose proof (bind_raise (fun s => ret (Some s)) E) as E1.
    destruct (is_socket_error e) eqn:Ec.
    + erewrite bind_ret.
      2:{ erewrite (try_caught h E1) by (subst h; cbn; now rewrite Ec).
          reflexivity. }
      cbn. now rewrite !app_nil_r.
    + apply bind_raise. apply try_uncaught; [exact E1|].
      subst h. cbn. now rewrite Ec.
  - unfold subnegotiation_client. apply bind_hang, try_hang.
    now apply bind_hang.
Qed.

Lemma subnegotiation_log (w : world) :
  Forall handshake_event (trace_of (subnegotiation Client w)).
Proof.
  unfold subnegotiation. rewrite bind_trace, subnegotiation_client_cases.
  destruct (recv_cases Client BUFSIZE w)
    as [(d & w1 & E)|[(e & w1 & E)|E]]; rewrite E;
    cbn [is_socket_error trace_of result_of world_of fst snd].
  3:{ constructor. }
  2:{ cbn. repeat (constructor; [exact I|]). constructor. }
  apply Forall_app. split; [repeat (constructor; [exact I|]); constructor|].
  destruct (result_of (select_method d w1)) as [method|e|]; [|constructor ..].
  destruct (negb (bytes_eqb method M_NOAUTH)); [constructor|].
  rewrite try_trace, bind_trace, bind_result.
  destruct (sendall_cases Client (VER ++ method) w1)
    as [(k & w2 & Es)|(e & w2 & Es)]; rewrite Es; cbn;
    repeat (constructor; [exact I|]); constructor.
Qed.

(** The request phase, when it returns. *)
Lemma request_counts (fuel : nat) (cfg : config) (w : world) :
  let r := request fuel cfg Client w in
  result_of r = Ret tt ->
  (result_of (recv Client BUFSIZE w) <> Raise (OSError ConnectionResetError)
   -> closes Client (trace_of r) = 1)
  /\ (dst_opened (trace_of r) = false -> closes Dst (trace_of r) = 0)
  /\ (dst_opened (trace_of r) = true ->
      (forall e, In e (trace_of r) -> sendall_failed e = false) ->
      closes Dst (trace_of r) = 1).
Proof.
  cbn zeta. unfold request. rewrite bind_trace, bind_result.
  rewrite request_client_cases.
  destruct (recv_cases Client BUFSIZE w)
    as [(d & w1 & E)|[(e & w1 & E)|E]]; rewrite E;
    cbn [is_ConnectionResetError trace_of result_of world_of fst snd].
  3:{ discriminate. }
  2:{ (* the read failed *)
      destruct e; cbn [trace_of result_of world_of fst snd];
        try discriminate.
      rewrite bind_ret_l. intros Hr.
      destruct (@reply_and_relay_counts fuel None None
                  (world_of (close Client w1)) (or_introl eq_refl) Hr)
        as (_ & Ho & Hd & _).
      cbn [is_zero] in Hd.
      rewrite !closes_app, !dst_opened_app, Ho.
      split; [intros H; exfalso; apply H; reflexivity|].
      split; [intros _; reflexivity | discriminate]. }
  assert (Hz : forall s, closes s [EvRecv Client BUFSIZE (RecvData d)] = 0)
    by (intros s; reflexivity).
  destruct (result_of (parse_request d w1)) as [[[a p]|]|e|];
    try discriminate.
  - (* a destination was parsed *)
    rewrite bind_trace, bind_result.
    destruct (connect_to_dst_log cfg a p w1) as (Le & Ls & Ln).
    cbn zeta in *.
    destruct (result_of (connect_to_dst cfg a p w1)) as [sd|e|] eqn:Ec;
      try discriminate.
    intros Hr.
    assert (Hsd : sd = None \/ sd = Some Dst).
    { destruct sd as [sd|]; [right|now left].
      now destruct (Ls sd eq_refl) as [-> _]. }
    destruct (@reply_and_relay_counts fuel (Some (a, p)) sd
                (world_of (connect_to_dst cfg a p w1)) Hsd Hr)
      as (Hc & Ho & Hd & Hd').
    set (tr := trace_of (reply_and_relay fuel Client (Some (a, p)) sd _)) in *.
    clearbody tr.
    rewrite !closes_app, !dst_opened_app, Hc, Ho, !Hz.
    rewrite (closes_none Client Le), (closes_none Dst Le)
      by (now intros []).
    destruct Hsd as [-> | ->]; cbn [is_zero] in *.
    + rewrite (Ln eq_refl). cbn -[closes].
      split; [intros _; reflexivity|].
      split; [intros _; lia | discriminate].
    + destruct (Ls Dst eq_refl) as [_ ->]. cbn -[closes].
      split; [intros _; reflexivity|]. split; [discriminate|].
      intros _ Hf. apply Hd'. intros e He. apply Hf.
      right. apply in_or_app. now right.
  - (* the parser turned the request down *)
    rewrite bind_ret_l. intros Hr.
    destruct (@reply_and_relay_counts fuel None None w1
                (or_introl eq_refl) Hr) as (Hc & Ho & Hd & _).
    cbn [is_zero] in Hd.
    set (tr := trace_of (reply_and_relay fuel Client None None w1)) in *.
    clearbody tr.
    rewrite !closes_app, !dst_opened_app, Hc, Ho, !Hz. cbn -[closes].
    split; [intros _; reflexivity|].
    split; [intros _; lia | discriminate].
Qed.

(** C3 (as the code has it).  After a handshake that did not succeed the
    unit has not called [close] at all.  After a handshake that succeeded,
    when the unit returns: [close] was called exactly once on the client
    socket on every path on which the read of the request was not reset
    (the request turned down by the parser, the failed connect, the reply
    that could not be written, and the end of the relay by a zero-length
    read, a socket error or the exit flag); [close] was never called on
    the outbound side when [connect_to_dst] handed out no socket; and it
    was called exactly once on the socket that [connect_to_dst] handed
    out when no [sendall] failed. *)
Theorem sockets_closed_once (fuel : nat) (cfg : config) (w : world) :
  let r := connection fuel cfg Client w in
  (result_of (subnegotiation Client w) <> Ret true ->
   closes Client (trace_of r) = 0 /\ closes Dst (trace_of r) = 0)
  /\ (result_of (subnegotiation Client w) = Ret true ->
      result_of r = Ret tt ->
      (result_of (recv Client BUFSIZE (world_of (subnegotiation Client w)))
       <> Raise (OSError ConnectionResetError) ->
       closes Client (trace_of r) = 1)
      /\ (dst_opened (trace_of r) = false -> closes Dst (trace_of r) = 0)
      /\ (dst_opened (trace_of r) = true ->
          (forall e, In e (trace_of r) -> sendall_failed e = false) ->
          closes Dst (trace_of r) = 1)).
Proof.
  cbn zeta. unfold connection. rewrite bind_trace, bind_result.
  pose proof (subnegotiation_log w) as L.
  assert (Hn : forall e, handshake_event e ->
                 is_close Client e = false /\ is_close Dst e = false
                 /\ match e with EvNoDelay None => False | _ => True end).
  { now intros [[]| | | | | | | | | |]. }
  rewrite !closes_app, !dst_opened_app.
  rewrite (closes_none Client L), (closes_none Dst L), (dst_opened_none L)
    by (intros e He; apply (Hn e He)).
  split.
  - intros Hs.
    destruct (result_of (subnegotiation Client w)) as [[|]|x|];
      [now contradiction Hs | | |]; split; reflexivity.
  - intros Hs. rewrite Hs. intros Hr.
    destruct (@request_counts fuel cfg (world_of (subnegotiation Client w)) Hr)
      as (Hc & Hd0 & Hd1).
    split; [exact Hc|]. split; [exact Hd0|].
    intros Ho Hf. apply (Hd1 Ho).
    intros e He. apply Hf. apply in_or_app. now right.
Qed.

Lemma sockets_closed_once_witness :
  let r := connection 5 shipped_config Client relay_session in
  result_of (subnegotiation Client relay_session) = Ret true
  /\ result_of r = Ret tt
  /\ closes Client (trace_of r) = 1
  /\ closes Dst (trace_of r) = 1.
Proof.
  assert (Hf : forall e,
             In e (trace_of (connection 5 shipped_config Client relay_session))
             -> sendall_failed e = false).
  { intros e He. vm_compute in He.
    repeat (destruct He as [<-|He]; [reflexivity|]). destruct He. }
  assert (Hn : result_of
                 (recv Client BUFSIZE
                    (world_of (subnegotiation Client relay_session)))
               <> Raise (OSError ConnectionResetError)).
  { intros H. vm_compute in H. discriminate H. }
  split; [reflexivity|]. split; [reflexivity|].
  destruct (proj2 (@sockets_closed_once 5 shipped_config relay_session)
              eq_refl eq_refl) as (Hc & _ & Hd).
  split; [exact (Hc Hn) | exact (Hd eq_refl Hf)].
Defined.

(** C3 fails as stated: after a failed handshake the unit returns and
    [close] was never called on the client socket. *)
Lemma handshake_failure_leaves_client_open :
  let r := connection 5 shipped_config Client
             (client_sends [RecvData hello_gssapi]) in
  result_of r = Ret tt
  /\ closes Client (trace_of r) = 0
  /\ closed (client (world_of r)) = false.
Proof. repeat split. Qed.

(** Two more exit paths on which the count is not one.  When writing the
    reply fails after a successful connect, the client socket is closed and
    the outbound socket is not. *)
Example reply_failure_leaves_dst_open :
  let r := connection 5 shipped_config Client reply_lost in
  result_of r = Ret tt
  /\ dst_opened (trace_of r) = true
  /\ closes Client (trace_of r) = 1
  /\ closes Dst (trace_of r) = 0.
Proof. repeat split. Qed.

(** When the read of the request is reset, [request_client] closes the
    client socket, the write of the reply then fails on the closed handle,
    and the handler closes the socket a second time. *)
Example reset_closes_client_twice :
  let r := connection 5 shipped_config Client reset_before_request in
  result_of r = Ret tt
  /\ closes Client (trace_of r) = 2.
Proof. repeat split. Qed.

(** ** The outbound interface *)

Lemma proxy_loop_exit_set (fuel : nat) (src dst : sock) (w : world) :
  exit w = true ->
  result_of (proxy_loop (S fuel) src dst w) = Ret tt
  /\ trace_of (proxy_loop (S fuel) src dst w) = [].
Proof.
  intros He. cbn [proxy_loop].
  destruct (get_status_run w) as (b & w1 & Eg & Hb).
  rewrite (bind_ret _ Eg), (Hb He). now cbn.
Qed.

(** C6 (as the code has it).  With an interface configured, a
    [PermissionError] from binding the outbound socket to it is caught
    inside [connect_to_dst], the call made for one connection: the
    process-wide exit flag is set, so that every relay loop returns at its
    next look at the flag without touching a socket, and the accept loop
    leaves at its next iteration.  The call itself goes on to the connect
    and returns, with a socket or with [0]; the one exception that can
    leave it is the [TypeError] that [connect] raises for a host name with
    a NUL byte, which no handler catches. *)
Theorem bind_failure_sets_exit_flag (cfg : config) (a : dst_addr) (p : N)
  (w : world) :
  OUTGOING_INTERFACE cfg <> EmptyString ->
  on_socket (outbound w) = None ->
  on_bindtodevice (outbound w) = Some PermissionError ->
  let r := connect_to_dst cfg a p w in
  exit (world_of r) = true
  /\ In (EvSetExit true) (trace_of r)
  /\ (has_nul a = false -> exists sd, result_of r = Ret sd)
  /\ (has_nul a = true -> result_of r = Raise TypeError)
  /\ (forall fuel src dst,
        result_of (proxy_loop (S fuel) src dst (world_of r)) = Ret tt
        /\ trace_of (proxy_loop (S fuel) src dst (world_of r)) = [])
  /\ (forall t acc,
        main_iteration (exit (world_of r)) t acc = (LeaveLoop, t)).
Proof.
  intros Hi Hs Hb. cbn zeta.
  assert (He : exit (world_of (connect_to_dst cfg a p w)) = true
               /\ In (EvSetExit true) (trace_of (connect_to_dst cfg a p w))
               /\ (has_nul a = false ->
                   exists sd, result_of (connect_to_dst cfg a p w) = Ret sd)
               /\ (has_nul a = true ->
                   result_of (connect_to_dst cfg a p w) = Raise TypeError)).
  { unfold connect_to_dst, create_socket, setsockopt_bindtodevice, connect,
      setsockopt_nodelay, set_status, error, bind, try_except, ret.
    rewrite Hs.
    destruct (String.eqb_spec (OUTGOING_INTERFACE cfg) EmptyString) as [E|_];
      [contradiction|].
    cbn. rewrite Hb. cbn. destruct (has_nul a); cbn.
    - split; [reflexivity|]. split; [auto|]. split; [discriminate|auto].
    - destruct (on_connect (outbound w)); cbn;
        try destruct (on_nodelay (outbound w)); cbn;
        (split; [reflexivity|]; split; [auto|];
         split; [eauto | discriminate]). }
  destruct He as (He & Hin & Hr & Ht).
  split; [exact He|]. split; [exact Hin|]. split; [exact Hr|].
  split; [exact Ht|]. split.
  - intros fuel src dst. now apply proxy_loop_exit_set.
  - intros t acc. now rewrite He.
Qed.

Lemma bind_failure_sets_exit_flag_witness :
  let w := with_outbound (client_sends []) net_unprivileged in
  let r := connect_to_dst eth0_config (AddrDomain [x61]) 80 w in
  OUTGOING_INTERFACE eth0_config <> EmptyString
  /\ exit w = false
  /\ exit (world_of r) = true.
Proof.
  assert (H : OUTGOING_INTERFACE eth0_config <> EmptyString)
    by discriminate.
  split; [exact H|]. split; [reflexivity|].
  exact (proj1 (@bind_failure_sets_exit_flag eth0_config (AddrDomain [x61])
                  80 (with_outbound (client_sends []) net_unprivileged)
                  H eq_refl eq_refl)).
Defined.

(** C6 fails as stated: the failed binding does not end the process
    ([connect_to_dst] returns, and returns a socket), and the outbound
    connect is made all the same, on a socket that is not bound to the
    configured interface. *)
Lemma connect_proceeds_after_bind_failure :
  let w := with_outbound (client_sends []) net_unprivileged in
  connect_to_dst eth0_config (AddrDomain [x61]) 80 w
  = (Ret (Some Dst), set_exit w true [],
     [EvSocket None;
      EvBindToDevice "eth0" (Some PermissionError);
      EvSetExit true;
      EvConnect (AddrDomain [x61]) 80 None;
      EvNoDelay None]).
Proof. reflexivity. Qed.

(** ** The request parser on domain-name and IPv4 frames *)

Lemma parse_request_domain (L : byte) (rest : bytes) (w : world) :
  let n := N.to_nat (Byte.to_N L) in
  parse_request ([x05; x01; x00; x03; L] ++ rest) w =
  (match firstn 2 (skipn n rest) with
   | [hi; lo] =>
       Ret (Some (AddrDomain (firstn n rest),
                  (Byte.to_N hi * 256 + Byte.to_N lo)%N))
   | _ => Raise StructError
   end, w, []).
Proof.
  cbn zeta. unfold parse_request, slice.
  cbn [app skipn firstn Nat.sub Nat.add nth_error index].
  change (bytes_eqb [x05] VER) with true.
  change (bytes_eqb [x01] CMD_CONNECT) with true.
  change (bytes_eqb [x00] [x00]) with true.
  change (bytes_eqb [x03] ATYP_IPV4) with false.
  change (bytes_eqb [x03] ATYP_DOMAINNAME) with true.
  cbn [negb orb]. rewrite bind_ret_l.
  replace (N.to_nat (Byte.to_N L) + 2 - N.to_nat (Byte.to_N L)) with 2
    by lia.
  rewrite Nat.sub_0_r.
  unfold bind, unpack_H.
  destruct (skipn (N.to_nat (Byte.to_N L)) rest) as [|hi [|lo [|x l]]];
    reflexivity.
Qed.

Lemma parse_request_ipv4 (rest : bytes) (w : world) :
  parse_request ([x05; x01; x00; x01] ++ rest) w =
  (match firstn 4 rest with
   | [a1; a2; a3; a4] =>
       match firstn 2 (skipn 4 rest) with
       | [hi; lo] =>
           Ret (Some (AddrIPv4 (a1, a2, a3, a4),
                      (Byte.to_N hi * 256 + Byte.to_N lo)%N))
       | _ => Raise StructError
       end
   | _ => Raise (OSError OtherOSError)
   end, w, []).
Proof.
  unfold parse_request, slice.
  cbn [app skipn firstn Nat.sub Nat.add].
  change (bytes_eqb [x05] VER) with true.
  change (bytes_eqb [x01] CMD_CONNECT) with true.
  change (bytes_eqb [x00] [x00]) with true.
  change (bytes_eqb [x01] ATYP_IPV4) with true.
  cbn [negb orb]. unfold bind, inet_ntoa, unpack_H.
  destruct rest as [|a1 [|a2 [|a3 [|a4 [|hi [|lo [|x l]]]]]]]; reflexivity.
Qed.

Lemma firstn_two_short (l : bytes) :
  List.length l < 2 ->
  forall (A : Type) (f : byte -> byte -> A) (d : A),
    match firstn 2 l with [hi; lo] => f hi lo | _ => d end = d.
Proof. destruct l as [|a [|b l]]; cbn; intros; try reflexivity; lia. Qed.

Lemma firstn_two_full (l : bytes) :
  2 <= List.length l -> exists hi lo, firstn 2 l = [hi; lo].
Proof. destruct l as [|a [|b l]]; cbn; intros; try lia; eauto. Qed.

(** C4 (as the code has it).  In a domain-name CONNECT frame the length
    byte [L] at offset 4 fixes the positions: when the frame holds at least
    [5 + L + 2] bytes the name is exactly the bytes from 5 to [5 + L] and
    the port is the next two bytes, big-endian, whatever follows them;
    when it holds fewer, no message is built and [struct.error] is
    raised. *)
Theorem domain_request_boundaries (L : byte) (rest : bytes) (w : world) :
  let frame := [x05; x01; x00; x03; L] ++ rest in
  let n := N.to_nat (Byte.to_N L) in
  (5 + n + 2 <= List.length frame ->
     exists hi lo,
       slice (5 + n) (5 + n + 2) frame = [hi; lo]
       /\ List.length (slice 5 (5 + n) frame) = n
       /\ parse_request frame w =
            (Ret (Some (AddrDomain (slice 5 (5 + n) frame),
                        (Byte.to_N hi * 256 + Byte.to_N lo)%N)), w, []))
  /\ (List.length frame < 5 + n + 2 ->
        parse_request frame w = (Raise StructError, w, [])).
Proof.
  cbn zeta. rewrite parse_request_domain. cbn zeta.
  set (n := N.to_nat (Byte.to_N L)).
  assert (Es : forall k, slice (5 + n) (5 + n + k)
                           ([x05; x01; x00; x03; L] ++ rest)
                         = firstn k (skipn n rest)).
  { intros k. unfold slice. cbn [app skipn Nat.add].
    f_equal. lia. }
  assert (En : slice 5 (5 + n) ([x05; x01; x00; x03; L] ++ rest)
               = firstn n rest).
  { unfold slice. cbn [app skipn]. f_equal. lia. }
  rewrite Es, En. cbn [app List.length]. split; intros H.
  - destruct (@firstn_two_full (skipn n rest)) as (hi & lo & E).
    { rewrite length_skipn. lia. }
    exists hi, lo. rewrite E. repeat split.
    rewrite length_firstn. lia.
  - rewrite firstn_two_short; [reflexivity|].
    rewrite length_skipn. lia.
Qed.

Lemma domain_request_boundaries_witness :
  let frame := [x05; x01; x00; x03; x01] ++ [x61; x00; x50] in
  5 + 1 + 2 <= List.length frame
  /\ exists hi lo,
       slice 6 8 frame = [hi; lo]
       /\ List.length (slice 5 6 frame) = 1
       /\ parse_request frame (client_sends []) =
            (Ret (Some (AddrDomain (slice 5 6 frame),
                        (Byte.to_N hi * 256 + Byte.to_N lo)%N)),
             client_sends [], []).
Proof.
  split; [cbn; lia|].
  apply (proj1 (@domain_request_boundaries x01 [x61; x00; x50]
                  (client_sends []))).
  cbn. lia.
Defined.

(** C4 fails as stated: a frame that declares a one-byte name but carries
    the two-byte name "ab" before port 80 is one byte longer than its
    layout; it is not rejected but parsed as the name "a" and the port
    0x6200. *)
Lemma overlong_domain_frame_accepted :
  let frame := [x05; x01; x00; x03; x01; x61; x62; x00; x50] in
  List.length frame = 9
  /\ parse_request frame (client_sends []) =
       (Ret (Some (AddrDomain [x61], 25088%N)), client_sends [], []).
Proof. split; reflexivity. Qed.

(** ** Truncated frames *)

(** The handshake parser raises on exactly one buffer. *)
Lemma select_method_results (p : bytes) (w : world) :
  select_method p w = (Raise IndexError, w, []) /\ p = [x05]
  \/ select_method p w = (Ret M_NOAUTH, w, []) /\ p <> [x05]
  \/ select_method p w = (Ret M_NOTAVAILABLE, w, []) /\ p <> [x05].
Proof.
  unfold select_method, slice, index, bind, ret.
  destruct p as [|v [|n methods]]; cbn [skipn firstn Nat.sub nth_error].
  - right; right. split; [reflexivity | discriminate].
  - destruct (bytes_eqb VER [v]) eqn:E; cbn [negb].
    + apply bytes_eqb_eq in E. inversion E; subst. now left.
    + right; right. split; [reflexivity|].
      intros E'. inversion E'; subst. discriminate E.
  - assert (Hne : v :: n :: methods <> [x05]) by discriminate.
    destruct (negb (bytes_eqb VER [v])); [now right; right|].
    cbn [app]. destruct (negb _); [now right; right|].
    unfold slice_from. cbn [skipn].
    destruct (in_dec Byte.byte_eq_dec x00 methods) as [Hin|Hin].
    + rewrite (scan_methods_noauth _ Hin). now right; left.
    + rewrite (scan_methods_notavailable _ Hin). now right; right.
Qed.

(** The request parser reports a clean failure exactly for a mismatch in
    one of the three leading bytes or an address type that is neither IPv4
    nor a domain name; a missing byte is a mismatch. *)
Lemma parse_request_false (f : bytes) (w : world) :
  result_of (parse_request f w) = Ret None <->
  (slice 0 1 f <> VER \/ slice 1 2 f <> CMD_CONNECT \/ slice 2 3 f <> [x00]
   \/ (slice 3 4 f <> ATYP_IPV4 /\ slice 3 4 f <> ATYP_DOMAINNAME)).
Proof.
  unfold parse_request.
  destruct (bytes_eqb (slice 0 1 f) VER) eqn:E0.
  2:{ cbn. apply bytes_eqb_neq in E0. tauto. }
  destruct (bytes_eqb (slice 1 2 f) CMD_CONNECT) eqn:E1.
  2:{ cbn. apply bytes_eqb_neq in E1. tauto. }
  destruct (bytes_eqb (slice 2 3 f) [x00]) eqn:E2.
  2:{ cbn. apply bytes_eqb_neq in E2. tauto. }
  apply bytes_eqb_eq in E0, E1, E2. cbn [negb orb].
  destruct (bytes_eqb (slice 3 4 f) ATYP_IPV4) eqn:E3.
  { apply bytes_eqb_eq in E3.
    unfold bind, inet_ntoa, unpack_H, ret, raise.
    split.
    - destruct (slice 4 8 f) as [|a1 [|a2 [|a3 [|a4 [|x l]]]]];
        try discriminate.
      destruct (slice 8 10 f) as [|hi [|lo [|x l]]]; discriminate.
    - tauto. }
  destruct (bytes_eqb (slice 3 4 f) ATYP_DOMAINNAME) eqn:E4.
  { apply bytes_eqb_eq in E4.
    unfold bind, index, unpack_H, ret, raise.
    split.
    - destruct (nth_error f 4) as [sz|]; [|discriminate].
      cbn beta iota zeta.
      match goal with
      | |- context [match slice ?a ?b f with _ => _ end] =>
          destruct (slice a b f) as [|hi [|lo [|x l]]]; discriminate
      end.
    - tauto. }
  apply bytes_eqb_neq in E3, E4. cbn. tauto.
Qed.

(** An exception of a parser is not caught on its way out of the thread
    function. *)
Lemma handshake_exception_escapes (fuel : nat) (cfg : config)
  (w w1 : world) (t1 : list event) (p : bytes) (e : exn) :
  recv Client BUFSIZE w = (Ret p, w1, t1) ->
  result_of (select_method p w1) = Raise e ->
  connection fuel cfg Client w = (Raise e, w1, t1).
Proof.
  intros Hr He.
  assert (Hsub : subnegotiation_client Client w = (Raise e, w1, t1)).
  { rewrite (subnegotiation_client_read _ Hr).
    rewrite (pure_run w1 (pure_select_method p)), He. cbn.
    now rewrite app_nil_r. }
  unfold connection, subnegotiation.
  now rewrite (bind_raise _ (bind_raise _ Hsub)).
Qed.

Lemma request_exception_escapes (fuel : nat) (cfg : config)
  (w w1 : world) (t1 : list event) (f : bytes) (e : exn) :
  recv Client BUFSIZE w = (Ret f, w1, t1) ->
  result_of (parse_request f w1) = Raise e ->
  request fuel cfg Client w = (Raise e, w1, t1).
Proof.
  intros Hr He. unfold request. apply bind_raise.
  now rewrite (request_client_read _ Hr), He.
Qed.

(** C9 (as the code has it).  The parsers raise on truncated input and
    nothing catches the exception: the one-byte handshake 0x05 gives
    [IndexError]; an IPv4 CONNECT frame with fewer than 10 bytes gives
    [OSError] (fewer than 8) or [struct.error]; a domain-name frame that
    leaves fewer than 2 bytes for the port gives [struct.error].  Clean
    failures are: for the handshake, every other buffer that does not
    select 0x00 (the empty one, a wrong version, a method count that does
    not match, 0x00 not offered); for the request, a mismatch in VER, CMD
    or RSV or an address type other than IPv4 and domain name. *)
Theorem truncated_frames_raise :
  (* the handshake *)
  (forall fuel cfg w w1 t1,
     recv Client BUFSIZE w = (Ret [x05], w1, t1) ->
     connection fuel cfg Client w = (Raise IndexError, w1, t1))
  /\ (forall p w,
        p <> [x05] ->
        select_method p w = (Ret M_NOAUTH, w, [])
        \/ select_method p w = (Ret M_NOTAVAILABLE, w, []))
  (* IPv4 frames *)
  /\ (forall fuel cfg w w1 t1 rest,
        recv Client BUFSIZE w = (Ret ([x05; x01; x00; x01] ++ rest), w1, t1) ->
        List.length ([x05; x01; x00; x01] ++ rest) < 10 ->
        request fuel cfg Client w =
          (Raise (if List.length ([x05; x01; x00; x01] ++ rest) <? 8
                  then OSError OtherOSError else StructError), w1, t1))
  (* domain-name frames *)
  /\ (forall fuel cfg w w1 t1 L rest,
        recv Client BUFSIZE w =
          (Ret ([x05; x01; x00; x03; L] ++ rest), w1, t1) ->
        List.length rest < N.to_nat (Byte.to_N L) + 2 ->
        request fuel cfg Client w = (Raise StructError, w1, t1))
  (* clean failures of the request parser *)
  /\ (forall f w,
        result_of (parse_request f w) = Ret None <->
        (slice 0 1 f <> VER \/ slice 1 2 f <> CMD_CONNECT
         \/ slice 2 3 f <> [x00]
         \/ (slice 3 4 f <> ATYP_IPV4 /\ slice 3 4 f <> ATYP_DOMAINNAME))).
Proof.
  split; [|split; [|split; [|split]]].
  - intros fuel cfg w w1 t1 Hr.
    apply (handshake_exception_escapes fuel cfg _ Hr). reflexivity.
  - intros p w Hp.
    destruct (select_method_results p w) as [[_ E]|[[E _]|[E _]]]; auto.
    contradiction.
  - intros fuel cfg w w1 t1 rest Hr Hlen.
    apply (request_exception_escapes fuel cfg _ Hr).
    rewrite parse_request_ipv4.
    destruct rest as [|a1 [|a2 [|a3 [|a4 [|hi [|lo [|x l]]]]]]];
      try reflexivity; cbn in Hlen; lia.
  - intros fuel cfg w w1 t1 L rest Hr Hlen.
    apply (request_exception_escapes fuel cfg _ Hr).
    rewrite parse_request_domain. cbn zeta.
    rewrite firstn_two_short; [reflexivity|].
    rewrite length_skipn. lia.
  - apply parse_request_false.
Qed.

Lemma truncated_frames_raise_witness :
  connection 1 shipped_config Client (client_sends [RecvData [x05]])
  = (Raise IndexError, client_sends [],
     [EvRecv Client BUFSIZE (RecvData [x05])])
  /\ request 1 shipped_config Client
       (client_sends [RecvData [x05; x01; x00; x01; x7f; x00; x00; x01; x00]])
     = (Raise StructError, client_sends [],
        [EvRecv Client BUFSIZE
           (RecvData [x05; x01; x00; x01; x7f; x00; x00; x01; x00])])
  /\ request 1 shipped_config Client
       (client_sends [RecvData [x05; x01; x00; x03; x02; x61; x62; x00]])
     = (Raise StructError, client_sends [],
        [EvRecv Client BUFSIZE
           (RecvData [x05; x01; x00; x03; x02; x61; x62; x00])]).
Proof.
  destruct truncated_frames_raise as (H1 & _ & H3 & H4 & _).
  split; [|split].
  - exact (H1 1 shipped_config (client_sends [RecvData [x05]]) _ _ eq_refl).
  - apply (H3 1 shipped_config
             (client_sends
                [RecvData [x05; x01; x00; x01; x7f; x00; x00; x01; x00]])
             (client_sends []) _ [x7f; x00; x00; x01; x00]);
      [reflexivity | cbn; lia].
  - apply (H4 1 shipped_config
             (client_sends
                [RecvData [x05; x01; x00; x03; x02; x61; x62; x00]])
             (client_sends []) _ x02 [x61; x62; x00]);
      [reflexivity | cbn; lia].
Defined.

(** C9 fails as stated in its last clause: a handshake buffer that is
    cut after the first of two declared methods is neither empty nor of a
    wrong version, and a request cut after its reserved byte has the right
    version and command; both are reported as clean failures. *)
Lemma other_clean_failures :
  select_method [x05; x02; x01] (client_sends [])
  = (Ret M_NOTAVAILABLE, client_sends [], [])
  /\ slice 0 1 [x05; x02; x01] = VER
  /\ parse_request [x05; x01; x00] (client_sends [])
     = (Ret None, client_sends [], [])
  /\ slice 0 1 [x05; x01; x00] = VER
  /\ slice 1 2 [x05; x01; x00] = CMD_CONNECT.
Proof. repeat split. Qed.

(** ** One read per phase *)

Lemma recv_whole (s : sock) (n : nat) (w : world) (d : bytes)
  (q : list recv_result) :
  closed (get_sock w s) = false ->
  inbox (get_sock w s) = RecvData d :: q ->
  List.length d <= n ->
  recv s n w =
  (Ret d,
   set_sock w s {| inbox := q; outbox := outbox (get_sock w s);
                   closed := false |},
   [EvRecv s n (RecvData d)]).
Proof.
  intros Hc Hi Hn. unfold recv. rewrite Hc, Hi.
  now rewrite (firstn_all2 _ Hn), (skipn_all2 _ Hn).
Qed.

Lemma recv_log (s : sock) (n : nat) (w : world) (s' : sock) (n' : nat)
  (ans : recv_result) :
  In (EvRecv s' n' ans) (trace_of (recv s n w)) ->
  s' = s /\ n' = n /\ forall d, ans = RecvData d -> List.length d <= n.
Proof.
  unfold recv. destruct (closed (get_sock w s)).
  { cbn. intros [E|[]]. inversion E; subst. repeat split. discriminate. }
  destruct (inbox (get_sock w s)) as [|[d0|err] q]; cbn; [tauto| |];
    intros [E|[]]; inversion E; subst; repeat split; try discriminate.
  intros d Ed. inversion Ed; subst. apply firstn_le_length.
Qed.

(** C10.  Each of the two phases reads the client socket once, asking for
    at most [BUFSIZE] bytes, and hands what that one read returned to its
    parser as the whole frame: the outcome is the parser's verdict on that
    chunk alone, whatever arrives later, and later chunks stay queued for
    the next read of the connection. *)
Theorem single_read_per_phase :
  (forall w d q,
     closed (client w) = false ->
     inbox (client w) = RecvData d :: q ->
     List.length d <= BUFSIZE ->
     exists w',
       subnegotiation_client Client w =
         (result_of (select_method d w), w',
          [EvRecv Client BUFSIZE (RecvData d)])
       /\ inbox (client w') = q /\ closed (client w') = false)
  /\ (forall w d q,
        closed (client w) = false ->
        inbox (client w) = RecvData d :: q ->
        List.length d <= BUFSIZE ->
        exists w',
          request_client Client w =
            (result_of (parse_request d w), w',
             [EvRecv Client BUFSIZE (RecvData d)])
          /\ inbox (client w') = q /\ closed (client w') = false)
  /\ (forall w,
        let hs := subnegotiation_client Client w in
        let rq := request_client Client w in
        (recvs Client (trace_of hs) = 1 \/ hs = (Hang, w, []))
        /\ (recvs Client (trace_of rq) = 1 \/ rq = (Hang, w, []))
        /\ forall s n ans,
             In (EvRecv s n ans) (trace_of hs ++ trace_of rq) ->
             s = Client /\ n = BUFSIZE
             /\ forall d, ans = RecvData d -> List.length d <= BUFSIZE).
Proof.
  split; [|split].
  - intros w d q Hc Hi Hn.
    pose proof (@recv_whole Client BUFSIZE w d q Hc Hi Hn) as E.
    eexists. rewrite (subnegotiation_client_read _ E).
    rewrite (pure_run _ (pure_select_method d)). cbn.
    rewrite (pure_result _ w (pure_select_method d)). auto.
  - intros w d q Hc Hi Hn.
    pose proof (@recv_whole Client BUFSIZE w d q Hc Hi Hn) as E.
    eexists. rewrite (request_client_read _ E).
    rewrite (pure_result _ w (pure_parse_request d)). auto.
  - intros w. cbn zeta.
    rewrite subnegotiation_client_cases, request_client_cases.
    pose proof (@recv_log Client BUFSIZE w) as L.
    destruct (recv_cases Client BUFSIZE w)
      as [(d & w1 & E)|[(e & w1 & E)|E]]; rewrite E in *;
      cbn [is_socket_error trace_of snd] in *.
    + split; [now left|]. split; [now left|].
      intros s n ans [H|[H|[]]]; apply L; now left.
    + split; [now left|].
      destruct (is_ConnectionResetError (OSError e));
        (split; [now left|]); cbn;
        intros s n ans H; apply L; cbn; intuition discriminate.
    + split; [now right|]. split; [now right|]. intros s n ans [].
Qed.

Lemma single_read_per_phase_witness :
  let w := client_sends [RecvData [x05; x01]; RecvData [x00]] in
  List.length [x05; x01] <= BUFSIZE
  /\ (exists w',
        subnegotiation_client Client w =
          (Ret M_NOTAVAILABLE, w', [EvRecv Client BUFSIZE (RecvData [x05; x01])])
        /\ inbox (client w') = [RecvData [x00]]
        /\ closed (client w') = false)
  /\ select_method ([x05; x01] ++ [x00]) w = (Ret M_NOAUTH, w, []).
Proof.
  assert (H : List.length [x05; x01] <= BUFSIZE) by (cbn; unfold BUFSIZE; lia).
  split; [exact H|]. split; [|reflexivity].
  exact (proj1 single_read_per_phase
           (client_sends [RecvData [x05; x01]; RecvData [x00]])
           [x05; x01] [RecvData [x00]] eq_refl eq_refl H).
Defined.

(** ** The accept loop *)

Lemma main_iteration_dispatch (exit_status : bool) (t : threads)
  (a : accept_result) :
  fst (main_iteration exit_status t a) = Dispatch ->
  exit_status = false /\ activeCount t <= MAX_THREADS /\ a = Accepted
  /\ snd (main_iteration exit_status t a)
     = {| units := S (units t); others := others t |}.
Proof.
  unfold main_iteration. destruct exit_status; [discriminate|].
  destruct (Nat.ltb_spec MAX_THREADS (activeCount t)); [discriminate|].
  destruct a; try discriminate. auto.
Qed.

Lemma main_iteration_keeps (exit_status : bool) (t : threads)
  (a : accept_result) :
  fst (main_iteration exit_status t a) <> Dispatch ->
  snd (main_iteration exit_status t a) = t.
Proof.
  unfold main_iteration. destruct exit_status; [reflexivity|].
  destruct (MAX_THREADS <? activeCount t); [reflexivity|].
  destruct a; try reflexivity. cbn. congruence.
Qed.

(** The main thread is always counted, and no more than [MAX_THREADS]
    connections are alive. *)
Lemma reachable_invariant (t : threads) :
  reachable t -> 1 <= others t /\ units t <= MAX_THREADS.
Proof.
  induction 1 as [o | t t' Hr [Ho Hu] Hs].
  - cbn. unfold MAX_THREADS. lia.
  - destruct Hs as [exit_status t a | n o | n o]; cbn in *; try lia.
    destruct (fst (main_iteration exit_status t a)) eqn:E.
    1-3, 5: rewrite main_iteration_keeps by (rewrite E; discriminate); auto.
    apply main_iteration_dispatch in E.
    destruct E as (_ & Hc & _ & ->). unfold activeCount in Hc. cbn. lia.
Qed.

(** C8.  In every state of the thread table that the server can reach:
    when the number of connection threads is at or above [MAX_THREADS] the
    accept loop does not start a thread, whatever [accept] would return
    (it starts one only while the count is below the maximum), and the
    number of connection threads never exceeds [MAX_THREADS]. *)
Theorem concurrency_ceiling (t : threads) :
  reachable t ->
  (forall exit_status a,
     MAX_THREADS <= units t ->
     fst (main_iteration exit_status t a) <> Dispatch
     /\ snd (main_iteration exit_status t a) = t)
  /\ (forall exit_status a,
        fst (main_iteration exit_status t a) = Dispatch ->
        units t < MAX_THREADS)
  /\ units t <= MAX_THREADS.
Proof.
  intros Hr. destruct (reachable_invariant Hr) as [Ho Hu].
  assert (Hd : forall exit_status a,
             fst (main_iteration exit_status t a) = Dispatch ->
             units t < MAX_THREADS).
  { intros exit_status a E. apply main_iteration_dispatch in E.
    destruct E as (_ & Hc & _). unfold activeCount in Hc. lia. }
  split; [|split]; auto.
  intros exit_status a Hm.
  assert (Hn : fst (main_iteration exit_status t a) <> Dispatch).
  { intros E. apply Hd in E. lia. }
  split; [exact Hn | now apply main_iteration_keeps].
Qed.

Lemma reachable_fill (n : nat) :
  n <= MAX_THREADS -> reachable {| units := n; others := 1 |}.
Proof.
  induction n as [|n IH]; intros Hn; [apply reach_start|].
  apply reach_step with (t := {| units := n; others := 1 |});
    [apply IH; lia|].
  replace {| units := S n; others := 1 |}
    with (snd (main_iteration false {| units := n; others := 1 |} Accepted)).
  - apply step_main.
  - unfold main_iteration, activeCount. cbn [units others].
    destruct (Nat.ltb_spec MAX_THREADS (1 + n)); [lia | reflexivity].
Qed.

Lemma concurrency_ceiling_witness :
  reachable full_house
  /\ MAX_THREADS <= units full_house
  /\ fst (main_iteration false full_house Accepted) <> Dispatch.
Proof.
  assert (Hr : reachable full_house) by (apply reachable_fill; lia).
  assert (Hm : MAX_THREADS <= units full_house) by (cbn; lia).
  split; [exact Hr|]. split; [exact Hm|].
  exact (proj1 (proj1 (concurrency_ceiling Hr) false Accepted Hm)).
Defined.

Lemma relay_forwards_until_zero_length_read_witness :
  let r := proxy_loop 3 Client Dst relay_world in
  trace_of r =
    [EvSelect (SelReady [Client]);
     EvRecv Client BUFSIZE (RecvData [x47]);
     EvSend Dst [x47] (SendOk 1);
     EvSelect (SelReady [Dst]);
     EvRecv Dst BUFSIZE (RecvData [])]
  /\ result_of r = Ret tt.
Proof.
  split; [reflexivity|].
  exact (proj2 (proj1 (relay_forwards_until_zero_length_read 3 relay_world)
                  [EvSelect (SelReady [Client]);
                   EvRecv Client BUFSIZE (RecvData [x47]);
                   EvSend Dst [x47] (SendOk 1);
                   EvSelect (SelReady [Dst])]
                  Dst BUFSIZE [] eq_refl)).
Defined.

(* ================================================================== *)
(** * Further properties *)

(** ** What the handshake accepts and how it fails *)

Lemma scan_methods_noauth_inv (methods : bytes) :
  scan_methods methods = M_NOAUTH -> In x00 methods.
Proof.
  intros H. destruct (in_dec Byte.byte_eq_dec x00 methods) as [Hin|Hin];
    [exact Hin|].
  rewrite (scan_methods_notavailable _ Hin) in H. discriminate.
Qed.

Lemma select_method_noauth_inv (p : bytes) (w : world) :
  result_of (select_method p w) = Ret M_NOAUTH ->
  exists n methods,
    p = x05 :: n :: methods
    /\ N.of_nat (List.length methods) = Byte.to_N n
    /\ In x00 methods.
Proof.
  unfold select_method, slice, slice_from, index, bind, ret.
  destruct p as [|v [|n methods]]; cbn [skipn firstn Nat.sub nth_error].
  - cbn. discriminate.
  - destruct (bytes_eqb VER [v]); cbn; discriminate.
  - destruct (bytes_eqb VER [v]) eqn:Ev; cbn [negb]; [|cbn; discriminate].
    apply bytes_eqb_eq in Ev. inversion Ev; subst. cbn [app].
    destruct (N.eqb_spec (N.of_nat (List.length methods)) (Byte.to_N n))
      as [En|En]; cbn; [|discriminate].
    intros H. exists n, methods. repeat split; auto.
    apply scan_methods_noauth_inv. now inversion H.
Qed.

(** The outcome of [subnegotiation], by the outcome of its read. *)
Lemma subnegotiation_cases (w : world) :
  subnegotiation Client w =
  match subnegotiation_client Client w with
  | (Ret method, w1, t1) =>
      if bytes_eqb method M_NOAUTH
      then match sendall Client (VER ++ method) w1 with
           | (Ret _, w2, t2) => (Ret true, w2, t1 ++ t2)
           | (Raise e, w2, t2) =>
               if is_socket_error e then (Ret false, w2, t1 ++ t2)
               else (Raise e, w2, t1 ++ t2)
           | (Hang, w2, t2) => (Hang, w2, t1 ++ t2)
           end
      else (Ret false, w1, t1)
  | (Raise e, w1, t1) => (Raise e, w1, t1)
  | (Hang, w1, t1) => (Hang, w1, t1)
  end.
Proof.
  unfold subnegotiation.
  destruct (subnegotiation_client Client w) as [[[method|e|] w1] t1] eqn:E.
  2:{ apply (bind_raise _ E). }
  2:{ apply (bind_hang _ E). }
  rewrite (bind_ret _ E).
  destruct (bytes_eqb method M_NOAUTH); cbn [negb].
  2:{ cbn. now rewrite app_nil_r. }
  unfold try_except, bind at 1.
  destruct (sendall Client (VER ++ method) w1) as [[[[]|e|] w2] t2];
    cbn; rewrite ?app_nil_r; try reflexivity.
  destruct (is_socket_error e); cbn; now rewrite ?app_nil_r.
Qed.

(** X1.  [subnegotiation] returns [True] only for a packet with version
    0x05 whose method count equals the number of method bytes, with 0x00
    among them, and only after the reply 0x05 0x00 was written. *)
Theorem handshake_accepts_only_noauth (w : world) :
  result_of (subnegotiation Client w) = Ret true ->
  exists n methods k,
    N.of_nat (List.length methods) = Byte.to_N n
    /\ In x00 methods
    /\ trace_of (subnegotiation Client w) =
         [EvRecv Client BUFSIZE (RecvData (x05 :: n :: methods));
          EvSendall Client [x05; x00] (SendOk k)].
Proof.
  rewrite subnegotiation_cases, subnegotiation_client_cases.
  destruct (recv_cases Client BUFSIZE w)
    as [(d & w1 & E)|[(e & w1 & E)|E]]; rewrite E;
    cbn [is_socket_error]; try discriminate.
  destruct (result_of (select_method d w1)) as [method|e|] eqn:Em;
    try discriminate.
  destruct (bytes_eqb method M_NOAUTH) eqn:Eb; [|discriminate].
  apply bytes_eqb_eq in Eb. subst method.
  destruct (select_method_noauth_inv _ _ Em) as (n & methods & -> & Hn & Hin).
  destruct (sendall_cases Client (VER ++ M_NOAUTH) w1)
    as [(k & w2 & Es)|(e & w2 & Es)]; rewrite Es; cbn; [|discriminate].
  intros _. now exists n, methods, k.
Qed.

Lemma handshake_accepts_only_noauth_witness :
  result_of (subnegotiation Client (client_sends [RecvData hello_noauth]))
  = Ret true
  /\ exists n methods k,
       N.of_nat (List.length methods) = Byte.to_N n
       /\ In x00 methods
       /\ trace_of (subnegotiation Client
                      (client_sends [RecvData hello_noauth])) =
            [EvRecv Client BUFSIZE (RecvData (x05 :: n :: methods));
             EvSendall Client [x05; x00] (SendOk k)].
Proof.
  split; [reflexivity|].
  exact (@handshake_accepts_only_noauth
           (client_sends [RecvData hello_noauth]) eq_refl).
Defined.

(** X2.  A socket error in the handshake does not leave the thread
    function: when the read fails nothing is written, when the write of
    the reply fails nothing more is done; in both cases [connection]
    returns and the request phase is not entered. *)
Theorem handshake_socket_errors_contained (fuel : nat) (cfg : config)
  (w w1 : world) (t1 : list event) :
  (forall e,
     recv Client BUFSIZE w = (Raise (OSError e), w1, t1) ->
     connection fuel cfg Client w = (Ret tt, w1, t1))
  /\ (forall p e w2 t2,
        recv Client BUFSIZE w = (Ret p, w1, t1) ->
        result_of (select_method p w1) = Ret M_NOAUTH ->
        sendall Client [x05; x00] w1 = (Raise (OSError e), w2, t2) ->
        connection fuel cfg Client w = (Ret tt, w2, t1 ++ t2)).
Proof.
  split.
  - intros e E. unfold connection.
    erewrite bind_ret.
    2:{ rewrite subnegotiation_cases, subnegotiation_client_cases, E.
        reflexivity. }
    cbn. now rewrite app_nil_r.
  - intros p e w2 t2 E Em Es. unfold connection.
    erewrite bind_ret.
    2:{ rewrite subnegotiation_cases, subnegotiation_client_cases, E, Em.
        rewrite bytes_eqb_refl. unfold VER, M_NOAUTH. cbn [app].
        rewrite Es. reflexivity. }
    cbn. now rewrite app_nil_r.
Qed.

Lemma handshake_socket_errors_contained_witness :
  connection 1 shipped_config Client
    (client_sends [RecvRaise TimeoutError])
  = (Ret tt, client_sends [],
     [EvRecv Client BUFSIZE (RecvRaise TimeoutError)]).
Proof.
  exact (proj1 (@handshake_socket_errors_contained 1 shipped_config
                  (client_sends [RecvRaise TimeoutError]) (client_sends [])
                  [EvRecv Client BUFSIZE (RecvRaise TimeoutError)])
           TimeoutError eq_refl).
Defined.

(** ** The reply of the request phase *)

(** A port below 65536 is packed in two bytes that [unpack_H] reads
    back. *)
Lemma pack_H_unpack_H (n : N) (w : world) :
  (n < 65536)%N ->
  exists hi lo,
    pack_H n w = (Ret [hi; lo], w, [])
    /\ unpack_H [hi; lo] w = (Ret n, w, []).
Proof.
  intros Hn. unfold pack_H, unpack_H.
  destruct (Byte.of_N (n / 256)) as [hi|] eqn:Ehi.
  2:{ apply Byte.of_N_None_iff in Ehi.
      assert (n / 256 < 256)%N by (apply N.Div0.div_lt_upper_bound; lia).
      lia. }
  destruct (Byte.of_N (n mod 256)) as [lo|] eqn:Elo.
  2:{ apply Byte.of_N_None_iff in Elo.
      pose proof (N.mod_lt n 256). lia. }
  exists hi, lo. split; [reflexivity|].
  apply Byte.to_of_N in Ehi, Elo. rewrite Ehi, Elo.
  unfold ret. do 2 f_equal. f_equal.
  rewrite (N.div_mod n 256) at 3 by lia. lia.
Qed.

Lemma pack_H_cases (n : N) (w : world) :
  (exists hi lo, pack_H n w = (Ret [hi; lo], w, [])
                 /\ (Byte.to_N hi * 256 + Byte.to_N lo)%N = n)
  \/ (pack_H n w = (Raise StructError, w, []) /\ (65536 <= n)%N).
Proof.
  unfold pack_H.
  destruct (Byte.of_N (n / 256)) as [hi|] eqn:Ehi.
  2:{ right. split; [reflexivity|]. apply Byte.of_N_None_iff in Ehi.
      destruct (N.lt_ge_cases n 65536) as [Hlt|Hge]; [|exact Hge].
      assert (n / 256 < 256)%N by (apply N.Div0.div_lt_upper_bound; lia).
      lia. }
  destruct (Byte.of_N (n mod 256)) as [lo|] eqn:Elo.
  2:{ apply Byte.of_N_None_iff in Elo.
      pose proof (N.mod_lt n 256). lia. }
  left. exists hi, lo. split; [reflexivity|].
  apply Byte.to_of_N in Ehi, Elo. rewrite Ehi, Elo.
  rewrite (N.div_mod n 256) at 3 by lia. lia.
Qed.

(** Every way the second half of [request] can go. *)
Lemma reply_and_relay_shape (fuel : nat) (dst : option (dst_addr * N))
  (sd : option sock) (w : world) :
  sd = None \/ sd = Some Dst ->
  let r := reply_and_relay fuel Client dst sd w in
  (trace_of r = [] /\ result_of r = Raise StructError
   /\ is_false dst || is_zero sd = false
   /\ (65536 <= snd (sockname (outbound w)))%N)
  \/ (exists reply e,
        reply_of (is_false dst || is_zero sd) w reply
        /\ trace_of r = [EvSendall Client reply (SendRaise e); EvClose Client]
        /\ result_of r = Ret tt)
  \/ (exists k,
        is_false dst || is_zero sd = true
        /\ trace_of r =
             [EvSendall Client general_failure_reply (SendOk k);
              EvSleep 1; EvClose Client]
             ++ (if is_zero sd then [] else [EvClose Dst])
        /\ result_of r = Ret tt)
  \/ (exists reply k w1,
        is_false dst || is_zero sd = false
        /\ reply_of false w reply
        /\ sendall Client reply w =
             (Ret tt, w1, [EvSendall Client reply (SendOk k)])
        /\ trace_of r =
             EvSendall Client reply (SendOk k)
             :: trace_of (proxy_loop fuel Client Dst w1)
                ++ match result_of (proxy_loop fuel Client Dst w1) with
                   | Ret _ => [EvSleep 1; EvClose Client; EvClose Dst]
                   | _ => []
                   end
        /\ result_of r = result_of (proxy_loop fuel Client Dst w1)).
Proof.
  intros Hsd. cbn zeta. unfold reply_and_relay.
  set (bnd0 := [x00] ++ [x00] ++ [x00] ++ [x00] ++ [x00] ++ [x00]).
  destruct (is_false dst || is_zero sd) eqn:Hc.
  - (* failure reply *)
    rewrite bind_ret_l. cbn [fst snd].
    change (VER ++ [x01] ++ [x00] ++ ATYP_IPV4 ++ bnd0)
      with general_failure_reply.
    set (h := fun e : exn => _).
    destruct (sendall_cases Client general_failure_reply w)
      as [(k & w1 & E)|(e & w1 & E)].
    + assert (E1 : try_except (sendall Client general_failure_reply ;;
                               ret true) h w
                   = (Ret true, w1,
                      [EvSendall Client general_failure_reply (SendOk k)])).
      { apply try_ret. now rewrite (bind_ret _ E). }
      rewrite (bind_ret _ E1).
      right; right; left. exists k. split; [reflexivity|].
      destruct Hsd as [->| ->]; cbn; auto.
    + pose proof (bind_raise (fun _ => ret true) E) as E0.
      erewrite bind_ret.
      2:{ rewrite (try_caught h E0 (k := close Client ;; ret false))
            by reflexivity. reflexivity. }
      right; left. exists general_failure_reply, e. cbn.
      repeat split.
  - (* success reply *)
    apply orb_false_iff in Hc. destruct Hc as [_ Hz].
    destruct Hsd as [->| ->]; [discriminate|].
    set (m := (name <- getsockname ;; _)).
    destruct (pack_H_cases (snd (sockname (outbound w))) w)
      as [(hi & lo & Hp & Hv)|[Hp Hge]].
    2:{ assert (Em : m w = (Raise StructError, w, [])).
        { subst m. unfold bind at 1, getsockname at 1. unfold bind.
          now rewrite Hp. }
        rewrite (bind_raise _ Em). left. cbn. auto. }
    assert (Em : m w =
              (Ret ([x00], inet_aton (fst (sockname (outbound w)))
                           ++ [hi; lo]), w, [])).
    { subst m. unfold bind at 1, getsockname at 1. unfold bind.
      now rewrite Hp. }
    rewrite (bind_ret _ Em). cbn [fst snd app].
    set (reply := VER ++ _).
    assert (Hr : reply_of false w reply).
    { exists hi, lo. split; [reflexivity | exact Hv]. }
    set (h := fun e : exn => _).
    destruct (sendall_cases Client reply w) as [(k & w1 & E)|(e & w1 & E)].
    + assert (E1 : try_except (sendall Client reply ;; ret true) h w
                   = (Ret true, w1, [EvSendall Client reply (SendOk k)])).
      { apply try_ret. now rewrite (bind_ret _ E). }
      rewrite (bind_ret _ E1). rewrite bytes_eqb_refl.
      right; right; right. exists reply, k, w1.
      split; [reflexivity|]. split; [exact Hr|].
      split; [exact E|].
      destruct (proxy_loop fuel Client Dst w1) as [[[[]|e|] w2] t2] eqn:El.
      * rewrite (bind_ret _ El). cbn. auto.
      * rewrite (bind_raise _ El). cbn. now rewrite app_nil_r.
      * rewrite (bind_hang _ El). cbn. now rewrite app_nil_r.
    + pose proof (bind_raise (fun _ => ret true) E) as E0.
      erewrite bind_ret.
      2:{ rewrite (try_caught h E0 (k := close Client ;; ret false))
            by reflexivity. reflexivity. }
      right; left. exists reply, e. cbn. auto.
Qed.

(** [request] as the sequence of its three parts. *)
Lemma request_unfold (fuel : nat) (cfg : config) (w : world) :
  request fuel cfg Client w =
  match request_client Client w with
  | (Ret (Some (a, p)), w1, t1) =>
      match connect_to_dst cfg a p w1 with
      | (Ret sd, w2, t2) =>
          let '(o, w3, t3) :=
            reply_and_relay fuel Client (Some (a, p)) sd w2 in
          (o, w3, t1 ++ t2 ++ t3)
      | (Raise e, w2, t2) => (Raise e, w2, t1 ++ t2)
      | (Hang, w2, t2) => (Hang, w2, t1 ++ t2)
      end
  | (Ret None, w1, t1) =>
      let '(o, w3, t3) := reply_and_relay fuel Client None None w1 in
      (o, w3, t1 ++ t3)
  | (Raise e, w1, t1) => (Raise e, w1, t1)
  | (Hang, w1, t1) => (Hang, w1, t1)
  end.
Proof.
  unfold request, bind at 1.
  destruct (request_client Client w) as [[[[[a p]|]|e|] w1] t1];
    try reflexivity.
  - unfold bind at 1.
    destruct (connect_to_dst cfg a p w1) as [[[sd|e|] w2] t2];
      try reflexivity.
    destruct (reply_and_relay fuel Client (Some (a, p)) sd w2)
      as [[o w3] t3].
    reflexivity.
  - rewrite bind_ret_l. reflexivity.
Qed.

(** X3.  A request that the parser turns down (a command other than
    CONNECT, a wrong version or reserved byte, an address type other than
    IPv4 and domain name, IPv6 included) never reaches the outbound side:
    when the reply is written, the whole run of [request] is the read, the
    general-failure reply, the one-second sleep and one [close] of the
    client socket. *)
Theorem rejected_request_run (fuel : nat) (cfg : config) (w w1 w2 : world)
  (t1 : list event) (frame : bytes) (k : nat) :
  recv Client BUFSIZE w = (Ret frame, w1, t1) ->
  result_of (parse_request frame w1) = Ret None ->
  sendall Client general_failure_reply w1 =
    (Ret tt, w2, [EvSendall Client general_failure_reply (SendOk k)]) ->
  result_of (request fuel cfg Client w) = Ret tt
  /\ trace_of (request fuel cfg Client w) =
       [EvRecv Client BUFSIZE (RecvData frame);
        EvSendall Client general_failure_reply (SendOk k);
        EvSleep 1; EvClose Client].
Proof.
  intros Hr Hp Hs.
  destruct (recv_ret_log _ _ _ Hr) as [-> _].
  rewrite request_unfold, (request_client_read _ Hr), Hp.
  unfold reply_and_relay. cbn [is_false is_zero orb].
  rewrite bind_ret_l. cbn [fst snd].
  change (VER ++ [x01] ++ [x00] ++ ATYP_IPV4 ++ _)
    with general_failure_reply.
  erewrite bind_ret.
  2:{ apply try_ret. rewrite (bind_ret _ Hs). reflexivity. }
  cbn. auto.
Qed.

Lemma rejected_request_run_witness :
  let frame := [x05; x01; x00; x04] ++ repeat x00 18 in
  let w := client_sends [RecvData frame] in
  result_of (parse_request frame (client_sends [])) = Ret None
  /\ trace_of (request 1 shipped_config Client w) =
       [EvRecv Client BUFSIZE (RecvData frame);
        EvSendall Client general_failure_reply (SendOk 10);
        EvSleep 1; EvClose Client].
Proof.
  split; [reflexivity|].
  exact (proj2 (@rejected_request_run 1 shipped_config
                  (client_sends [RecvData ([x05; x01; x00; x04]
                                           ++ repeat x00 18)])
                  (client_sends []) (client_sends []) _ _ 10
                  eq_refl eq_refl eq_refl)).
Defined.

(** ** The outbound connect, without an interface configured *)

Lemma connect_to_dst_plain (cfg : config) (a : dst_addr) (p : N)
  (w : world) :
  OUTGOING_INTERFACE cfg = EmptyString ->
  connect_to_dst cfg a p w =
  match on_socket (outbound w) with
  | Some err => (Raise SystemExit, w, [EvSocket (Some err)])
  | None =>
      if has_nul a then (Raise TypeError, fresh_dst w, [EvSocket None])
      else
        match on_connect (outbound w) with
        | Some err =>
            (Ret None, fresh_dst w,
             [EvSocket None; EvConnect a p (Some err)])
        | None =>
            match on_nodelay (outbound w) with
            | Some err =>
                (Ret None, fresh_dst w,
                 [EvSocket None; EvConnect a p None; EvNoDelay (Some err)])
            | None =>
                (Ret (Some Dst), fresh_dst w,
                 [EvSocket None; EvConnect a p None; EvNoDelay None])
            end
        end
  end.
Proof.
  intros Hi.
  unfold connect_to_dst, create_socket, connect, setsockopt_nodelay, error,
    bind, try_except, ret.
  rewrite Hi. cbn [String.eqb].
  destruct (on_socket (outbound w)); [reflexivity|].
  cbn. destruct (has_nul a); [reflexivity|].
  cbn. destruct (on_connect (outbound w)); [reflexivity|].
  cbn. destruct (on_nodelay (outbound w)); reflexivity.
Qed.

(** X4.  With no outgoing interface configured, [connect_to_dst] never
    binds to a device, leaves the exit flag and the rest of the state
    alone (but for the new outbound socket), and lets no socket error out:
    a failed connect, and also a failed TCP_NODELAY after a successful
    connect, is reported as [0].  Two exceptions can leave it:
    [SystemExit], exactly when the socket cannot be created, and
    [TypeError], exactly when the socket was created and the host name
    holds a NUL byte, which [connect] refuses. *)
Theorem connect_to_dst_without_interface (cfg : config) (a : dst_addr)
  (p : N) (w : world) :
  OUTGOING_INTERFACE cfg = EmptyString ->
  let r := connect_to_dst cfg a p w in
  world_of r = match on_socket (outbound w) with
               | Some _ => w
               | None => fresh_dst w
               end
  /\ (forall ifname res, ~ In (EvBindToDevice ifname res) (trace_of r))
  /\ (forall status, ~ In (EvSetExit status) (trace_of r))
  /\ (result_of r = Ret (Some Dst) <->
      on_socket (outbound w) = None /\ has_nul a = false
      /\ on_connect (outbound w) = None
      /\ on_nodelay (outbound w) = None)
  /\ (result_of r = Ret None <->
      on_socket (outbound w) = None /\ has_nul a = false
      /\ (on_connect (outbound w) <> None
          \/ on_nodelay (outbound w) <> None))
  /\ (result_of r = Raise SystemExit <-> on_socket (outbound w) <> None)
  /\ (result_of r = Raise TypeError <->
      on_socket (outbound w) = None /\ has_nul a = true)
  /\ (forall e, result_of r = Raise e -> e = SystemExit \/ e = TypeError).
Proof.
  intros Hi. cbn zeta. rewrite (@connect_to_dst_plain cfg a p w Hi).
  destruct (on_socket (outbound w)) as [es|];
    [| destruct (has_nul a);
       [| destruct (on_connect (outbound w)) as [ec|];
          [| destruct (on_nodelay (outbound w)) as [en|]]]];
    cbn [world_of result_of trace_of fst snd];
    (split; [reflexivity|]);
    (split; [intros ifname res H;
             repeat (destruct H as [H|H]; [discriminate H|]); exact H|]);
    (split; [intros status H;
             repeat (destruct H as [H|H]; [discriminate H|]); exact H|]);
    (split; [split; [intros H; try discriminate H; auto
                    | intros (H1 & H2 & H3 & H4);
                      try discriminate; reflexivity]|]);
    (split; [split; [intros H; try discriminate H;
                     (split; [reflexivity|]); (split; [reflexivity|]);
                     first [left; discriminate | right; discriminate]
                    | intros (H1 & H2 & [H3|H3]);
                      try discriminate; try reflexivity;
                      exfalso; apply H3; reflexivity]|]);
    (split; [split; [intros H; try discriminate H; discriminate
                    | intros H; try reflexivity;
                      exfalso; apply H; reflexivity]|]);
    (split; [split; [intros H; try discriminate H; auto
                    | intros (H1 & H2); try discriminate; reflexivity]|]);
    intros e H; inversion H; auto.
Qed.

Lemma connect_to_dst_without_interface_witness :
  let w := with_outbound (client_sends []) net_refused in
  OUTGOING_INTERFACE shipped_config = EmptyString
  /\ result_of (connect_to_dst shipped_config (AddrDomain [x61]) 80 w)
     = Ret None
  /\ world_of (connect_to_dst shipped_config (AddrDomain [x61]) 80 w) = w.
Proof.
  split; [reflexivity|]. split; [reflexivity|].
  exact (proj1 (@connect_to_dst_without_interface shipped_config
                  (AddrDomain [x61]) 80
                  (with_outbound (client_sends []) net_refused) eq_refl)).
Defined.

(** A write on the client socket does not depend on the outbound
    handle. *)
Lemma sendall_client_fresh (d : bytes) (w : world) :
  sendall Client d (fresh_dst w)
  = (let '(o, w', t) := sendall Client d w in (o, fresh_dst w', t)).
Proof.
  unfold sendall, bind, write, ret, fresh_dst. cbn.
  destruct (closed (client w)); [reflexivity|].
  destruct (outbox (client w)) as [|[k|e] q]; reflexivity.
Qed.

(** X5.  A CONNECT request whose destination cannot be reached: the
    socket is created, the connect fails, the general-failure reply is
    written and the client socket is closed once; [close] is never called
    on the socket that was created for the attempt.  When the host name
    holds a NUL byte the connect does not get that far: it is refused with
    a [TypeError] that ends [request] right after the socket was made,
    with no reply and no [close]. *)
Theorem failed_connect_run (fuel : nat) (cfg : config) (w w1 w2 : world)
  (t1 : list event) (frame : bytes) (a : dst_addr) (p : N) (e : os_error)
  (k : nat) :
  recv Client BUFSIZE w = (Ret frame, w1, t1) ->
  result_of (parse_request frame w1) = Ret (Some (a, p)) ->
  OUTGOING_INTERFACE cfg = EmptyString ->
  on_socket (outbound w1) = None ->
  on_connect (outbound w1) = Some e ->
  sendall Client general_failure_reply w1 =
    (Ret tt, w2, [EvSendall Client general_failure_reply (SendOk k)]) ->
  if has_nul a
  then
    result_of (request fuel cfg Client w) = Raise TypeError
    /\ trace_of (request fuel cfg Client w) =
         [EvRecv Client BUFSIZE (RecvData frame); EvSocket None]
  else
    result_of (request fuel cfg Client w) = Ret tt
    /\ trace_of (request fuel cfg Client w) =
         [EvRecv Client BUFSIZE (RecvData frame);
          EvSocket None; EvConnect a p (Some e);
          EvSendall Client general_failure_reply (SendOk k);
          EvSleep 1; EvClose Client]
    /\ closes Dst (trace_of (request fuel cfg Client w)) = 0.
Proof.
  intros Hr Hp Hi Hso Hco Hs.
  destruct (recv_ret_log _ _ _ Hr) as [-> _].
  rewrite request_unfold, (request_client_read _ Hr), Hp.
  rewrite (@connect_to_dst_plain cfg a p w1 Hi), Hso.
  destruct (has_nul a); [split; reflexivity|].
  rewrite Hco.
  assert (E : reply_and_relay fuel Client (Some (a, p)) None (fresh_dst w1)
              = (Ret tt, world_of (close Client (fresh_dst w2)),
                 [EvSendall Client general_failure_reply (SendOk k);
                  EvSleep 1; EvClose Client])).
  { unfold reply_and_relay. cbn [is_false is_zero orb].
    rewrite bind_ret_l. cbn [fst snd].
    change (VER ++ [x01] ++ [x00] ++ ATYP_IPV4 ++ _)
      with general_failure_reply.
    erewrite bind_ret.
    2:{ apply try_ret. erewrite bind_ret.
        2:{ rewrite sendall_client_fresh, Hs. reflexivity. }
        reflexivity. }
    reflexivity. }
  rewrite E. repeat split.
Qed.

Lemma failed_connect_run_witness :
  let w := with_outbound (client_sends [RecvData connect_request])
             net_refused in
  OUTGOING_INTERFACE shipped_config = EmptyString
  /\ result_of (request 1 shipped_config Client w) = Ret tt
  /\ closes Client (trace_of (request 1 shipped_config Client w)) = 1.
Proof.
  split; [reflexivity|].
  destruct (@failed_connect_run 1 shipped_config
              (with_outbound (client_sends [RecvData connect_request])
                 net_refused)
              (with_outbound (client_sends []) net_refused)
              (with_outbound (client_sends []) net_refused)
              _ connect_request
              (AddrIPv4 (x7f, x00, x00, x01)) 80 OtherOSError 10
              eq_refl eq_refl eq_refl eq_refl eq_refl eq_refl)
    as (Hres & Ht & _).
  split; [exact Hres|]. rewrite Ht. reflexivity.
Defined.

(** X6.  When the outbound socket is connected and bound to a port below
    65536, the reply that [request] hands to [sendall] is 05 00 00 01
    followed by the four octets of the local address and the local port in
    two bytes, which [unpack_H] reads back as that port. *)
Theorem success_reply_carries_bound_address (fuel : nat) (cfg : config)
  (w w1 w2 : world) (t1 t2 : list event) (frame : bytes) (a : dst_addr)
  (p : N) :
  recv Client BUFSIZE w = (Ret frame, w1, t1) ->
  result_of (parse_request frame w1) = Ret (Some (a, p)) ->
  connect_to_dst cfg a p w1 = (Ret (Some Dst), w2, t2) ->
  (snd (sockname (outbound w2)) < 65536)%N ->
  exists hi lo res t3,
    trace_of (request fuel cfg Client w) =
      t1 ++ t2
      ++ EvSendall Client
           ([x05; x00; x00; x01]
            ++ inet_aton (fst (sockname (outbound w2))) ++ [hi; lo]) res
         :: t3
    /\ unpack_H [hi; lo] w2 = (Ret (snd (sockname (outbound w2))), w2, []).
Proof.
  intros Hr Hp Hc Hport.
  rewrite request_unfold, (request_client_read _ Hr), Hp, Hc.
  pose proof (@reply_and_relay_shape fuel (Some (a, p)) (Some Dst) w2
                (or_intror eq_refl)) as S.
  cbn zeta in S.
  destruct (reply_and_relay fuel Client (Some (a, p)) (Some Dst) w2)
    as [[o w3] t3].
  cbn [trace_of result_of fst snd is_false is_zero orb] in S.
  destruct S as [(_ & _ & _ & Hge)
                |[(reply & e & Hrep & -> & _)
                 |[(k & Hf & _)
                  |(reply & k & w4 & _ & Hrep & _ & -> & _)]]].
  - lia.
  - destruct Hrep as (hi & lo & -> & Hv).
    exists hi, lo, (SendRaise e), [EvClose Client]. split; [reflexivity|].
    unfold unpack_H, ret. now rewrite Hv.
  - discriminate.
  - destruct Hrep as (hi & lo & -> & Hv).
    eexists hi, lo, (SendOk k), _. split; [reflexivity|].
    unfold unpack_H, ret. now rewrite Hv.
Qed.

Lemma success_reply_carries_bound_address_witness :
  let r := request 5 shipped_config Client
             (client_sends [RecvData connect_request; RecvData []]) in
  (snd (sockname net_ok) < 65536)%N
  /\ exists hi lo res t3,
       trace_of r =
         [EvRecv Client BUFSIZE (RecvData connect_request)]
         ++ [EvSocket None;
             EvConnect (AddrIPv4 (x7f, x00, x00, x01)) 80 None;
             EvNoDelay None]
         ++ EvSendall Client
              ([x05; x00; x00; x01] ++ [x0a; x00; x00; x01] ++ [hi; lo]) res
            :: t3
       /\ unpack_H [hi; lo] (client_sends [RecvData []])
          = (Ret 4000%N, client_sends [RecvData []], []).
Proof.
  assert (H : (snd (sockname net_ok) < 65536)%N) by (cbn; lia).
  split; [exact H|].
  exact (@success_reply_carries_bound_address 5 shipped_config
           (client_sends [RecvData connect_request; RecvData []])
           (client_sends [RecvData []]) (client_sends [RecvData []])
           _ _ connect_request (AddrIPv4 (x7f, x00, x00, x01)) 80
           eq_refl eq_refl eq_refl H).
Defined.

(** ** One reply, before any relayed byte *)

Lemma reply_and_relay_events (fuel : nat) (dst : option (dst_addr * N))
  (sd : option sock) (w : world) :
  sd = None \/ sd = Some Dst ->
  Forall tail_event (trace_of (reply_and_relay fuel Client dst sd w)).
Proof.
  intros Hsd.
  destruct (reply_and_relay_shape fuel dst w Hsd)
    as [(-> & _)
       |[(reply & e & _ & -> & _)
        |[(k & _ & -> & _)
         |(reply & k & w1 & _ & _ & _ & -> & _)]]].
  - constructor.
  - repeat (constructor; [exact I|]). constructor.
  - destruct (is_zero sd); cbn; repeat (constructor; [exact I|]);
      constructor.
  - constructor; [exact I|]. apply Forall_app. split.
    + destruct (proxy_loop_spec fuel w1) as (He & _).
      eapply Forall_impl; [|exact He]. now intros [].
    + destruct (result_of (proxy_loop fuel Client Dst w1));
        repeat (constructor; [exact I|]); constructor.
Qed.

Lemma sendalls_app (s : sock) (t1 t2 : list event) :
  sendalls s (t1 ++ t2) = sendalls s t1 + sendalls s t2.
Proof. unfold sendalls. now rewrite filter_app, length_app. Qed.

Lemma sendalls_none (s : sock) (P : event -> Prop) (t : list event) :
  Forall P t -> (forall e, P e -> is_sendall s e = false) ->
  sendalls s t = 0.
Proof.
  intros Ht HP. unfold sendalls.
  induction Ht as [|e t He Ht IH]; [reflexivity|].
  cbn. now rewrite (HP e He).
Qed.

Lemma split_after_prefix (P : event -> Prop) (l1 l2 t1 t2 : list event)
  (x : event) :
  Forall P l1 -> ~ P x -> l1 ++ l2 = t1 ++ x :: t2 ->
  exists t1', t1 = l1 ++ t1' /\ l2 = t1' ++ x :: t2.
Proof.
  intros Hl Hx. revert t1. induction Hl as [|e l1 He Hl IH]; intros t1 E.
  - now exists t1.
  - destruct t1 as [|e1 t1]; cbn in E; inversion E; subst.
    + contradiction.
    + destruct (IH _ H1) as (t1' & -> & ->). now exists t1'.
Qed.

(** The three parts of the log of [request]. *)
Lemma request_log (fuel : nat) (cfg : config) (w : world) :
  exists t1 t2 t3 dst sd w2,
    trace_of (request fuel cfg Client w) = t1 ++ t2 ++ t3
    /\ Forall (fun e => is_recv Client e = true \/ is_close Client e = true) t1
    /\ Forall connect_event t2
    /\ (sd = None \/ sd = Some Dst)
    /\ (t3 = []
        \/ t3 = trace_of (reply_and_relay fuel Client dst sd w2)).
Proof.
  rewrite request_unfold.
  pose proof (request_client_log w) as L1.
  destruct (request_client Client w) as [[[[[a p]|]|e|] w1] t1];
    cbn [trace_of snd] in L1.
  - destruct (connect_to_dst_log cfg a p w1) as (L2 & Ls & _).
    cbn zeta in *.
    destruct (connect_to_dst cfg a p w1) as [[[sd|e|] w2] t2];
      cbn [trace_of result_of fst snd] in *.
    + assert (Hsd : sd = None \/ sd = Some Dst).
      { destruct sd as [sd|]; [right|now left].
        now destruct (Ls sd eq_refl) as [-> _]. }
      exists t1, t2, (trace_of (reply_and_relay fuel Client
                                  (Some (a, p)) sd w2)),
        (Some (a, p)), sd, w2.
      destruct (reply_and_relay _ _ _ _ w2) as [[o w3] t3]. cbn. auto 6.
    + exists t1, t2, [], None, None, w2. cbn. rewrite app_nil_r. auto 6.
    + exists t1, t2, [], None, None, w2. cbn. rewrite app_nil_r. auto 6.
  - exists t1, [], (trace_of (reply_and_relay fuel Client None None w1)),
      None, None, w1.
    destruct (reply_and_relay _ _ _ _ w1) as [[o w3] t3]. cbn. auto 6.
  - exists t1, [], [], None, None, w1. cbn. rewrite app_nil_r. auto 6.
  - exists t1, [], [], None, None, w1. cbn. rewrite app_nil_r. auto 6.
Qed.

Lemma reply_of_layout (failed : bool) (w : world) (reply : bytes) :
  reply_of failed w reply ->
  List.length reply = 10
  /\ exists st rest,
       reply = x05 :: st :: x00 :: x01 :: rest
       /\ st = (if failed then x01 else x00).
Proof.
  destruct failed; cbn.
  - intros ->. split; [reflexivity|]. now eexists _, _.
  - intros (hi & lo & -> & _).
    destruct (fst (sockname (outbound w))) as [[[a1 a2] a3] a4].
    split; [reflexivity|]. now eexists _, _.
Qed.

(** X7.  In every run of [request]: at most one [sendall] is made; what
    it carries is a 10-byte reply 05 st 00 01 ... with status [st] 0x00 or
    0x01; and whenever a chunk is handed to [send] (a relayed byte flows),
    a reply with status 0x00 was written to the client, successfully,
    before it. *)
Theorem one_reply_before_relay (fuel : nat) (cfg : config) (w : world) :
  let t := trace_of (request fuel cfg Client w) in
  sendalls Client t <= 1
  /\ (forall s reply r,
        In (EvSendall s reply r) t ->
        s = Client /\ List.length reply = 10
        /\ exists st rest,
             reply = x05 :: st :: x00 :: x01 :: rest
             /\ (st = x00 \/ st = x01))
  /\ (forall t1 s d r t2,
        t = t1 ++ EvSend s d r :: t2 ->
        exists rest k,
          In (EvSendall Client (x05 :: x00 :: rest) (SendOk k)) t1).
Proof.
  cbn zeta.
  destruct (request_log fuel cfg w)
    as (l1 & l2 & l3 & dst & sd & w2 & -> & L1 & L2 & Hsd & H3).
  assert (N1 : forall e, In e (l1 ++ l2) ->
                 match e with
                 | EvSendall _ _ _ | EvSend _ _ _ => False
                 | _ => True
                 end).
  { intros e He. apply in_app_or in He. destruct He as [He|He].
    - rewrite Forall_forall in L1. apply L1 in He.
      destruct e; cbn in He; try exact I; destruct He; discriminate.
    - rewrite Forall_forall in L2. apply L2 in He.
      destruct e; try exact I; contradiction. }
  assert (S12 : sendalls Client (l1 ++ l2) = 0).
  { eapply sendalls_none with
      (P := fun e => match e with
                     | EvSendall _ _ _ | EvSend _ _ _ => False
                     | _ => True
                     end).
    - now apply Forall_forall.
    - now intros []. }
  rewrite app_assoc.
  destruct H3 as [-> | ->].
  { rewrite app_nil_r. split; [lia|]. split.
    - intros s reply r Hin. now apply N1 in Hin.
    - intros t1 s d r t2 E.
      assert (Hin : In (EvSend s d r) (l1 ++ l2))
        by (rewrite E; apply in_elt).
      now apply N1 in Hin. }
  pose proof (@reply_and_relay_shape fuel dst sd w2 Hsd) as S.
  cbn zeta in S.
  set (failed := is_false dst || is_zero sd) in *.
  destruct S as [(E3 & _)
                |[(reply & e & Hrep & E3 & _)
                 |[(k & Hf & E3 & _)
                  |(reply & k & w3 & Hf & Hrep & _ & E3 & _)]]];
    rewrite E3; clear E3.
  - (* no reply at all *)
    rewrite app_nil_r. split; [lia|]. split.
    + intros s reply r Hin. now apply N1 in Hin.
    + intros t1 s d r t2 E.
      assert (Hin : In (EvSend s d r) (l1 ++ l2))
        by (rewrite E; apply in_elt).
      now apply N1 in Hin.
  - (* the write of the reply failed *)
    destruct (reply_of_layout _ _ _ Hrep) as (Hlen & st & rest & -> & Hst).
    rewrite sendalls_app, S12. split; [cbn; lia|]. split.
    + intros s reply r Hin. apply in_app_or in Hin.
      destruct Hin as [Hin|[Hin|[Hin|[]]]];
        [now apply N1 in Hin| |discriminate].
      inversion Hin; subst. repeat split; auto.
      eexists _, _. split; [reflexivity|]. destruct failed; auto.
    + intros t1 s d r t2 E.
      assert (Hin : In (EvSend s d r)
                      ((l1 ++ l2) ++ [EvSendall Client
                                        (x05 :: st :: x00 :: x01 :: rest)
                                        (SendRaise e); EvClose Client]))
        by (rewrite E; apply in_elt).
      apply in_app_or in Hin.
      destruct Hin as [Hin|[Hin|[Hin|[]]]];
        [now apply N1 in Hin|discriminate|discriminate].
  - (* the general-failure reply *)
    rewrite sendalls_app, S12. split.
    { destruct (is_zero sd); cbn; lia. }
    split.
    + intros s reply r Hin. apply in_app_or in Hin.
      destruct Hin as [Hin|Hin]; [now apply N1 in Hin|].
      assert (Hg : EvSendall Client general_failure_reply (SendOk k)
                   = EvSendall s reply r).
      { destruct (is_zero sd); cbn in Hin;
          repeat (destruct Hin as [Hin|Hin]; try discriminate; auto);
          contradiction. }
      inversion Hg; subst. repeat split; auto.
      eexists _, _. split; [reflexivity|]. now right.
    + intros t1 s d r t2 E.
      assert (Hin : In (EvSend s d r)
                      ((l1 ++ l2)
                       ++ [EvSendall Client general_failure_reply (SendOk k);
                           EvSleep 1; EvClose Client]
                       ++ (if is_zero sd then [] else [EvClose Dst])))
        by (rewrite E; apply in_elt).
      apply in_app_or in Hin. destruct Hin as [Hin|Hin];
        [now apply N1 in Hin|].
      destruct (is_zero sd); cbn in Hin;
        repeat (destruct Hin as [Hin|Hin]; try discriminate);
        contradiction.
  - (* the success reply, then the relay *)
    destruct (reply_of_layout _ _ _ Hrep) as (Hlen & st & rest & -> & ->).
    destruct (proxy_loop_spec fuel w3) as (He & _).
    set (tl := trace_of (proxy_loop fuel Client Dst w3)) in *.
    set (te := match result_of (proxy_loop fuel Client Dst w3) with
               | Ret _ => [EvSleep 1; EvClose Client; EvClose Dst]
               | _ => []
               end).
    assert (Ste : forall e, In e te ->
                    match e with
                    | EvSendall _ _ _ | EvSend _ _ _ => False
                    | _ => True
                    end).
    { subst te. intros e Hin.
      destruct (result_of (proxy_loop fuel Client Dst w3)); cbn in Hin;
        repeat (destruct Hin as [Hin|Hin]; [subst e; exact I|]);
        contradiction. }
    split; [|split].
    + rewrite sendalls_app, S12.
      change (EvSendall Client (x05 :: x00 :: x00 :: x01 :: rest) (SendOk k)
              :: tl ++ te)
        with ([EvSendall Client (x05 :: x00 :: x00 :: x01 :: rest) (SendOk k)]
              ++ tl ++ te).
      rewrite !sendalls_app.
      rewrite (sendalls_none Client He) by (now intros []).
      rewrite (@sendalls_none Client
                 (fun e => match e with
                           | EvSendall _ _ _ | EvSend _ _ _ => False
                           | _ => True
                           end) te)
        by (try (now apply Forall_forall); now intros []).
      cbn. lia.
    + intros s reply r Hin. apply in_app_or in Hin.
      destruct Hin as [Hin|[Hin|Hin]]; [now apply N1 in Hin| |].
      * inversion Hin; subst. repeat split; auto.
        eexists _, _. split; [reflexivity|]. now left.
      * apply in_app_or in Hin. destruct Hin as [Hin|Hin].
        -- rewrite Forall_forall in He. apply He in Hin. contradiction.
        -- now apply Ste in Hin.
    + intros t1 s d r t2 E.
      pose proof (proj2 (Forall_forall _ _) N1) as F1.
      destruct (@split_after_prefix _ (l1 ++ l2) _ t1 t2 (EvSend s d r)
                  F1 (fun H => H) E) as (t1' & -> & E').
      destruct t1' as [|e1 t1']; cbn in E'; inversion E'; subst.
      exists (x00 :: x01 :: rest), k. apply in_or_app. right. now left.
Qed.

Lemma one_reply_before_relay_witness :
  let t := trace_of (request 5 shipped_config Client
                       (client_sends [RecvData connect_request;
                                      RecvData []])) in
  t = [EvRecv Client BUFSIZE (RecvData connect_request);
       EvSocket None;
       EvConnect (AddrIPv4 (x7f, x00, x00, x01)) 80 None;
       EvNoDelay None;
       EvSendall Client [x05; x00; x00; x01; x0a; x00; x00; x01; x0f; xa0]
         (SendOk 10);
       EvSelect (SelReady []); EvSelect (SelReady []);
       EvSelect (SelReady []); EvSelect (SelReady []);
       EvSelect (SelReady [])]
  /\ sendalls Client t <= 1.
Proof.
  split; [reflexivity|].
  exact (proj1 (one_reply_before_relay 5 shipped_config
                  (client_sends [RecvData connect_request; RecvData []]))).
Defined.

(** ** When the outbound side is touched *)

Lemma connect_to_dst_target (cfg : config) (a a' : dst_addr) (p p' : N)
  (r : option os_error) (w : world) :
  In (EvConnect a' p' r) (trace_of (connect_to_dst cfg a p w)) ->
  a' = a /\ p' = p.
Proof.
  unfold connect_to_dst, create_socket, setsockopt_bindtodevice, connect,
    setsockopt_nodelay, set_status, error, bind, try_except, ret.
  destruct (on_socket (outbound w)); cbn.
  { intros [H|[]]. discriminate. }
  destruct (String.eqb (OUTGOING_INTERFACE cfg) EmptyString); cbn;
    [| destruct (on_bindtodevice (outbound w)) as [[]|]; cbn ];
    destruct (has_nul a); cbn;
    try destruct (on_connect (outbound w)); cbn;
    try destruct (on_nodelay (outbound w)); cbn;
    intros H;
    repeat (destruct H as [H|H];
            [try discriminate; inversion H; subst; auto|]);
    contradiction.
Qed.

(** X8.  The outbound side is touched (socket creation, device binding,
    connect, TCP_NODELAY) only after a successful handshake and a request
    that the parser accepted, and a connect goes to the address and port
    that the parser returned. *)
Theorem outbound_only_for_parsed_request (fuel : nat) (cfg : config)
  (w : world) (e : event) :
  In e (trace_of (connection fuel cfg Client w)) ->
  connect_event e ->
  result_of (subnegotiation Client w) = Ret true
  /\ exists a p,
       result_of (request_client Client
                    (world_of (subnegotiation Client w)))
       = Ret (Some (a, p))
       /\ forall a' p' r, e = EvConnect a' p' r -> a' = a /\ p' = p.
Proof.
  intros Hin He. unfold connection in Hin. rewrite bind_trace in Hin.
  apply in_app_or in Hin. destruct Hin as [Hin|Hin].
  { pose proof (subnegotiation_log w) as L. rewrite Forall_forall in L.
    apply L in Hin. destruct e; try contradiction; destruct s; contradiction. }
  destruct (result_of (subnegotiation Client w)) as [[|]|x|];
    try contradiction.
  split; [reflexivity|].
  set (w1 := world_of (subnegotiation Client w)) in *.
  rewrite request_unfold in Hin.
  pose proof (request_client_log w1) as L1. rewrite Forall_forall in L1.
  assert (N1 : ~ In e (trace_of (request_client Client w1))).
  { intros H. apply L1 in H.
    destruct e; try contradiction; cbn in H; destruct H; discriminate. }
  assert (N3 : forall dst sd w2, sd = None \/ sd = Some Dst ->
                 ~ In e (trace_of (reply_and_relay fuel Client dst sd w2))).
  { intros dst sd w2 Hsd H.
    pose proof (@reply_and_relay_events fuel dst sd w2 Hsd) as L.
    rewrite Forall_forall in L. apply L in H.
    destruct e; contradiction. }
  destruct (request_client Client w1) as [[[[[a p]|]|x|] w2] t1];
    cbn [trace_of snd result_of fst] in *.
  - exists a, p. split; [reflexivity|].
    intros a' p' r ->.
    destruct (connect_to_dst_log cfg a p w2) as (_ & Ls & _).
    pose proof (@connect_to_dst_target cfg a a' p p' r w2) as T.
    cbn zeta in *.
    destruct (connect_to_dst cfg a p w2) as [[[sd|x|] w3] t2];
      cbn [trace_of snd result_of fst] in *.
    + assert (Hsd : sd = None \/ sd = Some Dst).
      { destruct sd as [sd|]; [right|now left].
        now destruct (Ls sd eq_refl) as [-> _]. }
      specialize (N3 (Some (a, p)) sd w3 Hsd).
      destruct (reply_and_relay fuel Client (Some (a, p)) sd w3)
        as [[o w4] t3].
      cbn in Hin, N3. apply in_app_or in Hin.
      destruct Hin as [Hin|Hin]; [contradiction|].
      apply in_app_or in Hin. destruct Hin as [Hin|Hin]; [auto|contradiction].
    + cbn in Hin. apply in_app_or in Hin.
      destruct Hin as [Hin|Hin]; [contradiction|auto].
    + cbn in Hin. apply in_app_or in Hin.
      destruct Hin as [Hin|Hin]; [contradiction|auto].
  - exfalso. specialize (N3 None None w2 (or_introl eq_refl)).
    destruct (reply_and_relay fuel Client None None w2) as [[o w4] t3].
    cbn in Hin, N3. apply in_app_or in Hin. tauto.
  - contradiction.
  - contradiction.
Qed.

Lemma outbound_only_for_parsed_request_witness :
  let r := connection 5 shipped_config Client relay_session in
  In (EvConnect (AddrIPv4 (x7f, x00, x00, x01)) 80 None) (trace_of r)
  /\ result_of (subnegotiation Client relay_session) = Ret true.
Proof.
  assert (H : In (EvConnect (AddrIPv4 (x7f, x00, x00, x01)) 80 None)
                (trace_of (connection 5 shipped_config Client
                             relay_session))).
  { vm_compute. auto 10. }
  split; [exact H|].
  exact (proj1 (@outbound_only_for_parsed_request 5 shipped_config
                  relay_session _ H I)).
Defined.

(** ** What the request parser accepts *)

(** X9.  Well-formed CONNECT frames decode to their fields, and bytes
    after the port are ignored: an IPv4 frame gives the four address
    octets and the big-endian port; a domain-name frame whose length byte
    equals the length of the name gives that name (the empty name
    included) and the port. *)
Theorem connect_frames_decode (w : world) :
  (forall a1 a2 a3 a4 hi lo extra,
     parse_request ([x05; x01; x00; x01; a1; a2; a3; a4; hi; lo] ++ extra) w
     = (Ret (Some (AddrIPv4 (a1, a2, a3, a4),
                   (Byte.to_N hi * 256 + Byte.to_N lo)%N)), w, []))
  /\ (forall L name hi lo extra,
        N.of_nat (List.length name) = Byte.to_N L ->
        parse_request ([x05; x01; x00; x03; L] ++ name ++ [hi; lo] ++ extra) w
        = (Ret (Some (AddrDomain name,
                      (Byte.to_N hi * 256 + Byte.to_N lo)%N)), w, [])).
Proof.
  split.
  - intros a1 a2 a3 a4 hi lo extra.
    exact (parse_request_ipv4 ([a1; a2; a3; a4; hi; lo] ++ extra) w).
  - intros L name hi lo extra Hn.
    rewrite parse_request_domain. cbn zeta.
    assert (En : N.to_nat (Byte.to_N L) = List.length name) by lia.
    rewrite En.
    assert (E1 : skipn (List.length name) (name ++ [hi; lo] ++ extra)
                 = [hi; lo] ++ extra).
    { rewrite skipn_app, skipn_all, Nat.sub_diag. reflexivity. }
    assert (E2 : firstn (List.length name) (name ++ [hi; lo] ++ extra)
                 = name).
    { rewrite firstn_app, firstn_all, Nat.sub_diag. cbn.
      now rewrite app_nil_r. }
    rewrite E1, E2. reflexivity.
Qed.

Lemma connect_frames_decode_witness :
  N.of_nat (List.length (@nil byte)) = Byte.to_N x00
  /\ parse_request ([x05; x01; x00; x03; x00] ++ [] ++ [x01; xbb] ++ [])
       (client_sends [])
     = (Ret (Some (AddrDomain [], 443%N)), client_sends [], []).
Proof.
  split; [reflexivity|].
  exact (proj2 (connect_frames_decode (client_sends []))
           x00 [] x01 xbb [] eq_refl).
Defined.

Lemma slice_two_length (lo : nat) (f : bytes) (hi' lo' : byte) :
  slice lo (lo + 2) f = [hi'; lo'] -> lo + 2 <= List.length f.
Proof.
  unfold slice. intros H. apply (f_equal (@List.length byte)) in H.
  rewrite length_firstn, length_skipn in H. cbn in H. lia.
Qed.

Lemma unpack_H_bound (b : bytes) (w : world) (p : N) :
  result_of (unpack_H b w) = Ret p ->
  (p < 65536)%N
  /\ exists hi lo, b = [hi; lo]
                   /\ p = (Byte.to_N hi * 256 + Byte.to_N lo)%N.
Proof.
  unfold unpack_H. destruct b as [|hi [|lo [|x l]]]; try discriminate.
  cbn. intros H. inversion H. split; [|eauto].
  pose proof (Byte.to_N_bounded hi). pose proof (Byte.to_N_bounded lo). lia.
Qed.

(** X10.  Whatever the request parser accepts is a CONNECT frame that is
    all there: version 0x05, command 0x01, reserved 0x00, a port below
    65536 read from two bytes that the frame holds, and either the four
    address bytes at offset 4 (at least 10 bytes in all) or a name of at
    most 255 bytes, exactly as long as the length byte at offset 4 says,
    taken from offset 5. *)
Theorem parsed_request_is_well_formed (f : bytes) (w : world)
  (addr : dst_addr) (p : N) :
  result_of (parse_request f w) = Ret (Some (addr, p)) ->
  slice 0 1 f = VER /\ slice 1 2 f = CMD_CONNECT /\ slice 2 3 f = [x00]
  /\ (p < 65536)%N
  /\ match addr with
     | AddrIPv4 ip =>
         slice 3 4 f = ATYP_IPV4
         /\ slice 4 8 f = inet_aton ip
         /\ 10 <= List.length f
         /\ exists hi lo,
              slice 8 10 f = [hi; lo]
              /\ p = (Byte.to_N hi * 256 + Byte.to_N lo)%N
     | AddrDomain name =>
         let n := List.length name in
         slice 3 4 f = ATYP_DOMAINNAME
         /\ n <= 255
         /\ option_map Byte.to_N (nth_error f 4) = Some (N.of_nat n)
         /\ name = slice 5 (5 + n) f
         /\ 5 + n + 2 <= List.length f
         /\ exists hi lo,
              slice (5 + n) (5 + n + 2) f = [hi; lo]
              /\ p = (Byte.to_N hi * 256 + Byte.to_N lo)%N
     end.
Proof.
  unfold parse_request.
  destruct (bytes_eqb (slice 0 1 f) VER) eqn:E0; [|discriminate].
  destruct (bytes_eqb (slice 1 2 f) CMD_CONNECT) eqn:E1; [|discriminate].
  destruct (bytes_eqb (slice 2 3 f) [x00]) eqn:E2; [|discriminate].
  apply bytes_eqb_eq in E0, E1, E2. cbn [negb orb].
  destruct (bytes_eqb (slice 3 4 f) ATYP_IPV4) eqn:E3.
  { apply bytes_eqb_eq in E3. rewrite bind_result.
    destruct (slice 4 8 f) as [|a1 [|a2 [|a3 [|a4 [|x l]]]]] eqn:Ea;
      try discriminate.
    cbn [inet_ntoa ret result_of world_of fst snd].
    rewrite bind_result.
    destruct (result_of (unpack_H (slice 8 10 f) w)) as [port|e|] eqn:Ep;
      try discriminate.
    cbn. intros H. inversion H; subst.
    destruct (unpack_H_bound _ _ Ep) as (Hb & hi & lo & Es & ->).
    repeat split; auto.
    - apply (slice_two_length 8 f Es).
    - eauto. }
  destruct (bytes_eqb (slice 3 4 f) ATYP_DOMAINNAME) eqn:E4; [|discriminate].
  apply bytes_eqb_eq in E4. unfold index.
  destruct (nth_error f 4) as [L|] eqn:EL; [|discriminate].
  rewrite bind_ret_l. cbn zeta.
  set (n := N.to_nat (Byte.to_N L)).
  rewrite bind_result.
  destruct (result_of (unpack_H (slice (5 + n) (5 + n + 2) f) w))
    as [port|e|] eqn:Ep; try discriminate.
  unfold ret, result_of at 1. cbn [fst].
  intros H. inversion H as [[Ha Hport]]. clear H.
  subst addr. rewrite <- Hport. clear Hport p.
  destruct (unpack_H_bound _ _ Ep) as (Hb & hi & lo & Es & Epo).
  pose proof (slice_two_length (5 + n) f Es) as Hlen.
  assert (Hn : List.length (slice 5 (5 + n) f) = n).
  { unfold slice. rewrite length_firstn, length_skipn. lia. }
  assert (Hn255 : n <= 255).
  { subst n. pose proof (Byte.to_N_bounded L). lia. }
  cbn beta iota zeta. change (S (S (S (S (S n))))) with (5 + n).
  rewrite Hn. repeat split; auto.
  - cbn. f_equal. subst n. lia.
  - eauto.
Qed.

Lemma parsed_request_is_well_formed_witness :
  result_of (parse_request connect_request (client_sends []))
  = Ret (Some (AddrIPv4 (x7f, x00, x00, x01), 80%N))
  /\ 10 <= List.length connect_request.
Proof.
  split; [reflexivity|].
  destruct (@parsed_request_is_well_formed connect_request (client_sends [])
              (AddrIPv4 (x7f, x00, x00, x01)) 80 eq_refl)
    as (_ & _ & _ & _ & _ & _ & H & _).
  exact H.
Defined.

(** ** More on the relay loop *)

(** X11.  The relay loop leaves the sockets to its caller: whatever the
    environment does, [proxy_loop] never calls [close] or [sendall] and
    logs nothing but [select], [recv] and [send] calls.  Called on two
    open sockets it lets no exception out.  The one exception that can
    leave it is the [ValueError] that [select] raises for a socket that
    was closed before the call, and then nothing at all was logged. *)
Theorem relay_leaves_sockets_to_caller (fuel : nat) (w : world) :
  let r := proxy_loop fuel Client Dst w in
  (closed (client w) = false -> closed (dst w) = false ->
   forall e, result_of r <> Raise e)
  /\ (forall e, result_of r = Raise e ->
        e = ValueError
        /\ closed (client w) || closed (dst w) = true
        /\ trace_of r = [])
  /\ closes Client (trace_of r) = 0
  /\ closes Dst (trace_of r) = 0
  /\ sendalls Client (trace_of r) = 0
  /\ sendalls Dst (trace_of r) = 0
  /\ Forall relay_event (trace_of r).
Proof.
  destruct (proxy_loop_spec fuel w) as (He & _ & _ & Hr). cbn zeta.
  split; [|split; [exact Hr|]].
  { intros Hc Hd e E. destruct (Hr e E) as (_ & H & _).
    rewrite Hc, Hd in H. discriminate H. }
  split; [|split; [|split; [|split]]]; auto.
  - eapply closes_none; [exact He|]. now intros [].
  - eapply closes_none; [exact He|]. now intros [].
  - eapply sendalls_none; [exact He|]. now intros [].
  - eapply sendalls_none; [exact He|]. now intros [].
Qed.

Lemma relay_leaves_sockets_to_caller_witness :
  closed (client relay_world) = false
  /\ closed (dst relay_world) = false
  /\ forall e, result_of (proxy_loop 3 Client Dst relay_world) <> Raise e.
Proof.
  split; [reflexivity|]. split; [reflexivity|].
  exact (proj1 (relay_leaves_sockets_to_caller 3 relay_world)
           eq_refl eq_refl).
Defined.

(** X12.  The exit flag is looked at once per iteration: when nothing is
    readable for [k] rounds and the signal arrives before the next look,
    the loop has made exactly [k] calls of [select], touched no socket,
    and returns with the flag set.  This supposes that both sockets are
    open, or that the flag is set at the very first look ([k = 0]);
    otherwise the first [select] raises [ValueError] and the loop ends
    there, with nothing logged. *)
Theorem relay_stops_at_next_look (k fuel : nat) (src dst : sock)
  (w : world) (sg : list bool) (q : list select_result) :
  exit w = false ->
  signals w = repeat false k ++ true :: sg ->
  selects w = repeat (SelReady []) k ++ q ->
  k < fuel ->
  let r := proxy_loop fuel src dst w in
  if (k =? 0) || negb (closed (get_sock w src) || closed (get_sock w dst))
  then
    result_of r = Ret tt
    /\ trace_of r = repeat (EvSelect (SelReady [])) k
    /\ exit (world_of r) = true
  else
    result_of r = Raise ValueError /\ trace_of r = [].
Proof.
  revert fuel w. induction k as [|k IH]; intros fuel w He Hs Hq Hk;
    (destruct fuel as [|fuel]; [lia|]); cbn zeta;
    cbn [proxy_loop repeat Nat.eqb orb];
    cbn [repeat app] in Hs, Hq.
  - assert (Eg : get_status w = (Ret true, set_exit w true sg, [])).
    { unfold get_status. now rewrite Hs, He. }
    rewrite (bind_ret _ Eg). cbn. auto.
  - assert (Eg : get_status w
                 = (Ret false, set_exit w false (repeat false k ++ true :: sg),
                    [])).
    { unfold get_status. now rewrite Hs, He. }
    rewrite (bind_ret _ Eg).
    set (w1 := set_exit w false _).
    set (h := fun e : exn => _).
    assert (Hc : closed (get_sock w1 src) || closed (get_sock w1 dst)
                 = closed (get_sock w src) || closed (get_sock w dst))
      by (subst w1; destruct src, dst; reflexivity).
    destruct (closed (get_sock w src) || closed (get_sock w dst)) eqn:Ec;
      cbn [negb].
    + assert (Es : select src dst w1 = (Raise ValueError, w1, [])).
      { unfold select. now rewrite Hc. }
      pose proof (bind_raise (fun reader => ret (Some reader)) Es) as E1.
      rewrite (bind_raise _ (try_uncaught h E1 eq_refl)). cbn. auto.
    + set (w2 := set_selects w1 (repeat (SelReady []) k ++ q)).
      assert (Es : select src dst w1
                   = (Ret [], w2, [EvSelect (SelReady [])])).
      { unfold select. rewrite Hc. subst w1. cbn [selects set_exit].
        now rewrite Hq. }
      assert (E1 : try_except
                     (reader <- select src dst ;; ret (Some reader)) h w1
                   = (Ret (Some []), w2, [EvSelect (SelReady [])])).
      { apply try_ret. now rewrite (bind_ret _ Es). }
      rewrite (bind_ret _ E1).
      assert (Hc2 : closed (get_sock w2 src) || closed (get_sock w2 dst)
                    = false)
        by (rewrite <- Ec; subst w2 w1; destruct src, dst; reflexivity).
      specialize (IH fuel w2). cbn zeta in IH.
      rewrite Hc2 in IH. cbn [negb] in IH. rewrite orb_true_r in IH.
      destruct (proxy_loop fuel src dst w2) as [[o w3] t3].
      cbn [result_of trace_of world_of fst snd] in *.
      destruct IH as (-> & -> & Hex); try reflexivity; try lia.
      cbn. auto.
Qed.

Lemma relay_stops_at_next_look_witness :
  let w := {| exit := false; signals := [false; false; true];
              client := quiet; dst := quiet;
              selects := [SelReady []; SelReady []; SelReady [Client]];
              outbound := net_ok |} in
  let r := proxy_loop 3 Client Dst w in
  2 < 3
  /\ result_of r = Ret tt
  /\ trace_of r = [EvSelect (SelReady []); EvSelect (SelReady [])]
  /\ exit (world_of r) = true.
Proof.
  assert (H : 2 < 3) by lia.
  split; [exact H|].
  exact (@relay_stops_at_next_look 2 3 Client Dst
           {| exit := false; signals := [false; false; true];
              client := quiet; dst := quiet;
              selects := [SelReady []; SelReady []; SelReady [Client]];
              outbound := net_ok |}
           [] [SelReady [Client]] eq_refl eq_refl eq_refl H).
Defined.

Lemma relay_log_ends_last (t t1 t2 : list event) (e : event) :
  relay_log t -> ends_relay e -> t = t1 ++ e :: t2 -> t2 = [].
Proof.
  intros Hl He. revert t1.
  induction Hl using relay_log_induction; intros t1 E.
  - now destruct t1.
  - destruct t1 as [|e1 t1]; inversion E; subst; [contradiction|eauto].
  - destruct t1 as [|e1 [|e2 t1]]; inversion E; subst; reflexivity.
  - destruct t1 as [|e1 [|e2 t1]]; inversion E; subst; reflexivity.
  - destruct t1 as [|e1 [|e2 t1]]; inversion E; subst; reflexivity.
  - destruct t1 as [|e1 [|e2 t1]]; inversion E; subst.
    + destruct d; contradiction.
    + contradiction.
    + eauto.
  - destruct t1 as [|e1 [|e2 [|e3 t1]]]; inversion E; subst;
      try reflexivity.
    destruct d; contradiction.
Qed.

Lemma not_ends_app (t1 t2 : list event) :
  Forall (fun e => ~ ends_relay e) t1 ->
  Forall (fun e => ~ ends_relay e) t2 ->
  Forall (fun e => ~ ends_relay e) (t1 ++ t2).
Proof. intros. apply Forall_app. auto. Qed.

(** One pass over the readable sockets either goes on, with nothing in
    its log that ends a relay, or stops right after such an event. *)
Lemma relay_ready_ends (reader : list sock) (w : world) :
  let r := relay_ready Client Dst reader w in
  match result_of r with
  | Ret Continue | Hang => Forall (fun e => ~ ends_relay e) (trace_of r)
  | Ret Return | Raise _ =>
      exists t1 e, trace_of r = t1 ++ [e] /\ ends_relay e
  end.
Proof.
  revert w. induction reader as [|sock rest IH]; intros w; cbn zeta.
  - cbn. constructor.
  - cbn [relay_ready]. rewrite bind_trace, bind_result.
    destruct (recv_cases sock BUFSIZE w)
      as [(d & w1 & E)|[(e & w1 & E)|E]]; rewrite E;
      cbn [trace_of result_of world_of fst snd].
    2:{ exists [], (EvRecv sock BUFSIZE (RecvRaise e)). now cbn. }
    2:{ constructor. }
    destruct d as [|b g].
    { exists [], (EvRecv sock BUFSIZE (RecvData [])). now cbn. }
    rewrite bind_trace, bind_result.
    assert (Es : (if sock_eqb sock Dst
                  then send Client (b :: g) else send Dst (b :: g))
                 = send (other sock) (b :: g)) by now destruct sock.
    rewrite Es. clear Es.
    destruct (send_cases (other sock) (b :: g) w1)
      as [(k & w2 & E2)|(e & w2 & E2)]; rewrite E2;
      cbn [trace_of result_of world_of fst snd].
    2:{ exists [EvRecv sock BUFSIZE (RecvData (b :: g))],
          (EvSend (other sock) (b :: g) (SendRaise e)). now cbn. }
    specialize (IH w2). cbn zeta in IH.
    destruct (result_of (relay_ready Client Dst rest w2)) as [[|]|e|].
    + cbn. repeat (constructor; [now cbn|]). exact IH.
    + destruct IH as (t1 & e & -> & He).
      exists (EvRecv sock BUFSIZE (RecvData (b :: g))
              :: EvSend (other sock) (b :: g) (SendOk k) :: t1), e.
      now cbn.
    + destruct IH as (t1 & e' & -> & He).
      exists (EvRecv sock BUFSIZE (RecvData (b :: g))
              :: EvSend (other sock) (b :: g) (SendOk k) :: t1), e'.
      now cbn.
    + cbn. repeat (constructor; [now cbn|]). exact IH.
Qed.

Lemma get_status_true (w w1 : world) (t : list event) :
  get_status w = (Ret true, w1, t) -> exit w1 = true.
Proof.
  unfold get_status. destruct (signals w) as [|sg q]; intros H;
    inversion H; subst; auto.
Qed.

Lemma proxy_loop_open (fuel : nat) (w w' : world) (e : exn) :
  closed (get_sock w Client) || closed (get_sock w Dst) = false ->
  handles w' = handles w ->
  result_of (proxy_loop fuel Client Dst w') <> Raise e.
Proof.
  intros Ho Hh E.
  destruct (proxy_loop_spec fuel w') as (_ & _ & _ & Hr).
  destruct (Hr e E) as (_ & Hc & _).
  unfold handles in Hh. injection Hh as H1 H2.
  cbn [get_sock] in Ho. congruence.
Qed.

(** Why the loop returns, and that it is still running otherwise. *)
Lemma proxy_loop_ends (fuel : nat) (w : world) :
  let r := proxy_loop fuel Client Dst w in
  match result_of r with
  | Ret _ =>
      (trace_of r = [] \/ Forall (fun e => ~ ends_relay e) (trace_of r))
      /\ exit (world_of r) = true
      \/ exists t1 e, trace_of r = t1 ++ [e] /\ ends_relay e
  | Raise _ => trace_of r = []
  | Hang => Forall (fun e => ~ ends_relay e) (trace_of r)
  end.
Proof.
  revert w. induction fuel as [|fuel IH]; intros w; cbn zeta.
  { cbn. constructor. }
  cbn [proxy_loop].
  destruct (get_status w) as [[[b| |] w1] t0] eqn:Eg;
    try (destruct (get_status_run w) as (b' & w' & Eg' & _);
         rewrite Eg in Eg'; discriminate).
  assert (t0 = []) as ->.
  { destruct (get_status_run w) as (b' & w' & Eg' & _).
    rewrite Eg in Eg'. now inversion Eg'. }
  rewrite (bind_ret _ Eg). destruct b.
  { cbn. left. split; [now left|]. exact (get_status_true _ Eg). }
  set (h := fun e : exn => if is_socket_error e
                           then Some (error ;; ret None) else None).
  destruct (select_cases Client Dst w1)
    as [[Hc Es]|[Ho [(r & w2 & Es & Hh)|(e & w2 & Es)]]].
  { pose proof (bind_raise (fun reader => ret (Some reader)) Es) as E1.
    rewrite (bind_raise _ (try_uncaught h E1 eq_refl)). reflexivity. }
  2:{ pose proof (bind_raise (fun reader => ret (Some reader)) Es) as E1.
      erewrite bind_ret.
      2:{ rewrite (try_caught h E1 (k := error ;; ret None)) by reflexivity.
          reflexivity. }
      cbn. right. exists [], (EvSelect (SelRaise e)). now cbn. }
  assert (E1 : try_except
                 (reader <- select Client Dst ;; ret (Some reader)) h w1
               = (Ret (Some r), w2, [EvSelect (SelReady r)])).
  { apply try_ret. now rewrite (bind_ret _ Es). }
  rewrite (bind_ret _ E1). cbn [app].
  assert (Hsel : ~ ends_relay (EvSelect (SelReady r))) by (now cbn).
  destruct r as [|s0 rest].
  { specialize (IH w2). cbn zeta in IH.
    pose proof (@proxy_loop_open fuel w1 w2) as Hno.
    destruct (proxy_loop fuel Client Dst w2) as [[[[]|e|] w3] t3];
      cbn [trace_of result_of world_of fst snd] in *.
    - destruct IH as [[Hn Hx]|(t1 & e & -> & He)].
      + left. split; [|exact Hx]. right. constructor; [exact Hsel|].
        destruct Hn as [->|Hn]; [constructor | exact Hn].
      + right. exists (EvSelect (SelReady []) :: t1), e. now cbn.
    - exfalso. exact (Hno e Ho Hh eq_refl).
    - constructor; auto. }
  set (h2 := fun e : exn => if is_socket_error e
                            then Some (error ;; ret Return) else None).
  pose proof (relay_ready_ends (s0 :: rest) w2) as R.
  destruct (relay_ready_spec (s0 :: rest) w2) as (_ & Rs).
  pose proof (relay_ready_handles Client Dst (s0 :: rest) w2) as Hrh.
  cbn zeta in R, Rs.
  destruct (relay_ready Client Dst (s0 :: rest) w2) as [[[fl|e|] w3] t3] eqn:Er;
    cbn [trace_of result_of world_of fst snd] in R, Rs, Hrh.
  - rewrite (bind_ret _ (try_ret h2 Er)). destruct fl.
    + specialize (IH w3). cbn zeta in IH.
      pose proof (@proxy_loop_open fuel w1 w3) as Hno.
      destruct (proxy_loop fuel Client Dst w3) as [[[[]|e|] w4] t4];
        cbn [trace_of result_of world_of fst snd] in *.
      * destruct IH as [[Hn Hx]|(t1 & e & -> & He)].
        -- left. split; [|exact Hx]. right. constructor; [exact Hsel|].
           apply not_ends_app; [exact R|].
           destruct Hn as [->|Hn]; [constructor | exact Hn].
        -- right. exists (EvSelect (SelReady (s0 :: rest)) :: t3 ++ t1), e.
           cbn. now rewrite <- app_assoc.
      * exfalso. apply (Hno e Ho); [congruence | reflexivity].
      * constructor; [exact Hsel|]. now apply not_ends_app.
    + cbn. rewrite app_nil_r. right.
      destruct R as (t1 & e & -> & He).
      now exists (EvSelect (SelReady (s0 :: rest)) :: t1), e.
  - destruct Rs as [Rs _].
    erewrite bind_ret.
    2:{ rewrite (try_caught h2 Er (k := error ;; ret Return))
          by (subst h2; cbn; now rewrite Rs).
        reflexivity. }
    cbn. rewrite !app_nil_r. right.
    destruct R as (t1 & e' & -> & He).
    now exists (EvSelect (SelReady (s0 :: rest)) :: t1), e'.
  - rewrite (bind_hang _ (try_hang h2 Er)). cbn.
    constructor; [exact Hsel | exact R].
Qed.

(** X13.  Why the relay loop ends.  A zero-length read, a failed read, a
    failed send or a failed select is the last thing the loop does, and
    the loop then returns; and a loop that has returned either did so right
    after such an event or saw the exit flag set. *)
Theorem relay_termination_reasons (fuel : nat) (w : world) :
  let r := proxy_loop fuel Client Dst w in
  (forall t1 e t2,
     trace_of r = t1 ++ e :: t2 -> ends_relay e ->
     t2 = [] /\ result_of r = Ret tt)
  /\ (result_of r = Ret tt ->
      exit (world_of r) = true
      \/ exists t1 e, trace_of r = t1 ++ [e] /\ ends_relay e).
Proof.
  destruct (proxy_loop_spec fuel w) as (_ & Hl & _ & _).
  pose proof (proxy_loop_ends fuel w) as He. cbn zeta in *.
  split.
  - intros t1 e t2 E Hend. split.
    + eapply relay_log_ends_last; [exact Hl | exact Hend | exact E].
    + destruct (result_of (proxy_loop fuel Client Dst w)) as [[]|x|];
        [reflexivity | |].
      * rewrite E in He. now destruct t1.
      * rewrite E in He. apply Forall_app in He. destruct He as [_ He].
        inversion He; subst. contradiction.
  - intros Hr. rewrite Hr in He.
    destruct He as [[_ Hx]|Hx]; auto.
Qed.

Lemma relay_termination_reasons_witness :
  let r := proxy_loop 3 Client Dst relay_world in
  ends_relay (EvRecv Dst BUFSIZE (RecvData []))
  /\ result_of r = Ret tt.
Proof.
  split; [exact I|].
  exact (proj2 (proj1 (relay_termination_reasons 3 relay_world)
                  [EvSelect (SelReady [Client]);
                   EvRecv Client BUFSIZE (RecvData [x47]);
                   EvSend Dst [x47] (SendOk 1);
                   EvSelect (SelReady [Dst])]
                  (EvRecv Dst BUFSIZE (RecvData [])) [] eq_refl I)).
Defined.

(** X14.  A chunk is handed to [send] once.  The number of bytes that
    [send] reports is not looked at: whatever it is, the next thing the
    loop does is a [select] or a [recv], never a second [send], so bytes
    that a short write left behind are not sent again. *)
Theorem chunk_is_sent_once (fuel : nat) (w : world) (t1 t2 : list event)
  (s : sock) (d : bytes) (n : nat) (e : event) :
  trace_of (proxy_loop fuel Client Dst w)
  = t1 ++ EvSend s d (SendOk n) :: e :: t2 ->
  match e with
  | EvSelect _ | EvRecv _ _ _ => True
  | _ => False
  end.
Proof.
  intros E.
  destruct (proxy_loop_spec fuel w) as (He & Hl & _).
  cbn zeta in *.
  assert (Hin : In e (trace_of (proxy_loop fuel Client Dst w))).
  { rewrite E. apply in_or_app. right. right. now left. }
  rewrite Forall_forall in He. apply He in Hin.
  destruct e; try contradiction; try exact I.
  exfalso.
  assert (E' : trace_of (proxy_loop fuel Client Dst w)
               = (t1 ++ [EvSend s d (SendOk n)]) ++ EvSend s0 data r :: t2).
  { rewrite E, <- app_assoc. reflexivity. }
  assert (E0 : exists t0 m,
             t1 ++ [EvSend s d (SendOk n)]
             = t0 ++ [EvRecv (other s0) m (RecvData data)]).
  { eapply relay_log_sent_was_read; [exact Hl | exact E']. }
  destruct E0 as (t0 & m & E0).
  apply app_inj_tail in E0. destruct E0 as [_ E0]. discriminate.
Qed.

Lemma chunk_is_sent_once_witness :
  let w := {| exit := false; signals := [];
              client := {| inbox := [RecvData [x47; x45; x54]];
                           outbox := []; closed := false |};
              dst := {| inbox := []; outbox := [SendOk 1];
                        closed := false |};
              selects := [SelReady [Client]];
              outbound := net_ok |} in
  trace_of (proxy_loop 2 Client Dst w)
  = [EvSelect (SelReady [Client]);
     EvRecv Client BUFSIZE (RecvData [x47; x45; x54])]
    ++ EvSend Dst [x47; x45; x54] (SendOk 1)
       :: EvSelect (SelReady []) :: [].
Proof.
  pose proof (@chunk_is_sent_once 2
                {| exit := false; signals := [];
                   client := {| inbox := [RecvData [x47; x45; x54]];
                                outbox := []; closed := false |};
                   dst := {| inbox := []; outbox := [SendOk 1];
                             closed := false |};
                   selects := [SelReady [Client]];
                   outbound := net_ok |}
                [EvSelect (SelReady [Client]);
                 EvRecv Client BUFSIZE (RecvData [x47; x45; x54])]
                [] Dst [x47; x45; x54] 1 (EvSelect (SelReady []))
                eq_refl) as H.
  reflexivity.
Defined.

(** ** The exit flag *)

Lemma keeps_bind {A B : Type} (m : M A) (f : A -> M B) :
  keeps_exit m -> (forall a, keeps_exit (f a)) -> keeps_exit (bind m f).
Proof.
  intros Hm Hf w Hw. rewrite bind_world. specialize (Hm w Hw).
  destruct (result_of (m w)); auto. now apply Hf.
Qed.

Lemma keeps_try {A : Type} (m : M A) (h : exn -> option (M A)) :
  keeps_exit m -> (forall e k, h e = Some k -> keeps_exit k) ->
  keeps_exit (try_except m h).
Proof.
  intros Hm Hh w Hw. rewrite try_world. specialize (Hm w Hw).
  destruct (result_of (m w)) as [a|e|]; auto.
  destruct (h e) as [k|] eqn:E; auto. now apply (Hh e k E).
Qed.

Lemma keeps_pure {A : Type} (m : M A) : pure m -> keeps_exit m.
Proof. intros [o H] w Hw. now rewrite H. Qed.

Lemma keeps_recv (s : sock) (n : nat) : keeps_exit (recv s n).
Proof.
  intros w Hw. unfold recv. destruct (closed (get_sock w s)); [exact Hw|].
  destruct (inbox (get_sock w s)) as [|[d|e] q]; destruct s; exact Hw.
Qed.

Lemma keeps_write (s : sock) (d : bytes) (ev : send_result -> event) :
  keeps_exit (write s d ev).
Proof.
  intros w Hw. unfold write. destruct (closed (get_sock w s)); [exact Hw|].
  destruct (outbox (get_sock w s)) as [|[k|e] q]; destruct s; exact Hw.
Qed.

Lemma keeps_close (s : sock) : keeps_exit (close s).
Proof. intros w Hw. destruct s; exact Hw. Qed.

Lemma keeps_select (src dst : sock) : keeps_exit (select src dst).
Proof.
  intros w Hw. unfold select.
  destruct (closed (get_sock w src) || closed (get_sock w dst)); [exact Hw|].
  destruct (selects w) as [|[r|e] q]; exact Hw.
Qed.

Lemma keeps_get_status : keeps_exit get_status.
Proof.
  intros w Hw. unfold get_status. destruct (signals w); [exact Hw|].
  cbn. now rewrite Hw.
Qed.

(** The one call of [set_status] in the program passes [True]. *)
Lemma keeps_set_status_true : keeps_exit (set_status true).
Proof. now intros w Hw. Qed.

Lemma keeps_outbound_calls (ifname : string) (a : dst_addr) (p : N) :
  keeps_exit create_socket /\ keeps_exit (setsockopt_bindtodevice ifname)
  /\ keeps_exit (connect a p) /\ keeps_exit setsockopt_nodelay
  /\ keeps_exit getsockname.
Proof.
  repeat split; intros w Hw;
    unfold create_socket, setsockopt_bindtodevice, connect,
      setsockopt_nodelay, getsockname;
    repeat match goal with
           | |- context [match ?x with _ => _ end] => destruct x
           end; exact Hw.
Qed.

Ltac keeps :=
  repeat match goal with
         | |- keeps_exit (bind _ _) => apply keeps_bind; [| intros ?]
         | |- keeps_exit (try_except _ _) =>
             apply keeps_try;
             [| let e := fresh "e" in let k := fresh "k" in
                let H := fresh "H" in
                intros e k H;
                repeat match type of H with
                       | (if ?c then _ else _) = Some _ => destruct c
                       end;
                inversion H; subst; clear H ]
         | |- keeps_exit (if ?c then _ else _) => destruct c
         | |- keeps_exit (match ?x with _ => _ end) => destruct x
         | |- keeps_exit (ret _) => apply keeps_pure, pure_ret
         | |- keeps_exit (raise _) => apply keeps_pure, pure_raise
         | |- keeps_exit error => apply keeps_pure, pure_ret
         | |- keeps_exit (recv _ _) => apply keeps_recv
         | |- keeps_exit (write _ _ _) => apply keeps_write
         | |- keeps_exit (sendall _ _) => unfold sendall
         | |- keeps_exit (send _ _) => apply keeps_write
         | |- keeps_exit (close _) => apply keeps_close
         | |- keeps_exit (sleep _) => now intros ? ?
         | |- keeps_exit (select _ _) => apply keeps_select
         | |- keeps_exit get_status => apply keeps_get_status
         | |- keeps_exit (set_status true) => apply keeps_set_status_true
         | |- keeps_exit create_socket =>
             apply (keeps_outbound_calls EmptyString (AddrDomain []) 0)
         | |- keeps_exit (setsockopt_bindtodevice ?i) =>
             apply (keeps_outbound_calls i (AddrDomain []) 0)
         | |- keeps_exit (connect ?a ?p) =>
             apply (keeps_outbound_calls EmptyString a p)
         | |- keeps_exit setsockopt_nodelay =>
             apply (keeps_outbound_calls EmptyString (AddrDomain []) 0)
         | |- keeps_exit getsockname =>
             apply (keeps_outbound_calls EmptyString (AddrDomain []) 0)
         | |- keeps_exit (pack_H _) => apply keeps_pure, pure_pack_H
         | |- keeps_exit (parse_request _) =>
             apply keeps_pure, pure_parse_request
         | |- keeps_exit (select_method _) =>
             apply keeps_pure, pure_select_method
         end.

Lemma keeps_relay_ready (src dst : sock) (reader : list sock) :
  keeps_exit (relay_ready src dst reader).
Proof.
  induction reader as [|sock rest IH]; cbn [relay_ready]; keeps. exact IH.
Qed.

Lemma keeps_proxy_loop (fuel : nat) (src dst : sock) :
  keeps_exit (proxy_loop fuel src dst).
Proof.
  induction fuel as [|fuel IH]; cbn [proxy_loop]; [now intros w Hw|].
  keeps; try exact IH; apply keeps_relay_ready.
Qed.

(** X15.  The exit flag is never cleared: a connection that starts with
    the flag set ends with the flag set, on every path and whatever the
    environment does ([set_status] is called with [True] only, and
    [get_status] does not write [False] over a set flag in this model of
    the signal handler). *)
Theorem exit_flag_is_never_cleared (fuel : nat) (cfg : config) (w : world) :
  exit w = true ->
  exit (world_of (connection fuel cfg Client w)) = true.
Proof.
  revert w. change (keeps_exit (connection fuel cfg Client)).
  unfold connection, subnegotiation, subnegotiation_client, request,
    request_client, reply_and_relay, connect_to_dst.
  keeps; apply keeps_proxy_loop.
Qed.

Lemma exit_flag_is_never_cleared_witness :
  let w := set_exit relay_session true [] in
  exit w = true
  /\ exit (world_of (connection 5 shipped_config Client w)) = true.
Proof.
  split; [reflexivity|].
  exact (@exit_flag_is_never_cleared 5 shipped_config
           (set_exit relay_session true []) eq_refl).
Defined.

(** ** The server process *)

Lemma listener_closes_app (t1 t2 : list server_event) :
  listener_closes (t1 ++ t2) = listener_closes t1 + listener_closes t2.
Proof. unfold listener_closes. now rewrite filter_app, length_app. Qed.

Lemma listener_closes_cons (e : server_event) (t : list server_event) :
  listener_closes (e :: t) =
  (match e with SvClose => 1 | _ => 0 end) + listener_closes t.
Proof. unfold listener_closes. cbn [filter]. now destruct e. Qed.

Lemma accepted_cons (e : server_event) (t : list server_event) :
  accepted (e :: t) =
  (match e with SvAccept Accepted => 1 | _ => 0 end) + accepted t.
Proof.
  unfold accepted. cbn [filter]. destruct e; try reflexivity.
  now destruct a.
Qed.

Lemma threads_started_cons (e : server_event) (t : list server_event) :
  threads_started (e :: t) =
  (match e with SvThreadStart _ => 1 | _ => 0 end) + threads_started t.
Proof. unfold threads_started. cbn [filter]. now destruct e. Qed.

Lemma main_iteration_cases (t : threads) (a : accept_result) :
  match fst (main_iteration false t a) with
  | LeaveLoop => False
  | Pause => MAX_THREADS < activeCount t
  | Retry => a = AcceptTimeout \/ a = AcceptSocketError
  | Dispatch =>
      a = Accepted /\ activeCount t <= MAX_THREADS
      /\ snd (main_iteration false t a)
         = {| units := S (units t); others := others t |}
  | SysExit => a = AcceptTypeError
  end.
Proof.
  unfold main_iteration.
  destruct (Nat.ltb_spec MAX_THREADS (activeCount t)); [exact H|].
  destruct a; cbn [fst snd]; auto.
Qed.

(** The accept loop by itself: it does not close the listening socket,
    calls [start()] once per accepted connection, returns only with the
    exit flag set, raises nothing but the [SystemExit] that follows a
    [TypeError] of [accept] and the [RuntimeError] of a failed [start()],
    and keeps the number of connection threads at or below
    [MAX_THREADS]. *)
Lemma accept_loop_spec (fuel : nat) (s : server) :
  let r := accept_loop fuel s in
  listener_closes (snd r) = 0
  /\ accepted (snd r) = threads_started (snd r)
  /\ (forall u, fst (fst r) = Ret u -> srv_exit (snd (fst r)) = true)
  /\ (forall e, fst (fst r) = Raise e ->
        (e = SystemExit
         /\ exists ev0, snd r = ev0 ++ [SvAccept AcceptTypeError])
        \/ (e = RuntimeError
            /\ exists ev0, snd r = ev0 ++ [SvThreadStart false]))
  /\ (1 <= others (srv_threads s) ->
      units (srv_threads s) <= MAX_THREADS ->
      1 <= others (srv_threads (snd (fst r)))
      /\ units (srv_threads (snd (fst r))) <= MAX_THREADS).
Proof.
  revert s. induction fuel as [|fuel IH]; intros s; cbn zeta.
  { cbn [accept_loop fst snd]. repeat split; auto; discriminate. }
  cbn [accept_loop].
  set (fl := match srv_signals s with
             | [] => srv_exit s
             | sg :: _ => orb (srv_exit s) sg
             end).
  destruct fl eqn:Efl.
  { cbn [fst snd with_threads srv_exit srv_threads].
    repeat split; auto; discriminate. }
  set (t := reap (hd 0 (srv_finished s)) (srv_threads s)).
  set (a := hd AcceptTimeout (srv_accepts s)).
  assert (Ht : 1 <= others (srv_threads s) ->
               units (srv_threads s) <= MAX_THREADS ->
               1 <= others t /\ units t <= MAX_THREADS).
  { subst t. unfold reap. cbn [units others]. lia. }
  assert (Hlast : forall (o : outcome unit) (pre ev : list server_event)
                    (e : exn),
             (o = Raise e ->
              (e = SystemExit
               /\ exists ev0, ev = ev0 ++ [SvAccept AcceptTypeError])
              \/ (e = RuntimeError
                  /\ exists ev0, ev = ev0 ++ [SvThreadStart false])) ->
             o = Raise e ->
             (e = SystemExit
              /\ exists ev0, pre ++ ev = ev0 ++ [SvAccept AcceptTypeError])
             \/ (e = RuntimeError
                 /\ exists ev0, pre ++ ev = ev0 ++ [SvThreadStart false])).
  { intros o pre ev e H Ho.
    destruct (H Ho) as [(-> & ev0 & ->)|(-> & ev0 & ->)]; [left|right];
      (split; [reflexivity|]); exists (pre ++ ev0);
      now rewrite app_assoc. }
  pose proof (main_iteration_cases t a) as Hm.
  destruct (main_iteration false t a) as [act t'].
  cbn [fst snd] in Hm.
  destruct act; try contradiction.
  - (* paused *)
    match goal with
    | |- context [accept_loop fuel ?s1] =>
        specialize (IH s1); cbn zeta in IH;
        destruct (accept_loop fuel s1) as [[o s'] ev]
    end.
    cbn [fst snd with_threads srv_threads] in *.
    destruct IH as (Hc & Ha & Hr & He & Hu).
    rewrite listener_closes_cons, accepted_cons, threads_started_cons.
    split; [exact Hc|]. split; [exact Ha|]. split; [exact Hr|].
    split; [|intros H1 H2; apply Hu; apply Ht; assumption].
    intros e. apply (Hlast o [SvSleep 3] ev e (He e)).
  - (* accept failed *)
    match goal with
    | |- context [accept_loop fuel ?s1] =>
        specialize (IH s1); cbn zeta in IH;
        destruct (accept_loop fuel s1) as [[o s'] ev]
    end.
    cbn [fst snd with_threads srv_threads] in *.
    destruct IH as (Hc & Ha & Hr & He & Hu).
    rewrite listener_closes_cons, accepted_cons, threads_started_cons.
    assert (Ea : match a with Accepted => 1 | _ => 0 end = 0)
      by (destruct Hm as [-> | ->]; reflexivity).
    rewrite Ea.
    split; [exact Hc|]. split; [exact Ha|]. split; [exact Hr|].
    split; [|intros H1 H2; apply Hu; apply Ht; assumption].
    intros e. apply (Hlast o [SvAccept a] ev e (He e)).
  - (* a connection was accepted *)
    destruct Hm as (Ea & Hcount & ->).
    destruct (hd true (srv_starts s)).
    + match goal with
      | |- context [accept_loop fuel ?s1] =>
          specialize (IH s1); cbn zeta in IH;
          destruct (accept_loop fuel s1) as [[o s'] ev]
      end.
      cbn [fst snd with_starts with_threads srv_threads units others] in *.
      destruct IH as (Hc & Ha & Hr & He & Hu).
      rewrite !listener_closes_cons, !accepted_cons, !threads_started_cons.
      rewrite Ea.
      assert (Hu' : 1 <= others (srv_threads s) ->
                    units (srv_threads s) <= MAX_THREADS ->
                    1 <= others (srv_threads s')
                    /\ units (srv_threads s') <= MAX_THREADS).
      { intros H1 H2. destruct (Ht H1 H2) as [Ho _].
        apply Hu; [exact Ho|]. unfold activeCount in Hcount. lia. }
      split; [exact Hc|]. split; [lia|]. split; [exact Hr|].
      split; [|exact Hu'].
      intros e.
      apply (Hlast o [SvAccept Accepted; SvThreadStart true] ev e (He e)).
    + cbn [fst snd with_starts with_threads srv_threads].
      rewrite !listener_closes_cons, !accepted_cons, !threads_started_cons.
      rewrite Ea.
      split; [reflexivity|]. split; [reflexivity|].
      split; [discriminate|]. split; [|exact Ht].
      intros e H. inversion H; subst. right. split; [reflexivity|].
      now exists [SvAccept Accepted].
  - (* TypeError *)
    cbn [fst snd with_threads srv_threads].
    rewrite listener_closes_cons, accepted_cons, threads_started_cons.
    rewrite Hm.
    split; [reflexivity|]. split; [reflexivity|].
    split; [discriminate|]. split; [|exact Ht].
    intros e H. inversion H; subst. left. split; [reflexivity|].
    now exists [].
Qed.

Lemma bind_port_spec (s : server) :
  match fst (bind_port s) with
  | Ret _ => listener_closes (snd (bind_port s)) = 0
  | Raise e =>
      e = SystemExit /\ listener_closes (snd (bind_port s)) = 1
      /\ exists ev0, snd (bind_port s) = ev0 ++ [SvClose]
  | Hang => False
  end.
Proof.
  unfold bind_port.
  destruct (on_reuseaddr s);
    [| destruct (on_listen_nodelay s);
       [| destruct (on_bind s); [| destruct (on_listen s)]]];
    cbn [fst snd]; try reflexivity;
    (split; [reflexivity|]); (split; [reflexivity|]).
  - now exists [SvReuseAddr (Some o)].
  - now exists [SvReuseAddr None; SvNoDelay (Some o)].
  - now exists [SvReuseAddr None; SvNoDelay None; SvBind (Some o)].
  - now exists [SvReuseAddr None; SvNoDelay None; SvBind None;
                SvListen (Some o)].
Qed.


(** [main] from the creation of the listening socket on. *)
Lemma main_socks_spec (fuel : nat) (s : server) :
  let r := main_socks fuel s in
  listener_closes (snd r) <= 1
  /\ accepted (snd r) = threads_started (snd r)
  /\ (forall u, fst (fst r) = Ret u ->
        srv_exit (snd (fst r)) = true
        /\ exists ev0, snd r = ev0 ++ [SvClose] /\ listener_closes ev0 = 0)
  /\ (fst (fst r) = Hang -> listener_closes (snd r) = 0)
  /\ (forall e, fst (fst r) = Raise e ->
        (listener_closes (snd r) = 1 <->
         on_listen_socket s = None /\ fst (bind_port s) <> Ret tt)
        /\ ((e = SystemExit
             /\ forall ev0, snd r <> ev0 ++ [SvThreadStart false])
            \/ (e = RuntimeError
                /\ exists ev0, snd r = ev0 ++ [SvThreadStart false]))).
Proof.
  cbn zeta. unfold main_socks.
  assert (Happ : forall t1 t2,
             accepted (t1 ++ t2) = accepted t1 + accepted t2
             /\ threads_started (t1 ++ t2)
                = threads_started t1 + threads_started t2).
  { intros t1 t2. unfold accepted, threads_started.
    now rewrite !filter_app, !length_app. }
  assert (Hnot : forall (pre : list server_event) (e : server_event) ev0,
             e <> SvThreadStart false ->
             pre ++ [e] <> ev0 ++ [SvThreadStart false]).
  { intros pre e ev0 Hne E. apply app_inj_tail in E.
    destruct E as [_ E]. contradiction. }
  destruct (on_listen_socket s) as [es|] eqn:Es.
  { cbn [fst snd]. rewrite listener_closes_cons. cbn.
    split; [lia|]. split; [reflexivity|]. split; [discriminate|].
    split; [discriminate|].
    intros x Hx. inversion Hx. split.
    - split; [discriminate|]. intros [Hn _]. discriminate.
    - left. split; [reflexivity|]. intros ev0.
      apply (Hnot [] (SvSocket (Some es)) ev0). discriminate. }
  pose proof (bind_port_spec s) as Hb.
  assert (Hbc : accepted (snd (bind_port s)) = 0
                /\ threads_started (snd (bind_port s)) = 0).
  { unfold bind_port.
    destruct (on_reuseaddr s);
      [| destruct (on_listen_nodelay s);
         [| destruct (on_bind s); [| destruct (on_listen s)]]];
      split; reflexivity. }
  destruct (bind_port s) as [ob ev1]. cbn [fst snd] in Hb, Hbc.
  destruct Hbc as [Hba Hbt].
  destruct ob as [[]|eb|]; try contradiction.
  2:{ destruct Hb as (-> & Hc & ev0 & ->). cbn [fst snd].
      rewrite listener_closes_cons, Hc, accepted_cons, threads_started_cons.
      rewrite Hba, Hbt. cbn.
      split; [lia|]. split; [reflexivity|]. split; [discriminate|].
      split; [discriminate|].
      intros x Hx. inversion Hx. split.
      - split; [intros _; split; [reflexivity|discriminate] | reflexivity].
      - left. split; [reflexivity|]. intros ev0'.
        apply (Hnot (SvSocket None :: ev0) SvClose ev0'). discriminate. }
  destruct (accept_loop_spec fuel s) as (Hc & Ha & Hr & He & _).
  cbn zeta in *.
  destruct (accept_loop fuel s) as [[o s'] ev2]. cbn [fst snd] in *.
  destruct o as [[]|e|]; cbn [fst snd];
    rewrite listener_closes_cons, ?listener_closes_app, Hb, Hc,
      accepted_cons, threads_started_cons;
    repeat (rewrite (proj1 (Happ _ _)), (proj2 (Happ _ _)));
    rewrite Hba, Hbt, Ha; cbn.
  - split; [lia|]. split; [lia|].
    split; [|split; [discriminate|discriminate]].
    intros u _. split; [now apply (Hr tt)|].
    exists (SvSocket None :: ev1 ++ ev2). split.
    + cbn. now rewrite <- app_assoc.
    + rewrite listener_closes_cons, listener_closes_app, Hb, Hc.
      reflexivity.
  - split; [lia|]. split; [reflexivity|]. split; [discriminate|].
    split; [discriminate|].
    intros x Hx. inversion Hx; subst. split.
    { split; [discriminate|]. intros [_ Hn]. now contradiction Hn. }
    destruct (He x eq_refl) as [(-> & ev0 & ->)|(-> & ev0 & ->)].
    + left. split; [reflexivity|]. intros ev0'.
      rewrite app_assoc.
      apply (Hnot (SvSocket None :: ev1 ++ ev0)
               (SvAccept AcceptTypeError) ev0').
      discriminate.
    + right. split; [reflexivity|].
      exists (SvSocket None :: ev1 ++ ev0). cbn. now rewrite app_assoc.
  - split; [lia|]. split; [reflexivity|]. split; [discriminate|].
    split; [reflexivity|]. discriminate.
Qed.



(** X17.  In every run of [main], each connection that [accept] returned
    is handed to a new thread, and no thread is started otherwise: the
    number of [start()] calls on connection threads equals the number of
    accepted connections. *)
Theorem every_accepted_connection_gets_a_thread (fuel : nat) (s : server) :
  accepted (snd (main fuel s)) = threads_started (snd (main fuel s)).
Proof.
  unfold main.
  destruct (on_wpad_server s); [reflexivity|].
  destruct (wpad_thread_starts s); [|reflexivity].
  destruct (main_socks_spec fuel (start_wpad_thread s)) as (_ & Ha & _).
  cbn zeta in Ha.
  destruct (main_socks fuel (start_wpad_thread s)) as [[o s'] ev].
  cbn [fst snd] in *.
  now rewrite !accepted_cons, !threads_started_cons.
Qed.

(** X18.  The ceiling along a run of the accept loop: started with the
    main thread counted and at most [MAX_THREADS] connection threads, the
    loop is, after any number of iterations and whatever the environment
    does, in a state with at most [MAX_THREADS] connection threads. *)
Theorem accept_loop_keeps_ceiling (fuel : nat) (s : server) :
  1 <= others (srv_threads s) ->
  units (srv_threads s) <= MAX_THREADS ->
  units (srv_threads (snd (fst (accept_loop fuel s)))) <= MAX_THREADS.
Proof.
  intros Ho Hu.
  destruct (accept_loop_spec fuel s) as (_ & _ & _ & _ & H).
  now apply H.
Qed.

Lemma accept_loop_keeps_ceiling_witness :
  let s := server_with [] [] [Accepted; Accepted; AcceptTimeout] in
  1 <= others (srv_threads s)
  /\ units (srv_threads s) <= MAX_THREADS
  /\ units (srv_threads (snd (fst (accept_loop 3 s)))) = 2
  /\ units (srv_threads (snd (fst (accept_loop 3 s)))) <= MAX_THREADS.
Proof.
  assert (H1 : 1 <= others (srv_threads
                              (server_with [] []
                                 [Accepted; Accepted; AcceptTimeout])))
    by (cbn; lia).
  assert (H2 : units (srv_threads
                        (server_with [] []
                           [Accepted; Accepted; AcceptTimeout]))
               <= MAX_THREADS) by (cbn; lia).
  split; [exact H1|]. split; [exact H2|]. split; [reflexivity|].
  exact (@accept_loop_keeps_ceiling 3 _ H1 H2).
Defined.

(** X19.  While more than [MAX_THREADS] threads are alive and none of
    them ends, the accept loop only sleeps: it does not call [accept],
    uses up none of the pending connections, does not close the listening
    socket and does not return. *)
Theorem full_server_only_sleeps (fuel : nat) (s : server) :
  MAX_THREADS < activeCount (srv_threads s) ->
  srv_exit s = false -> srv_signals s = [] -> srv_finished s = [] ->
  let r := accept_loop fuel s in
  fst (fst r) = Hang
  /\ snd r = repeat (SvSleep 3) fuel
  /\ srv_accepts (snd (fst r)) = srv_accepts s.
Proof.
  revert s. induction fuel as [|fuel IH]; intros s Hfull He Hs Hf; cbn zeta.
  { cbn. auto. }
  cbn [accept_loop]. rewrite Hs, He, Hf. cbn [hd tl].
  set (t := reap 0 (srv_threads s)).
  assert (Hact : activeCount t = activeCount (srv_threads s)).
  { subst t. unfold activeCount, reap. cbn [units others]. lia. }
  unfold main_iteration.
  destruct (Nat.ltb_spec MAX_THREADS (activeCount t)) as [_|Hle]; [|lia].
  match goal with
  | |- context [accept_loop fuel ?s1] =>
      specialize (IH s1); cbn zeta in IH;
      destruct (accept_loop fuel s1) as [[o s'] ev]
  end.
  cbn [fst snd with_threads srv_threads srv_exit srv_signals srv_finished
       srv_accepts] in *.
  destruct IH as (-> & -> & Ha); auto.
  fold t. lia.
Qed.

Lemma full_server_only_sleeps_witness :
  let s := with_threads (server_with [] [] [Accepted]) false []
             {| units := 199; others := 2 |} [] [Accepted] in
  MAX_THREADS < activeCount (srv_threads s)
  /\ snd (accept_loop 2 s) = [SvSleep 3; SvSleep 3].
Proof.
  assert (H : MAX_THREADS
              < activeCount
                  (srv_threads
                     (with_threads (server_with [] [] [Accepted]) false []
                        {| units := 199; others := 2 |} [] [Accepted])))
    by (cbn; unfold MAX_THREADS; lia).
  split; [exact H|].
  exact (proj1 (proj2 (@full_server_only_sleeps 2 _ H eq_refl eq_refl
                         eq_refl))).
Defined.

(** ** Errors while reading the request *)

(** X20.  The read of the request phase is guarded for
    [ConnectionResetError] only.  Any other socket error of that read
    leaves [request] as it is, with no reply and no [close].  After a
    reset, [request_client] closes the client socket and reports [False];
    [request] then tries to write the general-failure reply on the closed
    socket, which fails, and its handler closes the socket again. *)
Theorem request_read_errors (fuel : nat) (cfg : config) (w w1 : world)
  (t1 : list event) :
  (forall e,
     recv Client BUFSIZE w = (Raise (OSError e), w1, t1) ->
     e <> ConnectionResetError ->
     request fuel cfg Client w = (Raise (OSError e), w1, t1))
  /\ (recv Client BUFSIZE w
      = (Raise (OSError ConnectionResetError), w1, t1) ->
      result_of (request fuel cfg Client w) = Ret tt
      /\ trace_of (request fuel cfg Client w) =
           t1 ++ [EvClose Client;
                  EvSendall Client general_failure_reply
                    (SendRaise OtherOSError);
                  EvClose Client]).
Proof.
  split.
  - intros e E Hne. rewrite request_unfold, request_client_cases, E.
    destruct e; try reflexivity. contradiction.
  - intros E. rewrite request_unfold, request_client_cases, E.
    cbn [is_ConnectionResetError].
    assert (Et : reply_and_relay fuel Client None None
                   (world_of (close Client w1))
                 = (Ret tt, world_of (close Client (world_of (close Client w1))),
                    [EvSendall Client general_failure_reply
                       (SendRaise OtherOSError); EvClose Client])).
    { unfold reply_and_relay. cbn [is_false is_zero orb].
      rewrite bind_ret_l. cbn [fst snd].
      change (VER ++ [x01] ++ [x00] ++ ATYP_IPV4 ++ _)
        with general_failure_reply.
      reflexivity. }
    rewrite Et. cbn. split; [reflexivity|].
    now rewrite <- app_assoc.
Qed.

Lemma request_read_errors_witness :
  request 1 shipped_config Client (client_sends [RecvRaise TimeoutError])
  = (Raise (OSError TimeoutError), client_sends [],
     [EvRecv Client BUFSIZE (RecvRaise TimeoutError)]).
Proof.
  refine (proj1 (@request_read_errors 1 shipped_config
                   (client_sends [RecvRaise TimeoutError]) (client_sends [])
                   [EvRecv Client BUFSIZE (RecvRaise TimeoutError)])
            TimeoutError eq_refl _).
  discriminate.
Defined.

(** ** One outbound socket per connection *)

Lemma count_events_app (p : event -> bool) (t1 t2 : list event) :
  count_events p (t1 ++ t2) = count_events p t1 + count_events p t2.
Proof. unfold count_events. now rewrite filter_app, length_app. Qed.

Lemma count_events_none (p : event -> bool) (P : event -> Prop)
  (t : list event) :
  Forall P t -> (forall e, P e -> p e = false) -> count_events p t = 0.
Proof.
  intros Ht HP. unfold count_events.
  induction Ht as [|e t He Ht IH]; [reflexivity|].
  cbn. now rewrite (HP e He).
Qed.

Lemma connect_to_dst_calls (cfg : config) (a : dst_addr) (p : N)
  (w : world) :
  count_events is_socket_call (trace_of (connect_to_dst cfg a p w)) = 1
  /\ count_events is_connect_call (trace_of (connect_to_dst cfg a p w)) <= 1.
Proof.
  unfold connect_to_dst, create_socket, setsockopt_bindtodevice, connect,
    setsockopt_nodelay, set_status, error, bind, try_except, ret.
  destruct (on_socket (outbound w)); cbn; [auto|].
  destruct (String.eqb (OUTGOING_INTERFACE cfg) EmptyString); cbn;
    [| destruct (on_bindtodevice (outbound w)) as [[]|]; cbn ];
    destruct (has_nul a); cbn;
    try destruct (on_connect (outbound w)); cbn;
    try destruct (on_nodelay (outbound w)); cbn; auto.
Qed.

(** X21.  A connection creates at most one outbound socket and makes at
    most one outbound connect, whatever the client sends and whatever
    fails. *)
Theorem one_outbound_socket_per_connection (fuel : nat) (cfg : config)
  (w : world) :
  let t := trace_of (connection fuel cfg Client w) in
  count_events is_socket_call t <= 1
  /\ count_events is_connect_call t <= 1.
Proof.
  cbn zeta. unfold connection. rewrite bind_trace.
  pose proof (subnegotiation_log w) as Lh.
  assert (Hh : forall p, p = is_socket_call \/ p = is_connect_call ->
                 count_events p (trace_of (subnegotiation Client w)) = 0).
  { intros p Hp. eapply count_events_none; [exact Lh|].
    intros e He. destruct Hp as [-> | ->]; destruct e; try reflexivity;
      contradiction. }
  rewrite !count_events_app, !Hh by auto.
  destruct (result_of (subnegotiation Client w)) as [[|]|x|];
    try (cbn; lia).
  set (w0 := world_of (subnegotiation Client w)).
  assert (Hreq : forall p, p = is_socket_call \/ p = is_connect_call ->
                   count_events p (trace_of (request fuel cfg Client w0))
                   <= 1).
  { intros p Hp. rewrite request_unfold.
    pose proof (request_client_log w0) as L1.
    destruct (request_client Client w0) as [[[[[a pt]|]|x|] w1] t1];
      cbn [trace_of snd] in L1 |- *.
    - assert (H1 : count_events p t1 = 0).
      { eapply count_events_none; [exact L1|].
        intros e He. destruct Hp as [-> | ->]; destruct e;
          try reflexivity; cbn in He; destruct He; discriminate. }
      destruct (connect_to_dst_calls cfg a pt w1) as [Hs Hc].
      destruct (connect_to_dst_log cfg a pt w1) as (_ & Ls & _).
      cbn zeta in *.
      assert (H2 : count_events p (trace_of (connect_to_dst cfg a pt w1))
                   <= 1)
        by (destruct Hp as [-> | ->]; lia).
      destruct (connect_to_dst cfg a pt w1) as [[[sd|x|] w2] t2];
        cbn [trace_of result_of fst snd] in *;
        try (rewrite count_events_app, H1; lia).
      assert (Hsd : sd = None \/ sd = Some Dst).
      { destruct sd as [sd|]; [right|now left].
        now destruct (Ls sd eq_refl) as [-> _]. }
      pose proof (@reply_and_relay_events fuel (Some (a, pt)) sd w2 Hsd)
        as L3.
      destruct (reply_and_relay fuel Client (Some (a, pt)) sd w2)
        as [[o w3] t3].
      cbn [trace_of snd] in *.
      assert (H3 : count_events p t3 = 0).
      { eapply count_events_none; [exact L3|].
        intros e He. destruct Hp as [-> | ->]; destruct e;
          try reflexivity; contradiction. }
      rewrite !count_events_app, H1, H3. lia.
    - assert (H1 : count_events p t1 = 0).
      { eapply count_events_none; [exact L1|].
        intros e He. destruct Hp as [-> | ->]; destruct e;
          try reflexivity; cbn in He; destruct He; discriminate. }
      pose proof (@reply_and_relay_events fuel None None w1
                    (or_introl eq_refl)) as L3.
      destruct (reply_and_relay fuel Client None None w1) as [[o w3] t3].
      cbn [trace_of snd] in *.
      assert (H3 : count_events p t3 = 0).
      { eapply count_events_none; [exact L3|].
        intros e He. destruct Hp as [-> | ->]; destruct e;
          try reflexivity; contradiction. }
      rewrite !count_events_app, H1, H3. lia.
    - assert (H1 : count_events p t1 = 0).
      { eapply count_events_none; [exact L1|].
        intros e He. destruct Hp as [-> | ->]; destruct e;
          try reflexivity; cbn in He; destruct He; discriminate. }
      lia.
    - assert (H1 : count_events p t1 = 0).
      { eapply count_events_none; [exact L1|].
        intros e He. destruct Hp as [-> | ->]; destruct e;
          try reflexivity; cbn in He; destruct He; discriminate. }
      lia. }
  split; apply Hreq; auto.
Qed.

(** ** The rule list of the PAC file *)

(** X22.  Once the list is downloaded and decoded, [create_wpad_server]
    always builds a rule list.  The first non-empty line of the download
    is dropped, the other non-empty lines follow in order, and the rule
    for the proxy host comes last.  When the download has no non-empty
    line, the line that is dropped is the rule for the proxy host itself,
    and the list is rendered from no entry at all. *)
Theorem wpad_rules_entries (text phost : string) :
  wpad_rules text phost =
    Some (render_rules
            match filter truthy (split (Ascii.ascii_of_nat 10) text) with
            | [] => []
            | _ :: rest => rest ++ [host_rule phost]
            end).
Proof.
  unfold wpad_rules. rewrite filter_app.
  destruct (filter truthy (split (Ascii.ascii_of_nat 10) text)); reflexivity.
Qed.

(** ** Forwarding without short writes *)

Lemma relay_log_exact (t : list event) (s : sock) :
  relay_log t ->
  (forall s' d r, In (EvSend s' d r) t -> r = SendOk (List.length d)) ->
  delivered s t = bytes_read (other s) t.
Proof.
  intros Hl. induction Hl using relay_log_induction; intros Hf.
  - reflexivity.
  - cbn [delivered bytes_read]. apply IHHl.
    intros s' d' r' Hin. apply (Hf s' d' r'). now right.
  - reflexivity.
  - cbn. now destruct (sock_eqb (other s) s0).
  - reflexivity.
  - assert (Ek : k = List.length d).
    { specialize (Hf (other s0) d (SendOk k) (or_intror (or_introl eq_refl))).
      now inversion Hf. }
    subst k. cbn [delivered bytes_read]. rewrite firstn_all.
    rewrite IHHl.
    + destruct s, s0; cbn; try reflexivity; now rewrite app_nil_r.
    + intros s' d' r' Hin. apply (Hf s' d' r'). right. now right.
  - specialize (Hf (other s0) d (SendRaise e)
                  (or_intror (or_introl eq_refl))).
    discriminate Hf.
Qed.

(** X24.  The relay is exact as long as no write is short: in a run of
    the loop in which every [send] reports the whole length of its chunk,
    the bytes that got through to each socket are exactly the bytes read
    from the other socket, in order. *)
Theorem relay_exact_without_short_writes (fuel : nat) (w : world) (s : sock) :
  let t := trace_of (proxy_loop fuel Client Dst w) in
  (forall s' d r, In (EvSend s' d r) t -> r = SendOk (List.length d)) ->
  delivered s t = bytes_read (other s) t.
Proof.
  cbn zeta. intros Hf.
  destruct (proxy_loop_spec fuel w) as (_ & Hl & _).
  now apply relay_log_exact.
Qed.

Lemma relay_exact_without_short_writes_witness :
  delivered Dst (trace_of (proxy_loop 3 Client Dst relay_world)) = [x47].
Proof.
  refine (@relay_exact_without_short_writes 3 relay_world Dst _).
  intros s' d r H. vm_compute in H.
  repeat (destruct H as [H|H]; [try discriminate H; now inversion H|]).
  destruct H.
Defined.
